(** * RadialStitcher: a shallow embedding of [src/cpp/RadialStitcher.cpp]

    The C++ program stitches frames taken from one viewpoint into a
    panorama.  This development embeds the parts of it that do not live
    inside OpenCV: the feathering mask ([buildBlendMask]), the trimming
    of matches at the end of [getFeatures], the consensus search of
    [estimateHomography], the compositor [blend] and the chain of
    transforms built by [Stitch], the three projections and the loop of
    the constructor.  [sin] and [cos] of the C library are parameters of
    the projections: nothing is assumed of them but what a property
    states.

    Conventions of the embedding.
    - A C++ [double] is a binary64 float of the kernel ([PrimFloat.float]);
      a [float] read into a [double] (keypoint coordinates, match
      distances) is held as the [double] it converts to, which is exact.
    - A C++ [int] is a [Z].  The counters and distances of the program
      stay within the bounds of [int] whenever the sizes they are compared
      with do; the products [3 * x] that index a row of a 3-channel image
      do not, and are computed with the overflow of [int] written out.
      Integer division is [Z.quot] and the remainder [Z.rem], as in C++.
    - Undefined behaviour (indexing outside a vector or a matrix,
      converting a NaN, an infinity or an out-of-range [double] to an
      integer type, overflowing an [int]) is the [None] of an option
      monad. *)

From Stdlib Require Import ZArith List Bool Lia Floats Uint63.
Import ListNotations.
Local Open Scope Z_scope.

(* ================================================================= *)
(** ** Part I: the embedding *)
(* ================================================================= *)

(** *** Undefined behaviour and loops *)

Definition bind {A B : Type} (m : option A) (f : A -> option B) : option B :=
  match m with
  | Some a => f a
  | None => None
  end.

Notation "'do' x <- m ; k" := (bind m (fun x => k))
  (at level 10, x name, m at level 100, k at level 200).

(** [forM n i body s] runs [body i], [body (i+1)], ... [n] times from the
    state [s]: the loop [for (int k = i; k < i + n; k++) body]. *)
Fixpoint forM {S : Type} (n : nat) (i : Z) (body : Z -> S -> option S) (s : S)
  : option S :=
  match n with
  | O => Some s
  | S n' =>
      match body i s with
      | Some s' => forM n' (i + 1) body s'
      | None => None
      end
  end.

(** [for (int k = lo; k < hi; k++) body]. *)
Definition for_range {S : Type} (lo hi : Z) (body : Z -> S -> option S) (s : S)
  : option S :=
  forM (Z.to_nat (hi - lo)) lo body s.

(** *** Numeric conversions *)

Module Num.

(** [(double) z] for an [int] (or [uchar]) [z]: exact, every [int] is a
    binary64 value.  A negative [z] is [0 - |z|], which is [-|z|]. *)
Definition i2d (z : Z) : float :=
  if z <? 0
  then PrimFloat.sub 0%float (PrimFloat.of_uint63 (Uint63.of_Z (- z)))
  else PrimFloat.of_uint63 (Uint63.of_Z z).

(** The integer part of a finite float, rounded toward zero. *)
Definition trunc_SF (s : spec_float) : option Z :=
  match s with
  | S754_zero _ => Some 0
  | S754_finite sg m e =>
      let mag := if 0 <=? e then Z.pos m * 2 ^ e else Z.pos m / 2 ^ (- e) in
      Some (if sg then - mag else mag)
  | S754_infinity _ => None
  | S754_nan => None
  end.

Definition INT_MIN : Z := - 2 ^ 31.
Definition INT_MAX : Z := 2 ^ 31 - 1.

(** Conversion of a [double] to an integer type with values [lo..hi]:
    truncation toward zero, undefined when the truncated value is not
    representable (C++ [conv.fpint]). *)
Definition d2range (lo hi : Z) (x : float) : option Z :=
  match trunc_SF (Prim2SF x) with
  | Some z => if (lo <=? z) && (z <=? hi) then Some z else None
  | None => None
  end.

(** [int v = x;] *)
Definition d2i (x : float) : option Z := d2range INT_MIN INT_MAX x.

(** [uchar v = x;] *)
Definition d2uc (x : float) : option Z := d2range 0 255 x.

(** Arithmetic on [int]s: the result when it is a value of [int]; a
    signed overflow is undefined (C++ [expr.pre]). *)
Definition int_range (z : Z) : option Z :=
  if (INT_MIN <=? z) && (z <=? INT_MAX) then Some z else None.

Definition int_mul (a b : Z) : option Z := int_range (a * b).

Definition int_add (a b : Z) : option Z := int_range (a + b).

(** The index of the channel [k] of the pixel [x] in a row of [chan]
    interleaved channels.  In the 3-channel images it is [3*x], [3*x + 1]
    or [3*x + 2], computed in [int]; in a one-channel matrix it is [x]
    itself, and nothing is computed. *)
Definition elemIndex (chan x k : Z) : option Z :=
  if chan =? 1 then Some x
  else do p <- int_mul chan x; if k =? 0 then Some p else int_add p k.

(** [SFcompare] orders finite floats of one sign by exponent, then by
    mantissa. *)
Definition lexCompare (e1 : Z) (m1 : positive) (e2 : Z) (m2 : positive) : comparison :=
  match Z.compare e1 e2 with
  | Lt => Lt
  | Gt => Gt
  | Eq => Pos.compare_cont Eq m1 m2
  end.

End Num.

(** *** Vectors and matrices *)

(** [v[i]] of a [std::vector]: undefined outside [0 .. size-1]. *)
Definition vec_at {A : Type} (v : list A) (i : Z) : option A :=
  if i <? 0 then None else nth_error v (Z.to_nat i).

(** [v[i] = a]. *)
Fixpoint list_set {A : Type} (l : list A) (n : nat) (a : A) : option (list A) :=
  match l, n with
  | [], _ => None
  | _ :: t, O => Some (a :: t)
  | h :: t, S n' =>
      match list_set t n' a with
      | Some t' => Some (h :: t')
      | None => None
      end
  end.

Definition vec_set {A : Type} (v : list A) (i : Z) (a : A) : option (list A) :=
  if i <? 0 then None else list_set v (Z.to_nat i) a.

(** A [cv::Mat]: the header ([rows], [cols]) and the rows of elements.  A
    row of a 3-channel image holds [3 * cols] elements (B, G, R
    interleaved), a row of a 1-channel matrix [cols]. *)
Record Mat (A : Type) : Type := mkMat {
  rows : Z;
  cols : Z;
  data : list (list A)
}.
Arguments mkMat {A} _ _ _.
Arguments rows {A} _.
Arguments cols {A} _.
Arguments data {A} _.

(** [m.ptr<T>(y)[k]]. *)
Definition ptr_get {A : Type} (m : Mat A) (y k : Z) : option A :=
  do row <- vec_at (data m) y;
  vec_at row k.

(** [m.ptr<T>(y)[k] = a]. *)
Definition ptr_set {A : Type} (m : Mat A) (y k : Z) (a : A) : option (Mat A) :=
  do row <- vec_at (data m) y;
  do row' <- vec_set row k a;
  do d <- vec_set (data m) y row';
  Some (mkMat (rows m) (cols m) d).

(** [a.size() == b.size()]. *)
Definition same_size {A B : Type} (a : Mat A) (b : Mat B) : bool :=
  (rows a =? rows b) && (cols a =? cols b).

(** [m = cv::Scalar(v, ...)]: every element becomes [v]. *)
Definition setTo {A : Type} (m : Mat A) (v : A) : Mat A :=
  mkMat (rows m) (cols m) (map (map (fun _ => v)) (data m)).

(** [cv::Mat::zeros(r, c, type)] with [chan] channels. *)
Definition zeros {A : Type} (zero : A) (chan r c : Z) : Mat A :=
  mkMat r c (repeat (repeat zero (Z.to_nat (chan * c))) (Z.to_nat r)).

(** The header agrees with the data. *)
Definition wf_Mat {A : Type} (chan : Z) (m : Mat A) : Prop :=
  0 <= rows m /\ 0 <= cols m /\
  length (data m) = Z.to_nat (rows m) /\
  Forall (fun r => length r = Z.to_nat (chan * cols m)) (data m).

(** *** [RadialStitcher::buildBlendMask] (lines 258-291) *)

Module BlendMask.
Import Num.

(** The alpha written at [(x, y)] (lines 278-285). *)
Definition alpha (nRows nCols maxDist y x : Z) : float :=
  let distTop := Z.abs (y + 1) in
  let distBottom := Z.abs (nRows - y - 1) in
  let yDist := Z.min distTop distBottom in
  let distLeft := Z.abs (x + 1) in
  let distRight := Z.abs (nCols - x - 1) in
  let xDist := Z.min distLeft distRight in
  PrimFloat.div (i2d (Z.min xDist yDist)) (i2d maxDist).

(** The function: the status it returns and the mask it leaves. *)
Definition buildBlendMask {A : Type} (img : Mat A) (mask : Mat float)
  : option (Z * Mat float) :=
  if negb (same_size img mask) then Some (-1, mask) else
  let nRows := rows mask in
  let nCols := cols mask in
  let maxDist := if nRows >? nCols then Z.quot nCols 2 else Z.quot nRows 2 in
  let mask0 := setTo mask 0%float in
  do mask' <-
    for_range 0 nRows (fun y m =>
      for_range 0 nCols (fun x m' =>
        ptr_set m' y x (alpha nRows nCols maxDist y x)) m) mask0;
  Some (0, mask').

(** The value the specification gives for the pixel [(x, y)] of a
    [width x height] mask (its section 4.2), written from its words:
    top [y+1], bottom [height-y], left [x+1], right [width-x]. *)
Definition specMaskValue (width height x y : Z) : float :=
  let topDist := y + 1 in
  let bottomDist := height - y in
  let leftDist := x + 1 in
  let rightDist := width - x in
  let maxDist := Z.quot (Z.min width height) 2 in
  PrimFloat.div (i2d (Z.min (Z.min leftDist rightDist) (Z.min topDist bottomDist)))
                (i2d maxDist).

(** The distance of a pixel to the nearest edge of the image. *)
Definition edgeDist (width height x y : Z) : Z :=
  Z.min (Z.min x (width - 1 - x)) (Z.min y (height - 1 - y)).

(** The integer the function divides by [maxDist] at [(x, y)] (line 285). *)
Definition nearest (nRows nCols y x : Z) : Z :=
  Z.min (Z.min (Z.abs (x + 1)) (Z.abs (nCols - x - 1)))
        (Z.min (Z.abs (y + 1)) (Z.abs (nRows - y - 1))).

End BlendMask.

(** *** Keypoints, matches and the C library's generator *)

(** [cv::Point2f], [cv::KeyPoint] (only [pt] is read) and [cv::DMatch]
    (only the two indices and the distance are read). *)
Record Point2f : Type := mkPoint { pt_x : float; pt_y : float }.
Record KeyPoint : Type := mkKeyPoint { pt : Point2f }.
Record DMatch : Type := mkDMatch { queryIdx : Z; trainIdx : Z; distance : float }.

(** [srand] and [rand] of the C library, which is not part of the
    repository: a hidden state, [srand seed] overwrites it ([srand_reseeds]:
    the state it leaves depends on the seed alone, ISO C 7.22.2.2), [rand]
    returns a value in [0 .. RAND_MAX] and advances it. *)
Record Rng : Type := mkRng {
  rng_state : Type;
  srand : Z -> rng_state -> rng_state;
  rand : rng_state -> Z * rng_state;
  srand_reseeds : forall seed g1 g2, srand seed g1 = srand seed g2;
  rand_nonneg : forall g, 0 <= fst (rand g)
}.

(** *** The end of [RadialStitcher::getFeatures] (lines 338-348) *)

Module Features.

(** Lines 341-342: [if (dist < minDist) minDist = dist]. *)
Definition minStep (m : DMatch) (minDist : float) : float :=
  let dist := distance m in
  if PrimFloat.ltb dist minDist then dist else minDist.

(** Lines 339-343: the running minimum, which starts at 100. *)
Definition findMinDist (nRows : Z) (approxMatches : list DMatch) : option float :=
  for_range 0 nRows (fun i minDist =>
    do m <- vec_at approxMatches i;
    Some (minStep m minDist)) 100%float.

(** Lines 346-348: [push_back] of the matches under [3 * minDist]. *)
Definition keepGood (nRows : Z) (approxMatches : list DMatch) (minDist : float)
  (matches : list DMatch) : option (list DMatch) :=
  for_range 0 nRows (fun i matches =>
    do m <- vec_at approxMatches i;
    Some (if PrimFloat.ltb (distance m) (PrimFloat.mul 3%float minDist)
          then matches ++ [m] else matches)) matches.

(** What [getFeatures] leaves in [matches], from [descriptors1.rows] and
    the [approxMatches] the brute-force matcher returned ([matches] was
    cleared at line 325). *)
Definition trimMatches (descriptors1_rows : Z) (approxMatches : list DMatch)
  : option (list DMatch) :=
  do minDist <- findMinDist descriptors1_rows approxMatches;
  keepGood descriptors1_rows approxMatches minDist [].

(** The minimum distance over all candidate matches, as the specification
    words it: no candidate is below it and one candidate has it. *)
Definition isMinDistance (approxMatches : list DMatch) (d : float) : Prop :=
  In d (map distance approxMatches) /\
  forall m, In m approxMatches -> PrimFloat.ltb (distance m) d = false.

(** The same with the cap of line 339 among the candidates: the least
    of 100 and the candidate distances. *)
Definition isCappedMinDistance (approxMatches : list DMatch) (d : float) : Prop :=
  (d = 100%float \/ In d (map distance approxMatches)) /\
  PrimFloat.ltb 100%float d = false /\
  forall m, In m approxMatches -> PrimFloat.ltb (distance m) d = false.

(** The matches whose distance is strictly below three times [d]. *)
Definition belowThrice (d : float) (approxMatches : list DMatch) : list DMatch :=
  filter (fun m => PrimFloat.ltb (distance m) (PrimFloat.mul 3%float d)) approxMatches.

End Features.

(** *** [RadialStitcher::estimateHomography] (lines 368-478) *)

Module Estimator.
Import Num.

Definition tolerance : float := 3%float.

(** [keypoints2[matches[j].trainIdx].pt - keypoints1[matches[j].queryIdx].pt]:
    lines 403-410 for the reference pair, 420-428 for the pair [j]. *)
Definition translationOf (matches : list DMatch) (keypoints1 keypoints2 : list KeyPoint)
  (j : Z) : option (float * float) :=
  do m <- vec_at matches j;
  do kNew <- vec_at keypoints1 (queryIdx m);
  do kCur <- vec_at keypoints2 (trainIdx m);
  Some (PrimFloat.sub (pt_x (pt kCur)) (pt_x (pt kNew)),
        PrimFloat.sub (pt_y (pt kCur)) (pt_y (pt kNew))).

(** The three variables the inner loop updates.  They are set to 0 at the
    start of every trial (lines 395-397) and not inside the inner loop. *)
Record Quality : Type := mkQuality { xQual : Z; yQual : Z; concensus : Z }.

(** The body of the inner loop (lines 417-436) for the pair [j]. *)
Definition checkFeature (matches : list DMatch) (keypoints1 keypoints2 : list KeyPoint)
  (featureNumber : Z) (xTrans yTrans : float) (j : Z) (q : Quality) : option Quality :=
  if j =? featureNumber then Some q else
  do e <- translationOf matches keypoints1 keypoints2 j;
  let xEstimate := fst e in
  let yEstimate := snd e in
  let xQual' :=
    if PrimFloat.ltb (PrimFloat.abs (PrimFloat.sub xTrans xEstimate)) tolerance
    then 1 else xQual q in
  let yQual' :=
    if PrimFloat.ltb (PrimFloat.abs (PrimFloat.sub yTrans yEstimate)) tolerance
    then 1 else yQual q in
  let concensus' :=
    if negb (xQual' =? 0) && negb (yQual' =? 0)
    then concensus q + 1 else concensus q in
  Some (mkQuality xQual' yQual' concensus').

(** The inner loop (lines 415-438) of a trial whose reference pair is
    [featureNumber]. *)
Definition countConcensus (matches : list DMatch) (keypoints1 keypoints2 : list KeyPoint)
  (featureNumber : Z) (xTrans yTrans : float) : option Quality :=
  for_range 0 (Z.of_nat (length matches))
    (checkFeature matches keypoints1 keypoints2 featureNumber xTrans yTrans)
    (mkQuality 0 0 0).

(** The variables that live across trials. *)
Record Search : Type := mkSearch {
  xTrans : float;
  yTrans : float;
  maxConcensus : Z;
  bestX : Z;
  bestY : Z
}.

(** A trial once its reference pair is chosen (lines 403-445). *)
Definition trialWith (matches : list DMatch) (keypoints1 keypoints2 : list KeyPoint)
  (featureNumber : Z) (s : Search) : option Search :=
  do h <- translationOf matches keypoints1 keypoints2 featureNumber;
  let xT := fst h in
  let yT := snd h in
  do q <- countConcensus matches keypoints1 keypoints2 featureNumber xT yT;
  if concensus q >? maxConcensus s
  then
    do bX <- d2i xT;
    do bY <- d2i yT;
    Some (mkSearch xT yT (concensus q) bX bY)
  else Some (mkSearch xT yT (maxConcensus s) (bestX s) (bestY s)).

(** One turn of the loop of line 392: [rand() % nMatches] (line 399), then
    the trial. *)
Definition trial (R : Rng) (matches : list DMatch) (keypoints1 keypoints2 : list KeyPoint)
  (i : Z) (sg : Search * rng_state R) : option (Search * rng_state R) :=
  let nMatches := Z.of_nat (length matches) in
  let rg := rand R (snd sg) in
  let featureNumber := Z.rem (fst rg) nMatches in
  do s' <- trialWith matches keypoints1 keypoints2 featureNumber (fst sg);
  Some (s', snd rg).

(** Lines 370-447: the initial values, [srand(0)] and the trials. *)
Definition search (R : Rng) (g : rng_state R) (matches : list DMatch)
  (keypoints1 keypoints2 : list KeyPoint) : option (Search * rng_state R) :=
  let nMatches := Z.of_nat (length matches) in
  let trials := nMatches in
  let g0 := srand R 0 g in
  for_range 0 trials (trial R matches keypoints1 keypoints2)
    (mkSearch 0%float 0%float 0 0 0, g0).


(** Lines 465-469: the fallback on a best value that is 0. *)
Definition fallback (s : Search) : option (Z * Z) :=
  do bX <- (if bestX s =? 0 then d2i (xTrans s) else Some (bestX s));
  do bY <- (if bestY s =? 0 then d2i (yTrans s) else Some (bestY s));
  Some (bX, bY).

(** [(bestX, bestY)] as they stand at line 470, and the generator. *)
Definition estimateTranslation (R : Rng) (g : rng_state R) (matches : list DMatch)
  (keypoints1 keypoints2 : list KeyPoint) : option (Z * Z * rng_state R) :=
  do sg <- search R g matches keypoints1 keypoints2;
  do b <- fallback (fst sg);
  Some (fst b, snd b, snd sg).

(** The function: the status it returns, the matrix it wrote the
    translation into (lines 471-472) and the generator it leaves. *)
Definition estimateHomography (R : Rng) (g : rng_state R) (matches : list DMatch)
  (keypoints1 keypoints2 : list KeyPoint) (homography : Mat float)
  : option (Z * Mat float * rng_state R) :=
  do t <- estimateTranslation R g matches keypoints1 keypoints2;
  let bX := fst (fst t) in
  let bY := snd (fst t) in
  do h1 <- ptr_set homography 0 2 (i2d bX);
  do h2 <- ptr_set h1 1 2 (i2d bY);
  Some (0, h2, snd t).

(** The reference pairs the trials of one call choose: the first
    [count] values of [rand() % nMatches] from the state [g]. *)
Fixpoint draws (R : Rng) (count : nat) (nMatches : Z) (g : rng_state R) : list Z :=
  match count with
  | O => []
  | S count' =>
      let rg := rand R g in
      Z.rem (fst rg) nMatches :: draws R count' nMatches (snd rg)
  end.

(** The sequence of reference pairs of a call with [nMatches] matches:
    it is drawn from the state [srand(0)] leaves. *)
Definition hypothesisSequence (R : Rng) (g : rng_state R) (nMatches : Z) : list Z :=
  draws R (Z.to_nat nMatches) nMatches (srand R 0 g).

(** The trials run over a given sequence of reference pairs. *)
Fixpoint searchOver (matches : list DMatch) (keypoints1 keypoints2 : list KeyPoint)
  (features : list Z) (s : Search) : option Search :=
  match features with
  | [] => Some s
  | f :: rest =>
      match trialWith matches keypoints1 keypoints2 f s with
      | Some s' => searchOver matches keypoints1 keypoints2 rest s'
      | None => None
      end
  end.

(** The generator after [count] calls of [rand]. *)
Fixpoint drawsEnd (R : Rng) (count : nat) (g : rng_state R) : rng_state R :=
  match count with
  | O => g
  | S count' => drawsEnd R count' (snd (rand R g))
  end.

(** The values of the variables before the first trial (lines 376-383). *)
Definition search0 : Search := mkSearch 0%float 0%float 0 0 0.

(** Every match indexes a keypoint of each image: what the matcher
    guarantees of the matches it returns. *)
Definition validMatches (matches : list DMatch) (keypoints1 keypoints2 : list KeyPoint)
  : Prop :=
  forall m, In m matches ->
    0 <= queryIdx m < Z.of_nat (length keypoints1) /\
    0 <= trainIdx m < Z.of_nat (length keypoints2).

(** The translation of every match has an [int] value, so that line 443
    and line 467 are defined whenever they run. *)
Definition convertible (matches : list DMatch) (keypoints1 keypoints2 : list KeyPoint)
  : Prop :=
  forall j e, translationOf matches keypoints1 keypoints2 j = Some e ->
    (exists a, d2i (fst e) = Some a) /\ (exists b, d2i (snd e) = Some b).

(** The count the specification gives for a hypothesis (its section 4.3,
    step 2): the pairs [j] other than the reference whose own estimate is
    within the tolerance of the hypothesis on both axes. *)
Definition consistentWith (xHyp yHyp : float) (e : float * float) : bool :=
  PrimFloat.ltb (PrimFloat.abs (PrimFloat.sub xHyp (fst e))) tolerance &&
  PrimFloat.ltb (PrimFloat.abs (PrimFloat.sub yHyp (snd e))) tolerance.

Fixpoint specCountFrom (matches : list DMatch) (keypoints1 keypoints2 : list KeyPoint)
  (featureNumber : Z) (xHyp yHyp : float) (count : nat) (j : Z) : Z :=
  match count with
  | O => 0
  | S count' =>
      (if j =? featureNumber then 0
       else match translationOf matches keypoints1 keypoints2 j with
            | Some e => if consistentWith xHyp yHyp e then 1 else 0
            | None => 0
            end)
      + specCountFrom matches keypoints1 keypoints2 featureNumber xHyp yHyp count' (j + 1)
  end.

Definition specCount (matches : list DMatch) (keypoints1 keypoints2 : list KeyPoint)
  (featureNumber : Z) (xHyp yHyp : float) : Z :=
  specCountFrom matches keypoints1 keypoints2 featureNumber xHyp yHyp
    (length matches) 0.

End Estimator.

(** What [getFeatures] leaves in the members [keypoints1], [keypoints2]
    and [matches].  The ORB detector and the brute-force matcher are
    OpenCV's: what they return for the two images is the input here. *)
Record Detected : Type := mkDetected {
  det_keypoints1 : list KeyPoint;
  det_keypoints2 : list KeyPoint;
  det_descriptors1_rows : Z;
  det_approxMatches : list DMatch
}.

Record FeatureSet : Type := mkFeatureSet {
  keypoints1 : list KeyPoint;
  keypoints2 : list KeyPoint;
  matches : list DMatch
}.

Definition getFeatures (d : Detected) : option (Z * FeatureSet) :=
  do ms <- Features.trimMatches (det_descriptors1_rows d) (det_approxMatches d);
  Some (0, mkFeatureSet (det_keypoints1 d) (det_keypoints2 d) ms).

(** *** [RadialStitcher::blend] (lines 484-529) *)

Module Compositor.
Import Num.

(** One channel of the feather region (lines 516-518): the weighted
    average, stored into a [uchar]. *)
Definition feather (aN aC : float) (newVal canVal : Z) : option Z :=
  d2uc (PrimFloat.div
          (PrimFloat.add (PrimFloat.mul aN (i2d newVal)) (PrimFloat.mul aC (i2d canVal)))
          (PrimFloat.add aN aC)).

(** [rowCan[k] = feather(rowNew[k], rowCan[k])]. *)
Definition featherChannel (newImage : Mat Z) (aN aC : float) (y k : Z) (canvas : Mat Z)
  : option (Mat Z) :=
  do n <- ptr_get newImage y k;
  do c <- ptr_get canvas y k;
  do v <- feather aN aC n c;
  ptr_set canvas y k v.

(** [rowCan[k] = rowNew[k]]. *)
Definition copyChannel (newImage : Mat Z) (y k : Z) (canvas : Mat Z) : option (Mat Z) :=
  do n <- ptr_get newImage y k;
  ptr_set canvas y k n.

(** The three statements of a branch (lines 516-518, lines 520-522):
    [update] at the indices [3*x], [3*x + 1] and [3*x + 2], each computed
    in [int] where its statement runs. *)
Definition onChannels (update : Z -> Mat Z -> option (Mat Z)) (x : Z) (canvas : Mat Z)
  : option (Mat Z) :=
  do i0 <- elemIndex 3 x 0;
  do canvas1 <- update i0 canvas;
  do i1 <- elemIndex 3 x 1;
  do canvas2 <- update i1 canvas1;
  do i2 <- elemIndex 3 x 2;
  update i2 canvas2.

(** The body of the loops (lines 513-523) at the pixel [(x, y)]. *)
Definition blendPixel (newImage : Mat Z) (newMask canvasMask : Mat float) (y x : Z)
  (canvas : Mat Z) : option (Mat Z) :=
  do i0 <- elemIndex 3 x 0;
  do c0 <- ptr_get canvas y i0;
  do both <- (if negb (c0 =? 0)
              then do n0 <- ptr_get newImage y i0; Some (negb (n0 =? 0))
              else Some false);
  if both then
    do aN <- ptr_get newMask y x;
    do aC <- ptr_get canvasMask y x;
    onChannels (featherChannel newImage aN aC y) x canvas
  else if negb (c0 >? 0) then
    onChannels (copyChannel newImage y) x canvas
  else Some canvas.

(** The function: the status it returns and the canvas it leaves. *)
Definition blend (newImage canvas : Mat Z) (newMask canvasMask : Mat float)
  : option (Z * Mat Z) :=
  if negb (same_size newImage canvas) then Some (-1, canvas) else
  let nRows := rows canvas in
  let nCols := cols canvas in
  do canvas' <-
    for_range 0 nRows (fun y c =>
      for_range 0 nCols (fun x c' =>
        blendPixel newImage newMask canvasMask y x c') c) canvas;
  Some (0, canvas').

End Compositor.

(** *** [RadialStitcher::Stitch] (lines 533-617): the chain of transforms *)

Module Assembler.
Import Num Estimator.

(** The 3x3 identity (lines 571-574 and 583-586). *)
Definition Id3 : Mat float :=
  mkMat 3 3 [[1; 0; 0]; [0; 1; 0]; [0; 0; 1]]%float.

(** The [double] literals [1.2] (the nearest binary64 value) and [0.5]. *)
Definition lit_1_2 : float := 0x1.3333333333333p+0%float.
Definition lit_0_5 : float := 0.5%float.

(** [m.at<double>(r, c) += v]. *)
Definition addAt (m : Mat float) (r c : Z) (v : float) : option (Mat float) :=
  do old <- ptr_get m r c;
  ptr_set m r c (PrimFloat.add old v).

(** The size of the canvas (line 541): the [double] arguments are
    converted to the [int] parameters of [cv::Mat::zeros]. *)
Definition canvasSize (first_rows first_cols numImages : Z) : option (Z * Z) :=
  do out_rows <- d2i (PrimFloat.mul lit_1_2 (i2d first_rows));
  do out_cols <- d2i (PrimFloat.add (i2d first_cols)
                        (PrimFloat.mul (PrimFloat.mul (i2d (numImages - 1)) lit_0_5)
                                       (i2d first_cols)));
  Some (out_rows, out_cols).

(** The matrix of a translation by [(tx, ty)]. *)
Definition translationMat (tx ty : float) : Mat float :=
  mkMat 3 3 [[1%float; 0%float; tx]; [0%float; 1%float; ty]; [0%float; 0%float; 1%float]].

(** The transform of the first image (lines 550-556). *)
Definition firstTransform (first_rows out_rows : Z) : Mat float :=
  let xCenter := i2d 0 in
  let yCenter := i2d (Z.quot (- first_rows) 2 + Z.quot out_rows 2) in
  translationMat xCenter yCenter.

(** One turn of the loop of line 564, as far as [transforms] goes: the
    features of the pair (curr, left), the translation, the matrix [C]
    (lines 583-596).  [warpPerspective] and [blend] work on the images and
    neither read nor write [transforms]. *)
Definition stitchStep (R : Rng) (detect : Z -> Detected) (i : Z)
  (st : list (Mat float) * rng_state R) : option (list (Mat float) * rng_state R) :=
  let transforms := fst st in
  do f <- getFeatures (detect i);
  do e <- estimateHomography R (snd st) (matches (snd f)) (keypoints1 (snd f))
            (keypoints2 (snd f)) Id3;
  let H := snd (fst e) in
  do prev <- vec_at transforms (i - 1);
  do p02 <- ptr_get prev 0 2;
  do C1 <- addAt Id3 0 2 p02;
  do p12 <- ptr_get prev 1 2;
  do C2 <- addAt C1 1 2 p12;
  do h02 <- ptr_get H 0 2;
  do C3 <- addAt C2 0 2 h02;
  do h12 <- ptr_get H 1 2;
  do C4 <- addAt C3 1 2 h12;
  Some (transforms ++ [C4], snd e).

(** [Stitch] on a stitcher whose [transforms] is [transforms0] (empty
    after the constructor): the status, [transforms] and the generator. *)
Definition Stitch (R : Rng) (g : rng_state R) (first_rows first_cols numImages : Z)
  (detect : Z -> Detected) (transforms0 : list (Mat float))
  : option (Z * list (Mat float) * rng_state R) :=
  do size <- canvasSize first_rows first_cols numImages;
  let Tr := firstTransform first_rows (fst size) in
  do st <- for_range 1 numImages (stitchStep R detect) (transforms0 ++ [Tr], g);
  Some (0, fst st, snd st).



(** The translation [estimateHomography] finds for the pair of images
    whose detected features are [d]. *)
Definition pairwiseTranslation (R : Rng) (g : rng_state R) (d : Detected) : option (Z * Z) :=
  do f <- getFeatures d;
  do t <- estimateTranslation R g (matches (snd f)) (keypoints1 (snd f)) (keypoints2 (snd f));
  Some (fst (fst t), snd (fst t)).

End Assembler.

(** *** A generator to run the model on: the sample of ISO C 7.22.2 *)

Module IsoRand.

(** [next = next * 1103515245 + 12345; return (next / 65536) % 32768;]
    with a 32-bit [next]; [srand(seed)] is [next = seed]. *)
Definition iso_srand (seed : Z) (g : Z) : Z := seed mod 2 ^ 32.

Definition iso_rand (g : Z) : Z * Z :=
  let next := (g * 1103515245 + 12345) mod 2 ^ 32 in
  ((next / 65536) mod 32768, next).

End IsoRand.

(** The generator of the standard's sample, as an instance of [Rng]. *)
Definition isoRng : Rng :=
  mkRng Z IsoRand.iso_srand IsoRand.iso_rand
    (fun _ _ _ => eq_refl)
    (fun g => proj1 (Z.mod_pos_bound _ 32768 eq_refl)).

(** *** Inputs of the examples *)

Module Examples.

Definition kp (x y : float) : KeyPoint := mkKeyPoint (mkPoint x y).

(** A 4x4 image (3 channels) and a 4x4 mask, as the constructor builds
    them at lines 91-93. *)
Definition img44 : Mat Z := zeros 0 3 4 4.
Definition mask44 : Mat float := zeros 0%float 1 4 4.

(** Four matches whose translations are (0,0), (0,100), (100,0) and
    (100,100): no two of them agree on both axes. *)
Definition axes_k1 : list KeyPoint := [kp 0 0; kp 0 0; kp 0 0; kp 0 0]%float.
Definition axes_k2 : list KeyPoint := [kp 0 0; kp 0 100; kp 100 0; kp 100 100]%float.
Definition axes_ms : list DMatch :=
  [mkDMatch 0 0 1; mkDMatch 1 1 1; mkDMatch 2 2 1; mkDMatch 3 3 1]%float.

(** One match whose translation is (2.5, 0). *)
Definition half_k1 : list KeyPoint := [kp 0 0]%float.
Definition half_k2 : list KeyPoint := [kp 2.5 0]%float.
Definition half_ms : list DMatch := [mkDMatch 0 0 1%float].

(** Two candidate matches at the distances 150 and 400. *)
Definition far_near : DMatch := mkDMatch 0 0 150%float.
Definition far_far : DMatch := mkDMatch 1 1 400%float.
Definition far_matches : list DMatch := [far_near; far_far].

(** One pixel with content on both sides and a zero alpha on both. *)
Definition px_new : Mat Z := mkMat 1 1 [[40; 50; 60]].
Definition px_canvas : Mat Z := mkMat 1 1 [[10; 20; 30]].
Definition px_alpha0 : Mat float := mkMat 1 1 [[0%float]].

(** Four frames of 100 rows and 200 columns; the features of each pair
    are one match that shifts by 10, 8 and 12 pixels along x. *)
Definition shift_by (dx : float) : Detected :=
  mkDetected [kp 0 0]%float [kp dx 0%float] 1 [mkDMatch 0 0 1%float].
Definition chain_detect (i : Z) : Detected :=
  if i =? 1 then shift_by 10 else if i =? 2 then shift_by 8 else shift_by 12.

End Examples.

(** *** The projections (lines 122-251) *)

(** [sin] and [cos] of the C library, which is not part of the
    repository: two functions on [double]s, of which nothing is assumed
    but what a property states. *)
Record Libm : Type := mkLibm {
  c_sin : float -> float;
  c_cos : float -> float
}.

Module Projector.
Import Num.

(** The integer [round] of the C library yields for a finite [double]:
    the nearest one, halves away from zero. *)
Definition round_SF (s : spec_float) : option Z :=
  match s with
  | S754_zero _ => Some 0
  | S754_finite sg m e =>
      let mag := if 0 <=? e then Z.pos m * 2 ^ e
                 else (Z.pos m / 2 ^ (- e - 1) + 1) / 2 in
      Some (if sg then - mag else mag)
  | S754_infinity _ => None
  | S754_nan => None
  end.

(** [int v = round(x);]: [round] returns the integer as a [double]
    (an infinity or a NaN as it is), and the conversion to [int] is
    undefined outside the range of [int]. *)
Definition round_to_int (x : float) : option Z :=
  match round_SF (Prim2SF x) with
  | Some z => if (INT_MIN <=? z) && (z <=? INT_MAX) then Some z else None
  | None => None
  end.

(** Lines 184-192: the source coordinates [(xIn, yIn)] of the pixel
    [(x, y)] of the spherical projection. *)
Definition sampleSpherical (L : Libm) (f : float) (nRows nCols y x : Z)
  : option (Z * Z) :=
  let xCenter := Z.quot nCols 2 in
  let yCenter := Z.quot nRows 2 in
  let theta := PrimFloat.div (i2d (x - xCenter)) f in
  let phi := PrimFloat.div (i2d (y - yCenter)) f in
  let xp := PrimFloat.mul (c_sin L theta) (c_cos L phi) in
  let yp := c_sin L phi in
  let zp := PrimFloat.mul (c_cos L theta) (c_cos L phi) in
  do xIn <- round_to_int
              (PrimFloat.add (PrimFloat.div (PrimFloat.mul f xp) zp) (i2d xCenter));
  do yIn <- round_to_int
              (PrimFloat.add (PrimFloat.div (PrimFloat.mul f yp) zp) (i2d yCenter));
  Some (xIn, yIn).

(** Lines 138-146: the same for the cylindrical projection. *)
Definition sampleCylindrical (L : Libm) (f : float) (nRows nCols y x : Z)
  : option (Z * Z) :=
  let xCenter := Z.quot nCols 2 in
  let yCenter := Z.quot nRows 2 in
  let theta := PrimFloat.div (i2d (x - xCenter)) f in
  let h := PrimFloat.div (i2d (y - yCenter)) f in
  let xp := c_sin L theta in
  let yp := h in
  let zp := c_cos L theta in
  do xIn <- round_to_int
              (PrimFloat.add (PrimFloat.div (PrimFloat.mul f xp) zp) (i2d xCenter));
  do yIn <- round_to_int
              (PrimFloat.add (PrimFloat.div (PrimFloat.mul f yp) zp) (i2d yCenter));
  Some (xIn, yIn).

(** [xIn > -1 && xIn < nCols && yIn > -1 && yIn < nRows]. *)
Definition inBounds (nRows nCols xIn yIn : Z) : bool :=
  (xIn >? -1) && (xIn <? nCols) && (yIn >? -1) && (yIn <? nRows).

(** [sO[3*x + k] = sI[3*xIn + k]] for [k = k0, k0+1, ...], [count]
    times: lines 153-155 and 199-201 with 3 channels; [sO[x] = sI[xIn]],
    line 244, with 1. *)
Fixpoint copyChannels {A : Type} (I : Mat A) (chan yIn xIn y x : Z) (count : nat)
  (k : Z) (O : Mat A) : option (Mat A) :=
  match count with
  | O => Some O
  | S count' =>
      do src <- elemIndex chan xIn k;
      do dst <- elemIndex chan x k;
      do v <- ptr_get I yIn src;
      do O' <- ptr_set O y dst v;
      copyChannels I chan yIn xIn y x count' (k + 1) O'
  end.

(** The body of the two loops at the pixel [(x, y)]. *)
Definition projectPixel {A : Type} (sample : Z -> Z -> option (Z * Z)) (chan : Z)
  (I : Mat A) (y x : Z) (O : Mat A) : option (Mat A) :=
  do s <- sample y x;
  let xIn := fst s in
  let yIn := snd s in
  if inBounds (rows I) (cols I) xIn yIn
  then copyChannels I chan yIn xIn y x (Z.to_nat chan) 0 O
  else Some O.

(** The two loops over the pixels of the output, and the status 0. *)
Definition projectLoops {A : Type} (sample : Z -> Z -> option (Z * Z)) (chan : Z)
  (I O : Mat A) : option (Z * Mat A) :=
  let nRows := rows I in
  let nCols := cols I in
  do O' <-
    for_range 0 nRows (fun y o =>
      for_range 0 nCols (fun x o' => projectPixel sample chan I y x o') o) O;
  Some (0, O').

(** The three functions: the status they return and the output they
    leave. *)
Definition projectCylindrical (L : Libm) (I O : Mat Z) (f : float) : option (Z * Mat Z) :=
  projectLoops (sampleCylindrical L f (rows I) (cols I)) 3 I O.

Definition projectSpherical (L : Libm) (I O : Mat Z) (f : float) : option (Z * Mat Z) :=
  projectLoops (sampleSpherical L f (rows I) (cols I)) 3 I O.

Definition projectMaskSpherical (L : Libm) (I O : Mat float) (f : float)
  : option (Z * Mat float) :=
  projectLoops (sampleSpherical L f (rows I) (cols I)) 1 I O.

(** What a projection leaves in the channel [k] of the pixel [(x, y)]:
    the channel of the sampled pixel of the input when the sample is in
    bounds, what the output held otherwise. *)
Definition projectedAt {A : Type} (sample : Z -> Z -> option (Z * Z)) (chan : Z)
  (I O : Mat A) (y x k : Z) : option A :=
  do s <- sample y x;
  if inBounds (rows I) (cols I) (fst s) (snd s)
  then ptr_get I (snd s) (chan * fst s + k)
  else ptr_get O y (chan * x + k).

(** Every index of a row of [nCols] pixels is a value of [int]: the
    one-channel loops compute none, the 3-channel ones [3*x + k]. *)
Definition indexable (chan nCols : Z) : Prop :=
  chan = 1 \/ chan * nCols <= INT_MAX.

(** What holds of the result of a projection of [I] into [O] with the
    sampling [sample]: it is defined when the rows are indexable and
    every sample of a pixel of the image is defined, and when defined the
    status is 0, the output keeps its shape and every channel of every
    pixel is [projectedAt]. *)
Definition projects {A : Type} (sample : Z -> Z -> option (Z * Z)) (chan : Z)
  (I O : Mat A) (result : option (Z * Mat A)) : Prop :=
  (indexable chan (cols I) ->
   (forall y x, 0 <= y < rows I -> 0 <= x < cols I -> exists s, sample y x = Some s) ->
   exists O', result = Some (0, O')) /\
  (forall status O',
     result = Some (status, O') ->
     status = 0 /\ wf_Mat chan O' /\ rows O' = rows I /\ cols O' = cols I /\
     forall y x k, 0 <= y < rows I -> 0 <= x < cols I -> 0 <= k < chan ->
       ptr_get O' y (chan * x + k) = projectedAt sample chan I O y x k).

End Projector.

(** A library to run the projections on: [sin x = x] and [cos x = 1],
    the first-order values around 0. *)
Definition paraxialLibm : Libm := mkLibm (fun x => x) (fun _ => 1%float).

(** *** Inputs of the example of a depth near zero *)

Module RightAngle.

(** The [double] nearest to pi/2, and the focal length [2/pi], for which
    the pixels next to the center column are at that angle:
    [1 / focal = theta]. *)
Definition theta : float := 0x1.921fb54442d18p+0%float.




End RightAngle.

(** *** What [blend] and the search leave, from their inputs *)

Module Outcome.
Import Num Estimator Compositor.

(** The channel [k] of the canvas pixel [(x, y)] after [blend]
    (lines 513-523), from the images and masks the call received. *)
Definition blendedAt (newImage canvas : Mat Z) (newMask canvasMask : Mat float)
  (y x k : Z) : option Z :=
  do c0 <- ptr_get canvas y (3 * x);
  do n0 <- ptr_get newImage y (3 * x);
  do ck <- ptr_get canvas y (3 * x + k);
  do nk <- ptr_get newImage y (3 * x + k);
  if negb (c0 =? 0) && negb (n0 =? 0) then
    do aN <- ptr_get newMask y x;
    do aC <- ptr_get canvasMask y x;
    feather aN aC nk ck
  else if negb (c0 >? 0) then Some nk
  else Some ck.

(** No pixel has content (a nonzero channel 0) both in the canvas and in
    the new image. *)
Definition noOverlap (newImage canvas : Mat Z) : Prop :=
  forall y x c0 n0,
    ptr_get canvas y (3 * x) = Some c0 ->
    ptr_get newImage y (3 * x) = Some n0 ->
    c0 = 0 \/ n0 = 0.

(** The votes of the trial whose reference pair is [featureNumber]: the
    [concensus] its inner loop ends with. *)
Definition votes (matches : list DMatch) (keypoints1 keypoints2 : list KeyPoint)
  (featureNumber : Z) : option Z :=
  do h <- translationOf matches keypoints1 keypoints2 featureNumber;
  do q <- countConcensus matches keypoints1 keypoints2 featureNumber (fst h) (snd h);
  Some (concensus q).

(** The pair of truncated components of the translation of a match. *)
Definition truncatedTranslation (matches : list DMatch)
  (keypoints1 keypoints2 : list KeyPoint) (featureNumber : Z) : option (Z * Z) :=
  do h <- translationOf matches keypoints1 keypoints2 featureNumber;
  do bX <- d2i (fst h);
  do bY <- d2i (snd h);
  Some (bX, bY).

End Outcome.

(** *** The constructor (lines 81-114) *)

Module Prewarp.
Import Num BlendMask Projector.

(** [focalLength = 2800] (line 86). *)
Definition focalLength : float := 2800%float.

(** What the constructor leaves: it has called [exit(1)] (line 97), or
    the members [src] and [blendMasks]. *)
Inductive Constructed : Type :=
| Exited : Constructed
| Built : list (Mat Z) -> list (Mat float) -> Constructed.

(** [!temp.data]: the matrix holds no element, as the one [imread]
    returns for a file it cannot read. *)
Definition noData {A : Type} (m : Mat A) : bool :=
  (rows m =? 0) || (cols m =? 0).

(** One turn of the loop of line 89.  [imread k] is the image OpenCV
    decodes from [fileNames[k]] (3 channels of 8 bits, flag 1).
    [projection] is [SPHERICAL] (line 85), so that the branch of lines
    108-109 never runs.  After [exit(1)] nothing runs. *)
Definition prewarpStep (L : Libm) (imread : Z -> Mat Z) (i : Z) (st : Constructed)
  : option Constructed :=
  match st with
  | Exited => Some Exited
  | Built src blendMasks =>
      let temp := imread (i + 1) in
      let mask0 := zeros 0%float 1 (rows temp) (cols temp) in
      do r <- buildBlendMask temp mask0;
      let mask := snd r in
      if noData temp then Some Exited else
      let src1 := src ++ [zeros 0 3 (rows temp) (cols temp)] in
      let blendMasks1 := blendMasks ++ [zeros 0%float 1 (rows mask) (cols mask)] in
      do O <- vec_at src1 i;
      do p <- projectSpherical L temp O focalLength;
      do src2 <- vec_set src1 i (snd p);
      do MO <- vec_at blendMasks1 i;
      do pm <- projectMaskSpherical L mask MO focalLength;
      do blendMasks2 <- vec_set blendMasks1 i (snd pm);
      Some (Built src2 blendMasks2)
  end.

(** The constructor, from [numImages] and the decoded files. *)
Definition construct (L : Libm) (numImages : Z) (imread : Z -> Mat Z)
  : option Constructed :=
  for_range 0 numImages (prewarpStep L imread) (Built [] []).

(** [maxDist] of [buildBlendMask] (lines 266-267). *)
Definition maxDistOf (nRows nCols : Z) : Z :=
  if nRows >? nCols then Z.quot nCols 2 else Z.quot nRows 2.

(** The image [img] and the mask [msk] stored for the decoded image
    [temp]: at every pixel, the pixel of [temp] at the sampled
    coordinates and the feathering alpha of that very pixel, or black and
    a zero alpha when the sample falls outside [temp]. *)
Definition prewarped (L : Libm) (temp img : Mat Z) (msk : Mat float) : Prop :=
  rows img = rows temp /\ cols img = cols temp /\
  rows msk = rows temp /\ cols msk = cols temp /\
  forall y x, 0 <= y < rows temp -> 0 <= x < cols temp ->
    exists xIn yIn,
      sampleSpherical L focalLength (rows temp) (cols temp) y x = Some (xIn, yIn) /\
      if inBounds (rows temp) (cols temp) xIn yIn
      then (forall k, 0 <= k < 3 ->
              ptr_get img y (3 * x + k) = ptr_get temp yIn (3 * xIn + k)) /\
           ptr_get msk y x =
             Some (alpha (rows temp) (cols temp)
                         (maxDistOf (rows temp) (cols temp)) yIn xIn)
      else (forall k, 0 <= k < 3 -> ptr_get img y (3 * x + k) = Some 0) /\
           ptr_get msk y x = Some 0%float.

End Prewarp.

(** *** The chain of transforms, turn by turn *)

Module Chain.
Import Num Estimator Assembler.



End Chain.

(** *** Inputs of further examples *)

Module Samples.
Import Examples Projector Assembler.

(** A 2x2 image with twelve different channel values, a 2x2 mask, and
    the outputs the constructor allocates for them. *)
Definition img22 : Mat Z := mkMat 2 2 [[1; 2; 3; 4; 5; 6]; [7; 8; 9; 10; 11; 12]].
Definition out22 : Mat Z := zeros 0 3 2 2.
Definition mask22 : Mat float := mkMat 2 2 [[1; 0]; [0; 0]]%float.
Definition maskOut22 : Mat float := zeros 0%float 1 2 2.

(** What [projectSpherical] leaves for [img22] with the paraxial [sin]
    and [cos]. *)
Definition warped22 : Mat Z :=
  Eval vm_compute in
    match projectSpherical paraxialLibm img22 out22 2800%float with
    | Some r => snd r
    | None => out22
    end.

(** Files that are all read, and files the second of which is not. *)
Definition read_all (k : Z) : Mat Z := img22.
Definition read_first (k : Z) : Mat Z := if k =? 1 then img22 else mkMat 0 0 [].

(** An image and a mask one pixel high. *)
Definition img13 : Mat Z := zeros 0 3 1 3.
Definition mask13 : Mat float := zeros 0%float 1 1 3.

(** Two candidates, the first at the distance 0. *)
Definition exact_matches : list DMatch := [mkDMatch 0 0 0; mkDMatch 1 1 5]%float.

(** Three matches that all give the translation (10.5, 1). *)
Definition agree_k1 : list KeyPoint := [kp 0 0; kp 5 5; kp 20 7]%float.
Definition agree_k2 : list KeyPoint := [kp 10.5 1; kp 15.5 6; kp 30.5 8]%float.
Definition agree_ms : list DMatch := [mkDMatch 0 0 1; mkDMatch 1 1 2; mkDMatch 2 2 3]%float.

(** A canvas pixel without content in its channel 0. *)
Definition px_empty0 : Mat Z := mkMat 1 1 [[0; 20; 30]].
Definition px_half : Mat float := mkMat 1 1 [[0.5%float]].

(** The transforms and the generator [Stitch] leaves on the four frames
    of [chain_detect]. *)
Definition chain_Ts : list (Mat float) :=
  Eval vm_compute in
    match Stitch isoRng 1 100 200 4 chain_detect [] with
    | Some r => snd (fst r)
    | None => []
    end.
Definition chain_g : Z :=
  Eval vm_compute in
    match Stitch isoRng 1 100 200 4 chain_detect [] with
    | Some r => snd r
    | None => 0
    end.

End Samples.

(* ================================================================= *)
(** ** Part II: the properties *)
(* ================================================================= *)

(** *** Loops *)

Section Loops.
Context {S : Type}.
Variable P : Z -> S -> Prop.
Variable body : Z -> S -> option S.

(** A loop whose every turn is defined and keeps the invariant is
    defined and ends in the invariant. *)
Lemma forM_invariant :
  forall (n : nat) (i : Z) (s : S),
    P i s ->
    (forall j t, i <= j < i + Z.of_nat n -> P j t ->
       exists t', body j t = Some t' /\ P (j + 1) t') ->
    exists s', forM n i body s = Some s' /\ P (i + Z.of_nat n) s'.
Proof.
  induction n as [|n IH]; intros i s Hi Hstep.
  - exists s. split; [reflexivity|].
    replace (i + Z.of_nat 0) with i by lia. exact Hi.
  - destruct (Hstep i s) as (t & Ht & HP); [lia | exact Hi |].
    cbn [forM]. rewrite Ht.
    destruct (IH (i + 1) t HP) as (s' & Hs' & HP').
    + intros j u Hj. apply Hstep. lia.
    + exists s'. split; [exact Hs'|].
      replace (i + Z.of_nat (Datatypes.S n)) with (i + 1 + Z.of_nat n) by lia.
      exact HP'.
Qed.

Lemma for_range_invariant :
  forall (lo hi : Z) (s : S),
    lo <= hi ->
    P lo s ->
    (forall j t, lo <= j < hi -> P j t ->
       exists t', body j t = Some t' /\ P (j + 1) t') ->
    exists s', for_range lo hi body s = Some s' /\ P hi s'.
Proof.
  intros lo hi s Hle Hlo Hstep. unfold for_range.
  destruct (forM_invariant (Z.to_nat (hi - lo)) lo s Hlo) as (s' & Hs' & HP).
  - intros j t Hj. apply Hstep. lia.
  - exists s'. split; [exact Hs'|].
    replace (lo + Z.of_nat (Z.to_nat (hi - lo))) with hi in HP by lia. exact HP.
Qed.

End Loops.

(** *** Vectors and matrices *)

Section Containers.
Context {A : Type}.

Lemma list_set_defined (l : list A) (n : nat) (a : A) :
  (n < length l)%nat -> exists l', list_set l n a = Some l'.
Proof.
  revert n. induction l as [|h t IH]; intros n Hn; cbn in Hn; [lia|].
  destruct n as [|n]; cbn [list_set].
  - eexists; reflexivity.
  - destruct (IH n) as (t' & Ht'); [lia|]. rewrite Ht'. eexists; reflexivity.
Qed.

Lemma list_set_length (l l' : list A) (n : nat) (a : A) :
  list_set l n a = Some l' -> length l' = length l.
Proof.
  revert n l'. induction l as [|h t IH]; intros n l' H; cbn in H; [discriminate|].
  destruct n as [|n].
  - injection H as <-. reflexivity.
  - destruct (list_set t n a) as [t'|] eqn:E; [|discriminate].
    injection H as <-. cbn. f_equal. eapply IH; eassumption.
Qed.

Lemma list_set_same (l l' : list A) (n : nat) (a : A) :
  list_set l n a = Some l' -> nth_error l' n = Some a.
Proof.
  revert n l'. induction l as [|h t IH]; intros n l' H; cbn in H; [discriminate|].
  destruct n as [|n].
  - injection H as <-. reflexivity.
  - destruct (list_set t n a) as [t'|] eqn:E; [|discriminate].
    injection H as <-. cbn. eapply IH; eassumption.
Qed.

Lemma list_set_other (l l' : list A) (n k : nat) (a : A) :
  list_set l n a = Some l' -> k <> n -> nth_error l' k = nth_error l k.
Proof.
  revert n k l'. induction l as [|h t IH]; intros n k l' H Hk; cbn in H; [discriminate|].
  destruct n as [|n].
  - injection H as <-. destruct k as [|k]; [congruence | reflexivity].
  - destruct (list_set t n a) as [t'|] eqn:E; [|discriminate].
    injection H as <-. destruct k as [|k]; [reflexivity|].
    cbn. eapply IH; [eassumption | congruence].
Qed.

Lemma list_set_Forall (Q : A -> Prop) (l l' : list A) (n : nat) (a : A) :
  Forall Q l -> Q a -> list_set l n a = Some l' -> Forall Q l'.
Proof.
  revert n l'. induction l as [|h t IH]; intros n l' HF Ha H; cbn in H; [discriminate|].
  inversion HF as [|? ? Hh Ht]; subst.
  destruct n as [|n].
  - injection H as <-. constructor; assumption.
  - destruct (list_set t n a) as [t'|] eqn:E; [|discriminate].
    injection H as <-. constructor; [assumption|]. eapply IH; eassumption.
Qed.

Lemma vec_at_defined (v : list A) (i : Z) :
  0 <= i < Z.of_nat (length v) -> exists a, vec_at v i = Some a.
Proof.
  intros Hi. unfold vec_at.
  destruct (i <? 0) eqn:E; [apply Z.ltb_lt in E; lia|].
  destruct (nth_error v (Z.to_nat i)) as [a|] eqn:En; [eexists; reflexivity|].
  apply nth_error_None in En. lia.
Qed.

Lemma vec_at_range (v : list A) (i : Z) (a : A) :
  vec_at v i = Some a -> 0 <= i < Z.of_nat (length v).
Proof.
  unfold vec_at. destruct (i <? 0) eqn:E; [discriminate|].
  apply Z.ltb_ge in E. intros H.
  assert (Hn : nth_error v (Z.to_nat i) <> None) by congruence.
  apply nth_error_Some in Hn. lia.
Qed.

Lemma vec_at_In (v : list A) (i : Z) (a : A) : vec_at v i = Some a -> In a v.
Proof.
  unfold vec_at. destruct (i <? 0); [discriminate|]. apply nth_error_In.
Qed.

Lemma vec_at_app_last (v : list A) (a : A) :
  vec_at (v ++ [a]) (Z.of_nat (length v)) = Some a.
Proof.
  unfold vec_at. destruct (Z.of_nat (length v) <? 0) eqn:E; [apply Z.ltb_lt in E; lia|].
  rewrite Nat2Z.id, nth_error_app2, Nat.sub_diag; [reflexivity | lia].
Qed.

Lemma vec_at_app_old (v : list A) (a : A) (i : Z) :
  i < Z.of_nat (length v) -> vec_at (v ++ [a]) i = vec_at v i.
Proof.
  intros Hi. unfold vec_at. destruct (i <? 0) eqn:E; [reflexivity|].
  apply Z.ltb_ge in E. apply nth_error_app1. lia.
Qed.

Lemma vec_set_defined (v : list A) (i : Z) (a : A) :
  0 <= i < Z.of_nat (length v) -> exists v', vec_set v i a = Some v'.
Proof.
  intros Hi. unfold vec_set.
  destruct (i <? 0) eqn:E; [apply Z.ltb_lt in E; lia|].
  apply list_set_defined. lia.
Qed.

Lemma vec_set_length (v v' : list A) (i : Z) (a : A) :
  vec_set v i a = Some v' -> length v' = length v.
Proof.
  unfold vec_set. destruct (i <? 0); [discriminate|]. apply list_set_length.
Qed.

Lemma vec_set_same (v v' : list A) (i : Z) (a : A) :
  vec_set v i a = Some v' -> vec_at v' i = Some a.
Proof.
  unfold vec_set, vec_at. destruct (i <? 0); [discriminate|]. apply list_set_same.
Qed.

Lemma vec_set_other (v v' : list A) (i k : Z) (a : A) :
  vec_set v i a = Some v' -> k <> i -> vec_at v' k = vec_at v k.
Proof.
  unfold vec_set, vec_at. destruct (i <? 0) eqn:E; [discriminate|].
  apply Z.ltb_ge in E. intros H Hk.
  destruct (k <? 0) eqn:Ek; [reflexivity|]. apply Z.ltb_ge in Ek.
  eapply list_set_other; [eassumption | lia].
Qed.

End Containers.

Section Matrices.
Context {A : Type}.

(** Writing an element of a well-formed matrix inside its bounds. *)
Lemma ptr_set_defined (chan : Z) (m : Mat A) (y k : Z) (a : A) :
  wf_Mat chan m -> 0 <= y < rows m -> 0 <= k < chan * cols m ->
  exists m', ptr_set m y k a = Some m'.
Proof.
  intros (Hr & Hc & Hlen & Hall) Hy Hk. unfold ptr_set.
  destruct (vec_at_defined (data m) y) as (row & Hrow); [lia|].
  rewrite Hrow. cbn [bind].
  assert (Hlrow : length row = Z.to_nat (chan * cols m)).
  { apply vec_at_In in Hrow. rewrite Forall_forall in Hall. auto. }
  destruct (vec_set_defined row k a) as (row' & Hrow'); [lia|].
  rewrite Hrow'. cbn [bind].
  destruct (vec_set_defined (data m) y row') as (d & Hd); [lia|].
  rewrite Hd. cbn [bind]. eexists; reflexivity.
Qed.

Lemma ptr_set_wf (chan : Z) (m m' : Mat A) (y k : Z) (a : A) :
  wf_Mat chan m -> ptr_set m y k a = Some m' ->
  wf_Mat chan m' /\ rows m' = rows m /\ cols m' = cols m.
Proof.
  intros (Hr & Hc & Hlen & Hall). unfold ptr_set.
  destruct (vec_at (data m) y) as [row|] eqn:Hrow; [|discriminate]. cbn [bind].
  destruct (vec_set row k a) as [row'|] eqn:Hrow'; [|discriminate]. cbn [bind].
  destruct (vec_set (data m) y row') as [d|] eqn:Hd; [|discriminate]. cbn [bind].
  intros H. injection H as <-. cbn [rows cols data].
  split; [|split; reflexivity].
  unfold wf_Mat. cbn [rows cols data].
  split; [exact Hr|]. split; [exact Hc|]. split.
  - rewrite (vec_set_length _ _ _ _ Hd). exact Hlen.
  - unfold vec_set in Hd. destruct (y <? 0); [discriminate|].
    eapply list_set_Forall; [exact Hall | | exact Hd].
    cbn beta. rewrite (vec_set_length _ _ _ _ Hrow').
    apply vec_at_In in Hrow. rewrite Forall_forall in Hall. auto.
Qed.

Lemma ptr_get_set_same (m m' : Mat A) (y k : Z) (a : A) :
  ptr_set m y k a = Some m' -> ptr_get m' y k = Some a.
Proof.
  unfold ptr_set, ptr_get.
  destruct (vec_at (data m) y) as [row|] eqn:Hrow; [|discriminate]. cbn [bind].
  destruct (vec_set row k a) as [row'|] eqn:Hrow'; [|discriminate]. cbn [bind].
  destruct (vec_set (data m) y row') as [d|] eqn:Hd; [|discriminate]. cbn [bind].
  intros H. injection H as <-. cbn [data].
  rewrite (vec_set_same _ _ _ _ Hd). cbn [bind].
  eapply vec_set_same; eassumption.
Qed.

Lemma ptr_get_set_other (m m' : Mat A) (y k y' k' : Z) (a : A) :
  ptr_set m y k a = Some m' -> (y', k') <> (y, k) ->
  ptr_get m' y' k' = ptr_get m y' k'.
Proof.
  unfold ptr_set, ptr_get.
  destruct (vec_at (data m) y) as [row|] eqn:Hrow; [|discriminate]. cbn [bind].
  destruct (vec_set row k a) as [row'|] eqn:Hrow'; [|discriminate]. cbn [bind].
  destruct (vec_set (data m) y row') as [d|] eqn:Hd; [|discriminate]. cbn [bind].
  intros H Hne. injection H as <-. cbn [data].
  destruct (Z.eq_dec y' y) as [->|Hy].
  - rewrite (vec_set_same _ _ _ _ Hd), Hrow. cbn [bind].
    eapply vec_set_other; [eassumption | congruence].
  - rewrite (vec_set_other _ _ _ _ _ Hd Hy). reflexivity.
Qed.

Lemma setTo_wf (chan : Z) (m : Mat A) (v : A) :
  wf_Mat chan m -> wf_Mat chan (setTo m v).
Proof.
  intros (Hr & Hc & Hlen & Hall). unfold setTo, wf_Mat. cbn [rows cols data].
  repeat split; try assumption.
  - rewrite length_map. exact Hlen.
  - rewrite Forall_map. eapply Forall_impl; [|exact Hall].
    cbn beta. intros r Hr'. rewrite length_map. exact Hr'.
Qed.

End Matrices.

(** Two nested loops that write [f y x] at every [(y, x)] of a
    one-channel matrix: afterwards every element in bounds holds it. *)
Lemma fill_loops {A : Type} (f : Z -> Z -> A) (m : Mat A) :
  wf_Mat 1 m ->
  exists m',
    for_range 0 (rows m) (fun y c =>
      for_range 0 (cols m) (fun x c' => ptr_set c' y x (f y x)) c) m = Some m' /\
    wf_Mat 1 m' /\ rows m' = rows m /\ cols m' = cols m /\
    forall y x, 0 <= y < rows m -> 0 <= x < cols m -> ptr_get m' y x = Some (f y x).
Proof.
  intros Hwf.
  pose (R := rows m). pose (C := cols m).
  assert (HR : 0 <= R) by (destruct Hwf as (H & _); exact H).
  assert (HC : 0 <= C) by (destruct Hwf as (_ & H & _); exact H).
  pose (Inv := fun (y : Z) (c : Mat A) =>
    wf_Mat 1 c /\ rows c = R /\ cols c = C /\
    forall y' x, 0 <= y' < y -> 0 <= x < C -> ptr_get c y' x = Some (f y' x)).
  destruct (for_range_invariant Inv
              (fun y c => for_range 0 C (fun x c' => ptr_set c' y x (f y x)) c)
              0 R m HR) as (m' & Hm' & Hw' & Hr' & Hc' & Hget).
  - unfold Inv. split; [exact Hwf|]. split; [reflexivity|]. split; [reflexivity|].
    intros; lia.
  - intros y c Hy (Hwc & Hrc & Hcc & Hold).
    pose (Row := fun (x : Z) (c' : Mat A) =>
      wf_Mat 1 c' /\ rows c' = R /\ cols c' = C /\
      (forall y' x', 0 <= y' < y -> 0 <= x' < C -> ptr_get c' y' x' = Some (f y' x')) /\
      forall x', 0 <= x' < x -> ptr_get c' y x' = Some (f y x')).
    destruct (for_range_invariant Row (fun x c' => ptr_set c' y x (f y x)) 0 C c HC)
      as (c1 & Hc1 & Hw1 & Hr1 & Hcol1 & Hold1 & Hrow1).
    + unfold Row. split; [exact Hwc|]. split; [exact Hrc|]. split; [exact Hcc|].
      split; [exact Hold|]. intros; lia.
    + intros x c' Hx (Hw2 & Hr2 & Hc2 & Hold2 & Hrow2).
      destruct (ptr_set_defined 1 c' y x (f y x) Hw2) as (c2 & Hc2'); [lia | lia |].
      exists c2. split; [exact Hc2'|].
      destruct (ptr_set_wf 1 c' c2 y x (f y x) Hw2 Hc2') as (Hw3 & Hr3 & Hc3).
      unfold Row. split; [exact Hw3|]. split; [congruence|]. split; [congruence|].
      split.
      * intros y' x' Hy' Hx'.
        rewrite (ptr_get_set_other _ _ _ _ y' x' _ Hc2'); [auto|].
        intros E. injection E as E1 E2. lia.
      * intros x' Hx'. destruct (Z.eq_dec x' x) as [->|Hne].
        -- eapply ptr_get_set_same; eassumption.
        -- rewrite (ptr_get_set_other _ _ _ _ y x' _ Hc2'); [apply Hrow2; lia|].
           intros E. injection E as E1. lia.
    + exists c1. split; [exact Hc1|].
      unfold Inv. split; [exact Hw1|]. split; [exact Hr1|]. split; [exact Hcol1|].
      intros y' x Hy' Hx. destruct (Z.eq_dec y' y) as [->|Hne].
      * apply Hrow1. exact Hx.
      * apply Hold1; lia.
  - exists m'. split; [exact Hm'|]. split; [exact Hw'|].
    split; [exact Hr'|]. split; [exact Hc'|].
    intros y x Hy Hx. apply Hget; assumption.
Qed.

(** *** The feathering mask *)

Section BlendMaskFacts.
Import Num BlendMask.

(** Inside the image the absolute values of lines 278-283 do nothing and
    [maxDist] is half the smaller side. *)
Lemma alpha_in_bounds (nRows nCols y x : Z) :
  0 <= y < nRows -> 0 <= x < nCols ->
  alpha nRows nCols (if nRows >? nCols then Z.quot nCols 2 else Z.quot nRows 2) y x =
  PrimFloat.div
    (i2d (Z.min (Z.min (x + 1) (nCols - x - 1)) (Z.min (y + 1) (nRows - y - 1))))
    (i2d (Z.quot (Z.min nCols nRows) 2)).
Proof.
  intros Hy Hx. unfold alpha.
  rewrite !Z.abs_eq by lia.
  replace (if nRows >? nCols then Z.quot nCols 2 else Z.quot nRows 2)
    with (Z.quot (Z.min nCols nRows) 2); [reflexivity|].
  destruct (nRows >? nCols) eqn:E.
  - apply Z.gtb_lt in E. rewrite Z.min_l by lia. reflexivity.
  - rewrite Z.gtb_ltb in E. apply Z.ltb_ge in E. rewrite Z.min_r by lia. reflexivity.
Qed.

(** C5, as amended.  For an image and a mask of the same size, the
    function returns 0 and the value at every pixel [(x, y)] is
    [min (min (x+1) (width-x-1)) (min (y+1) (height-y-1))] divided by
    [min width height / 2] (truncating division): the distances to the
    top and left edges are [y+1] and [x+1], those to the bottom and right
    edges [height-y-1] and [width-x-1]. *)
Theorem buildBlendMask_value {A : Type} (img : Mat A) (mask : Mat float) (x y : Z) :
  wf_Mat 1 mask ->
  same_size img mask = true ->
  0 <= y < rows mask ->
  0 <= x < cols mask ->
  exists mask',
    buildBlendMask img mask = Some (0, mask') /\
    ptr_get mask' y x =
      Some (PrimFloat.div
              (i2d (Z.min (Z.min (x + 1) (cols mask - x - 1))
                          (Z.min (y + 1) (rows mask - y - 1))))
              (i2d (Z.quot (Z.min (cols mask) (rows mask)) 2))).
Proof.
  intros Hwf Hsize Hy Hx. unfold buildBlendMask. rewrite Hsize. cbn [negb].
  pose (maxDist := if rows mask >? cols mask
                   then Z.quot (cols mask) 2 else Z.quot (rows mask) 2).
  destruct (fill_loops (alpha (rows mask) (cols mask) maxDist) (setTo mask 0%float)
              (setTo_wf 1 mask 0%float Hwf)) as (m' & Hm' & _ & _ & _ & Hget).
  cbn [setTo rows cols] in Hm', Hget. fold (setTo mask 0%float) in Hm'.
  fold maxDist. rewrite Hm'. cbn [bind].
  exists m'. split; [reflexivity|].
  rewrite (Hget y x Hy Hx). unfold maxDist.
  rewrite (alpha_in_bounds _ _ _ _ Hy Hx). reflexivity.
Qed.

(** The part of C6 that holds: the mask is [nearest / maxDist], and
    [nearest] does not grow when the distance to the nearest edge shrinks;
    it is 0 on the right column and on the bottom row, and 1 on the rest
    of the left column and of the top row. *)
Lemma alpha_nearest (nRows nCols maxDist y x : Z) :
  alpha nRows nCols maxDist y x =
  PrimFloat.div (i2d (nearest nRows nCols y x)) (i2d maxDist).
Proof. reflexivity. Qed.

Lemma nearest_monotone (width height x y x' y' : Z) :
  0 <= x < width -> 0 <= y < height -> 0 <= x' < width -> 0 <= y' < height ->
  edgeDist width height x y < edgeDist width height x' y' ->
  nearest height width y x <= nearest height width y' x'.
Proof. unfold edgeDist, nearest. lia. Qed.

Lemma nearest_right_bottom (width height x y : Z) :
  0 <= x < width -> 0 <= y < height ->
  x = width - 1 \/ y = height - 1 ->
  nearest height width y x = 0.
Proof. unfold nearest. lia. Qed.

Lemma nearest_left_top (width height x y : Z) :
  0 <= x < width - 1 -> 0 <= y < height - 1 ->
  x = 0 \/ y = 0 ->
  nearest height width y x = 1.
Proof. unfold nearest. lia. Qed.

End BlendMaskFacts.

(** *** The order and the zeros of binary64 *)

Section FloatFacts.
Import Num.

Lemma lexCompare_Lt (e1 : Z) (m1 : positive) (e2 : Z) (m2 : positive) :
  lexCompare e1 m1 e2 m2 = Lt <-> e1 < e2 \/ (e1 = e2 /\ (m1 < m2)%positive).
Proof.
  unfold lexCompare. fold (Pos.compare m1 m2).
  destruct (Z.compare_spec e1 e2) as [E|E|E].
  - rewrite Pos.compare_lt_iff. split; [intros H; right; split; assumption|].
    intros [H|[_ H]]; [lia | exact H].
  - split; [intros _; left; exact E | reflexivity].
  - split; [discriminate|]. intros [H|[H _]]; lia.
Qed.

Lemma lexCompare_Gt (e1 : Z) (m1 : positive) (e2 : Z) (m2 : positive) :
  lexCompare e1 m1 e2 m2 = Gt <-> e2 < e1 \/ (e1 = e2 /\ (m2 < m1)%positive).
Proof.
  unfold lexCompare. fold (Pos.compare m1 m2).
  destruct (Z.compare_spec e1 e2) as [E|E|E].
  - rewrite Pos.compare_gt_iff. split; [intros H; right; split; assumption|].
    intros [H|[_ H]]; [lia | exact H].
  - split; [discriminate|]. intros [H|[H _]]; lia.
  - split; [intros _; left; exact E | reflexivity].
Qed.

Lemma SFcompare_finite (s1 : bool) (m1 : positive) (e1 : Z)
  (s2 : bool) (m2 : positive) (e2 : Z) :
  SFcompare (S754_finite s1 m1 e1) (S754_finite s2 m2 e2) =
  Some match s1, s2 with
       | true, false => Lt
       | false, true => Gt
       | false, false => lexCompare e1 m1 e2 m2
       | true, true =>
           match lexCompare e1 m1 e2 m2 with Lt => Gt | Gt => Lt | Eq => Eq end
       end.
Proof.
  unfold lexCompare. cbn [SFcompare].
  destruct s1, s2; try reflexivity.
  destruct (Z.compare e1 e2); reflexivity.
Qed.

Lemma SFltb_finite (s1 : bool) (m1 : positive) (e1 : Z)
  (s2 : bool) (m2 : positive) (e2 : Z) :
  SFltb (S754_finite s1 m1 e1) (S754_finite s2 m2 e2) = true <->
  match s1, s2 with
  | true, false => True
  | false, true => False
  | false, false => e1 < e2 \/ (e1 = e2 /\ Z.pos m1 < Z.pos m2)
  | true, true => e2 < e1 \/ (e1 = e2 /\ Z.pos m2 < Z.pos m1)
  end.
Proof.
  unfold SFltb. rewrite SFcompare_finite.
  change (Z.pos m1 < Z.pos m2) with (m1 < m2)%positive.
  change (Z.pos m2 < Z.pos m1) with (m2 < m1)%positive.
  destruct s1, s2.
  - rewrite <- lexCompare_Gt. destruct (lexCompare e1 m1 e2 m2); split; congruence.
  - split; [intros _; exact I | reflexivity].
  - split; [discriminate | intros []].
  - rewrite <- lexCompare_Lt. destruct (lexCompare e1 m1 e2 m2); split; congruence.
Qed.

Lemma SFltb_trans (a b c : spec_float) :
  SFltb a b = true -> SFltb b c = true -> SFltb a c = true.
Proof.
  intros H1 H2.
  destruct a as [sa|sa| |sa ma ea], b as [sb|sb| |sb mb eb], c as [sc|sc| |sc mc ec];
    repeat match goal with
           | H : SFltb (S754_finite _ _ _) (S754_finite _ _ _) = true |- _ =>
               apply SFltb_finite in H
           end;
    try apply SFltb_finite;
    repeat match goal with s : bool |- _ => destruct s end;
    try discriminate; try contradiction; try reflexivity; try exact I; lia.
Qed.

Lemma SFltb_irrefl (a : spec_float) : SFltb a a = false.
Proof.
  destruct a as [s|s| |s m e]; try (destruct s; reflexivity); try reflexivity.
  destruct (SFltb (S754_finite s m e) (S754_finite s m e)) eqn:E; [|reflexivity].
  apply SFltb_finite in E. destruct s; lia.
Qed.

(** Below [b] means below [c] or [c] below [b], for a [c] that is a
    number. *)
Lemma SFltb_cotrans (a b c : spec_float) :
  c <> S754_nan -> SFltb a b = true -> SFltb a c = true \/ SFltb c b = true.
Proof.
  intros Hc H.
  destruct a as [sa|sa| |sa ma ea], b as [sb|sb| |sb mb eb], c as [sc|sc| |sc mc ec];
    try congruence;
    repeat match goal with
           | H : SFltb (S754_finite _ _ _) (S754_finite _ _ _) = true |- _ =>
               apply SFltb_finite in H
           end;
    rewrite ?SFltb_finite;
    repeat match goal with s : bool |- _ => destruct s end;
    try discriminate; try contradiction;
    try (left; reflexivity); try (right; reflexivity);
    try (left; exact I); try (right; exact I); lia.
Qed.

(** [<] on [double]s is transitive and irreflexive (NaN is below and
    above nothing). *)
Lemma ltb_trans (x y z : float) :
  PrimFloat.ltb x y = true -> PrimFloat.ltb y z = true -> PrimFloat.ltb x z = true.
Proof. rewrite !FloatAxioms.ltb_spec. apply SFltb_trans. Qed.

Lemma ltb_irrefl (x : float) : PrimFloat.ltb x x = false.
Proof. rewrite FloatAxioms.ltb_spec. apply SFltb_irrefl. Qed.

Lemma ltb_cotrans (x y z : float) :
  Prim2SF z <> S754_nan -> PrimFloat.ltb x y = true ->
  PrimFloat.ltb x z = true \/ PrimFloat.ltb z y = true.
Proof. rewrite !FloatAxioms.ltb_spec. apply SFltb_cotrans. Qed.

Lemma ltb_left_not_nan (x y : float) :
  PrimFloat.ltb x y = true -> Prim2SF x <> S754_nan.
Proof.
  rewrite FloatAxioms.ltb_spec. intros H E. rewrite E in H. discriminate.
Qed.

(** Two floats with one specification are one float. *)
Lemma Prim2SF_eq (x y : float) : Prim2SF x = Prim2SF y -> x = y.
Proof.
  intros H. rewrite <- (SF2Prim_Prim2SF x), <- (SF2Prim_Prim2SF y), H. reflexivity.
Qed.

(** The conversion of an integer never yields the negative zero. *)
Lemma of_uint63_not_negzero (n : int) : Prim2SF (PrimFloat.of_uint63 n) <> S754_zero true.
Proof.
  rewrite FloatAxioms.of_uint63_spec. unfold binary_normalize.
  destruct (Uint63.to_Z n) as [|p|p] eqn:E.
  - discriminate.
  - unfold binary_round.
    destruct (shl_align p 0 (fexp prec emax (Z.pos (digits2_pos p) + 0))) as (mz, ez).
    unfold binary_round_aux.
    destruct (shr_fexp prec emax (Z.pos mz) ez loc_Exact) as (mrs', e').
    destruct (shr_fexp prec emax
                (round_nearest_even (shr_m mrs') (loc_of_shr_record mrs')) e' loc_Exact)
      as (mrs'', e'').
    destruct (shr_m mrs''); [discriminate | | discriminate].
    destruct (e'' <=? emax - prec); discriminate.
  - pose proof (Uint63.to_Z_bounded n) as B. lia.
Qed.

Lemma i2d_not_negzero (z : Z) : Prim2SF (i2d z) <> S754_zero true.
Proof.
  unfold i2d. destruct (z <? 0).
  - rewrite FloatAxioms.sub_spec.
    pose proof (of_uint63_not_negzero (Uint63.of_Z (- z))) as H.
    change (Prim2SF 0%float) with (S754_zero false).
    destruct (Prim2SF (PrimFloat.of_uint63 (Uint63.of_Z (- z)))) as [s|s| |s m e];
      cbn; try discriminate.
    + destruct s; discriminate.
  - apply of_uint63_not_negzero.
Qed.

(** [0 + t + h] is [t + h] unless [h] is the negative zero: the [0] is
    the entry of the identity matrix that line 589 adds to. *)
Lemma add_zero_then (t h : float) :
  Prim2SF h <> S754_zero true ->
  PrimFloat.add (PrimFloat.add 0%float t) h = PrimFloat.add t h.
Proof.
  intros Hh. apply Prim2SF_eq. rewrite !FloatAxioms.add_spec.
  change (Prim2SF 0%float) with (S754_zero false).
  destruct (Prim2SF t) as [st|st| |st mt et]; try reflexivity.
  destruct st; [|reflexivity].
  destruct (Prim2SF h) as [sh|sh| |sh mh eh]; try reflexivity.
  destruct sh; [congruence | reflexivity].
Qed.


End FloatFacts.

(** *** The trimming of matches *)

(** A loop that reads [v[i]] for every index of [v] is a fold over [v]. *)
Lemma forM_vec_fold {A S : Type} (g : A -> S -> S) (l2 : list A) :
  forall (l1 : list A) (s : S),
    forM (length l2) (Z.of_nat (length l1))
      (fun i acc => do m <- vec_at (l1 ++ l2) i; Some (g m acc)) s =
    Some (fold_left (fun acc m => g m acc) l2 s).
Proof.
  induction l2 as [|a l2 IH]; intros l1 s; [reflexivity|].
  cbn [length forM].
  assert (H : vec_at (l1 ++ a :: l2) (Z.of_nat (length l1)) = Some a).
  { unfold vec_at.
    destruct (Z.of_nat (length l1) <? 0) eqn:E; [apply Z.ltb_lt in E; lia|].
    rewrite Nat2Z.id, nth_error_app2, Nat.sub_diag by lia. reflexivity. }
  rewrite H. cbn [bind fold_left].
  specialize (IH (l1 ++ [a]) (g a s)).
  rewrite length_app, <- app_assoc in IH. cbn [length app] in IH.
  replace (Z.of_nat (length l1) + 1) with (Z.of_nat (length l1 + 1)) by lia.
  exact IH.
Qed.

Lemma for_range_vec_fold {A S : Type} (g : A -> S -> S) (l : list A) (s : S) :
  for_range 0 (Z.of_nat (length l))
    (fun i acc => do m <- vec_at l i; Some (g m acc)) s =
  Some (fold_left (fun acc m => g m acc) l s).
Proof.
  unfold for_range. rewrite Z.sub_0_r, Nat2Z.id.
  exact (forM_vec_fold g l [] s).
Qed.

Section FeatureFacts.
Import Features.

Lemma findMinDist_fold (approxMatches : list DMatch) :
  findMinDist (Z.of_nat (length approxMatches)) approxMatches =
  Some (fold_left (fun acc m => minStep m acc) approxMatches 100%float).
Proof. unfold findMinDist. apply (for_range_vec_fold minStep). Qed.

Lemma keep_fold (p : DMatch -> bool) (l : list DMatch) :
  forall acc,
    fold_left (fun ms m => if p m then ms ++ [m] else ms) l acc = acc ++ filter p l.
Proof.
  induction l as [|a l IH]; intros acc; cbn [fold_left filter].
  - rewrite app_nil_r. reflexivity.
  - rewrite IH. destruct (p a); [rewrite <- app_assoc|]; reflexivity.
Qed.

Lemma keepGood_filter (approxMatches : list DMatch) (minDist : float) :
  keepGood (Z.of_nat (length approxMatches)) approxMatches minDist [] =
  Some (belowThrice minDist approxMatches).
Proof.
  unfold keepGood, belowThrice.
  rewrite (for_range_vec_fold
             (fun m ms => if PrimFloat.ltb (distance m) (PrimFloat.mul 3%float minDist)
                          then ms ++ [m] else ms)).
  rewrite keep_fold. reflexivity.
Qed.

(** The running minimum from a start [a] that is a number: it is [a] or
    a distance of the list, it is a number, and neither [a] nor any
    distance is below it. *)
Lemma runningMin_least (l : list DMatch) :
  forall a : float,
    Prim2SF a <> S754_nan ->
    let r := fold_left (fun acc m => minStep m acc) l a in
    Prim2SF r <> S754_nan /\
    (r = a \/ In r (map distance l)) /\
    PrimFloat.ltb a r = false /\
    forall m, In m l -> PrimFloat.ltb (distance m) r = false.
Proof.
  induction l as [|d l IH]; intros a Ha; cbn zeta; cbn [fold_left map].
  - split; [exact Ha|]. split; [left; reflexivity|].
    split; [apply ltb_irrefl|]. intros m [].
  - assert (Ha' : Prim2SF (minStep d a) <> S754_nan).
    { unfold minStep. cbn zeta. destruct (PrimFloat.ltb (distance d) a) eqn:E; [|exact Ha].
      eapply ltb_left_not_nan; exact E. }
    destruct (IH (minStep d a) Ha') as (Hr & Hin & Hle & Hall).
    set (r := fold_left (fun acc m => minStep m acc) l (minStep d a)) in *.
    split; [exact Hr|]. split; [|split].
    + destruct Hin as [Hin|Hin]; [|right; right; exact Hin].
      rewrite Hin. unfold minStep. cbn zeta. destruct (PrimFloat.ltb (distance d) a).
      * right. left. reflexivity.
      * left. reflexivity.
    + unfold minStep in Hle. cbn zeta in Hle.
      destruct (PrimFloat.ltb (distance d) a) eqn:E; [|exact Hle].
      destruct (PrimFloat.ltb a r) eqn:Er; [|reflexivity].
      rewrite (ltb_trans _ _ _ E Er) in Hle. discriminate.
    + intros m [<-|Hm]; [|apply Hall; exact Hm].
      unfold minStep in Hle. cbn zeta in Hle.
      destruct (PrimFloat.ltb (distance d) a) eqn:E; [exact Hle|].
      destruct (PrimFloat.ltb (distance d) r) eqn:Er; [|reflexivity].
      destruct (ltb_cotrans _ _ a Ha Er) as [H|H]; congruence.
Qed.

(** What the trimming computes.  When the matcher returns one candidate
    for each of the [descriptors1.rows] query descriptors, the retained
    matches are exactly, and in order, the candidates whose distance is
    strictly less than [3 * minDist], where [minDist] is the least of the
    constant 100 and the distances of all candidates. *)
Theorem trimMatches_below_thrice_capped_min (approxMatches : list DMatch) :
  exists minDist,
    findMinDist (Z.of_nat (length approxMatches)) approxMatches = Some minDist /\
    isCappedMinDistance approxMatches minDist /\
    trimMatches (Z.of_nat (length approxMatches)) approxMatches =
      Some (belowThrice minDist approxMatches).
Proof.
  exists (fold_left (fun acc m => minStep m acc) approxMatches 100%float).
  split; [apply findMinDist_fold|]. split.
  - assert (H100 : Prim2SF 100%float <> S754_nan) by (vm_compute; discriminate).
    destruct (runningMin_least approxMatches 100%float H100) as (_ & Hin & Hle & Hall).
    unfold isCappedMinDistance. auto.
  - unfold trimMatches. rewrite findMinDist_fold. cbn [bind].
    apply keepGood_filter.
Qed.

End FeatureFacts.

(** *** The consensus search *)

Section EstimatorFacts.
Import Num Estimator.
Variable R : Rng.
Variable ms : list DMatch.
Variables k1 k2 : list KeyPoint.

(** The loop of trials draws its reference pairs one by one: it is the
    search over the sequence of draws. *)
Lemma forM_trial_draws :
  forall (count : nat) (i : Z) (s : Search) (g : rng_state R),
    forM count i (trial R ms k1 k2) (s, g) =
    match searchOver ms k1 k2 (draws R count (Z.of_nat (length ms)) g) s with
    | Some s' => Some (s', drawsEnd R count g)
    | None => None
    end.
Proof.
  induction count as [|count IH]; intros i s g; [reflexivity|].
  cbn [forM draws searchOver drawsEnd]. unfold trial at 1. cbn [fst snd].
  destruct (trialWith ms k1 k2 (Z.rem (fst (rand R g)) (Z.of_nat (length ms))) s)
    as [s'|]; cbn [bind]; [apply IH | reflexivity].
Qed.

Lemma search_over_sequence (g : rng_state R) :
  search R g ms k1 k2 =
  match searchOver ms k1 k2 (hypothesisSequence R g (Z.of_nat (length ms))) search0 with
  | Some s' => Some (s', drawsEnd R (length ms) (srand R 0 g))
  | None => None
  end.
Proof.
  unfold search, for_range, hypothesisSequence.
  rewrite Z.sub_0_r, Nat2Z.id. apply forM_trial_draws.
Qed.

(** [srand(0)] wipes the state the call found. *)
Lemma search_reseeded (g1 g2 : rng_state R) :
  search R g1 ms k1 k2 = search R g2 ms k1 k2.
Proof. unfold search. rewrite (srand_reseeds R 0 g1 g2). reflexivity. Qed.

Lemma estimateTranslation_reseeded (g1 g2 : rng_state R) :
  estimateTranslation R g1 ms k1 k2 = estimateTranslation R g2 ms k1 k2.
Proof. unfold estimateTranslation. rewrite (search_reseeded g1 g2). reflexivity. Qed.

Lemma draws_in_range (count : nat) (nMatches : Z) :
  0 < nMatches ->
  forall g, Forall (fun f => 0 <= f < nMatches) (draws R count nMatches g).
Proof.
  intros Hn. induction count as [|count IH]; intros g; cbn [draws]; constructor.
  - apply Z.rem_bound_pos; [apply rand_nonneg | exact Hn].
  - apply IH.
Qed.

Hypothesis Hvalid : validMatches ms k1 k2.

Lemma translationOf_defined (j : Z) :
  0 <= j < Z.of_nat (length ms) -> exists e, translationOf ms k1 k2 j = Some e.
Proof.
  intros Hj. unfold translationOf.
  destruct (vec_at_defined ms j Hj) as (m & Hm). rewrite Hm. cbn [bind].
  destruct (Hvalid m (vec_at_In _ _ _ Hm)) as (Hq & Ht).
  destruct (vec_at_defined k1 (queryIdx m) Hq) as (a & Ha). rewrite Ha. cbn [bind].
  destruct (vec_at_defined k2 (trainIdx m) Ht) as (b & Hb). rewrite Hb. cbn [bind].
  eexists; reflexivity.
Qed.

Lemma countConcensus_defined (featureNumber : Z) (xT yT : float) :
  exists q, countConcensus ms k1 k2 featureNumber xT yT = Some q.
Proof.
  unfold countConcensus.
  destruct (for_range_invariant (fun _ _ => True)
              (checkFeature ms k1 k2 featureNumber xT yT)
              0 (Z.of_nat (length ms)) (mkQuality 0 0 0)) as (q & Hq & _).
  - lia.
  - exact I.
  - intros j q Hj _. unfold checkFeature.
    destruct (j =? featureNumber); [eexists; split; [reflexivity | exact I]|].
    destruct (translationOf_defined j Hj) as (e & He). rewrite He. cbn [bind].
    eexists; split; [reflexivity | exact I].
  - exists q. exact Hq.
Qed.

Hypothesis Hconv : convertible ms k1 k2.

(** A trial on a valid reference pair is defined and leaves the
    translation of that pair in [xTrans], [yTrans]. *)
Lemma trialWith_defined (featureNumber : Z) (s : Search) :
  0 <= featureNumber < Z.of_nat (length ms) ->
  exists s', trialWith ms k1 k2 featureNumber s = Some s' /\
             translationOf ms k1 k2 featureNumber = Some (xTrans s', yTrans s').
Proof.
  intros Hf. unfold trialWith.
  destruct (translationOf_defined featureNumber Hf) as ((xT, yT) & He).
  rewrite He. cbn [bind fst snd].
  destruct (countConcensus_defined featureNumber xT yT) as (q & Hq).
  rewrite Hq. cbn [bind].
  destruct (concensus q >? maxConcensus s).
  - destruct (Hconv featureNumber (xT, yT) He) as ((a & Ha) & (b & Hb)).
    cbn [fst snd] in Ha, Hb. rewrite Ha, Hb. cbn [bind].
    eexists; split; reflexivity.
  - eexists; split; reflexivity.
Qed.

(** The search over valid reference pairs is defined; after it
    [xTrans], [yTrans] hold the translation of the last pair. *)
Lemma searchOver_defined (features : list Z) :
  Forall (fun f => 0 <= f < Z.of_nat (length ms)) features ->
  forall s,
    exists s', searchOver ms k1 k2 features s = Some s' /\
      (features = [] -> s' = s) /\
      (features <> [] ->
       translationOf ms k1 k2 (last features 0) = Some (xTrans s', yTrans s')).
Proof.
  induction 1 as [|f rest Hf Hrest IH]; intros s.
  - exists s. split; [reflexivity|]. split; [reflexivity | congruence].
  - cbn [searchOver].
    destruct (trialWith_defined f s Hf) as (s1 & Hs1 & Ht1). rewrite Hs1.
    destruct (IH s1) as (s' & Hs' & Hnil & Hlast).
    exists s'. split; [exact Hs'|]. split; [discriminate|]. intros _.
    destruct rest as [|f' rest'].
    + rewrite (Hnil eq_refl). exact Ht1.
    + change (last (f :: f' :: rest') 0) with (last (f' :: rest') 0).
      apply Hlast. discriminate.
Qed.

(** The loop of trials is defined on valid inputs. *)
Lemma search_defined (g : rng_state R) :
  exists s g', search R g ms k1 k2 = Some (s, g') /\
    searchOver ms k1 k2 (hypothesisSequence R g (Z.of_nat (length ms))) search0 = Some s /\
    (ms = [] -> s = search0) /\
    (ms <> [] ->
     translationOf ms k1 k2 (last (hypothesisSequence R g (Z.of_nat (length ms))) 0)
       = Some (xTrans s, yTrans s)).
Proof.
  rewrite search_over_sequence.
  destruct (Nat.eq_dec (length ms) 0) as [E|E].
  - unfold hypothesisSequence. rewrite E.
    cbn [Z.of_nat Z.to_nat draws searchOver drawsEnd].
    exists search0, (srand R 0 g).
    split; [reflexivity|]. split; [reflexivity|]. split; [reflexivity|].
    intros Hne. apply length_zero_iff_nil in E. contradiction.
  - assert (Hn : 0 < Z.of_nat (length ms)) by lia.
    destruct (searchOver_defined (hypothesisSequence R g (Z.of_nat (length ms)))
                (draws_in_range _ _ Hn _) search0) as (s & Hs & _ & Hlast).
    rewrite Hs. exists s, (drawsEnd R (length ms) (srand R 0 g)).
    split; [reflexivity|]. split; [reflexivity|]. split.
    + intros Hnil. rewrite Hnil in E. cbn [length] in E. congruence.
    + intros _. apply Hlast.
      unfold hypothesisSequence. rewrite Nat2Z.id.
      destruct (length ms); [congruence | cbn [draws]; discriminate].
Qed.

End EstimatorFacts.

(** Lines 471-472 on a 3x3 matrix. *)
Lemma write_translation (H : Mat float) (a b : float) :
  wf_Mat 1 H -> rows H = 3 -> cols H = 3 ->
  exists h1 h2,
    ptr_set H 0 2 a = Some h1 /\ ptr_set h1 1 2 b = Some h2 /\
    ptr_get h2 0 2 = Some a /\ ptr_get h2 1 2 = Some b /\
    (forall r c, (r, c) <> (0, 2) -> (r, c) <> (1, 2) -> ptr_get h2 r c = ptr_get H r c).
Proof.
  intros Hwf Hr Hc.
  destruct (ptr_set_defined 1 H 0 2 a Hwf) as (h1 & Hh1); [lia | lia |].
  destruct (ptr_set_wf 1 H h1 0 2 a Hwf Hh1) as (Hwf1 & Hr1 & Hc1).
  destruct (ptr_set_defined 1 h1 1 2 b Hwf1) as (h2 & Hh2); [lia | lia |].
  exists h1, h2. split; [exact Hh1|]. split; [exact Hh2|]. split; [|split].
  - rewrite (ptr_get_set_other _ _ _ _ 0 2 _ Hh2) by congruence.
    eapply ptr_get_set_same; exact Hh1.
  - eapply ptr_get_set_same; exact Hh2.
  - intros r c H1 H2.
    rewrite (ptr_get_set_other _ _ _ _ r c _ Hh2) by exact H2.
    apply (ptr_get_set_other _ _ _ _ r c _ Hh1). exact H1.
Qed.

Section EstimatorClaims.
Import Num Estimator.

(** C7, as amended.  On valid matches, after all trials: if the best x
    (resp. y) component, an [int], is 0, the x (resp. y) component that is
    returned is the x (resp. y) component of the translation of the last
    trial's reference pair truncated toward zero to an [int]; otherwise it
    is the best value, unchanged.  With no match at all the last
    translation is the initial (0, 0). *)
Theorem estimateHomography_fallback_truncates
  (R : Rng) (g : rng_state R) (ms : list DMatch) (k1 k2 : list KeyPoint)
  (H : Mat float) :
  validMatches ms k1 k2 ->
  convertible ms k1 k2 ->
  wf_Mat 1 H -> rows H = 3 -> cols H = 3 ->
  exists s g' lastX lastY H',
    search R g ms k1 k2 = Some (s, g') /\
    (ms = [] -> xTrans s = 0%float /\ yTrans s = 0%float) /\
    (ms <> [] ->
     translationOf ms k1 k2 (last (hypothesisSequence R g (Z.of_nat (length ms))) 0)
       = Some (xTrans s, yTrans s)) /\
    d2i (xTrans s) = Some lastX /\
    d2i (yTrans s) = Some lastY /\
    estimateHomography R g ms k1 k2 H = Some (0, H', g') /\
    ptr_get H' 0 2 = Some (i2d (if bestX s =? 0 then lastX else bestX s)) /\
    ptr_get H' 1 2 = Some (i2d (if bestY s =? 0 then lastY else bestY s)).
Proof.
  intros Hvalid Hconv Hwf Hr Hc.
  destruct (search_defined R ms k1 k2 Hvalid Hconv g) as (s & g' & Hs & _ & Hnil & Hlast).
  assert (Hd : exists lastX lastY,
             d2i (xTrans s) = Some lastX /\ d2i (yTrans s) = Some lastY).
  { destruct ms as [|m0 ms'] eqn:Ems.
    - rewrite (Hnil eq_refl). exists 0, 0. split; reflexivity.
    - destruct (Hconv _ _ (Hlast ltac:(discriminate))) as ((a & Ha) & (b & Hb)).
      exists a, b. split; assumption. }
  destruct Hd as (lastX & lastY & HX & HY).
  destruct (write_translation H
              (i2d (if bestX s =? 0 then lastX else bestX s))
              (i2d (if bestY s =? 0 then lastY else bestY s)) Hwf Hr Hc)
    as (h1 & h2 & Hh1 & Hh2 & Hg1 & Hg2 & _).
  exists s, g', lastX, lastY, h2.
  split; [exact Hs|]. split.
  { intros E. rewrite (Hnil E). split; reflexivity. }
  split; [exact Hlast|]. split; [exact HX|]. split; [exact HY|]. split.
  - unfold estimateHomography, estimateTranslation, fallback.
    rewrite Hs. cbn [bind fst snd]. rewrite HX, HY.
    destruct (bestX s =? 0), (bestY s =? 0); cbn [bind fst snd];
      rewrite Hh1; cbn [bind]; rewrite Hh2; reflexivity.
  - split; assumption.
Qed.

(** C2, as amended.  Called with zero matches, [estimateHomography]
    signals no error: it returns the status 0 and writes the translation
    (0, 0); and whatever the matches, the status of a call that returns is
    0, so that [N >= 1] is not required for a non-error result. *)
Theorem estimateHomography_no_matches_succeeds
  (R : Rng) (g : rng_state R) (k1 k2 : list KeyPoint) (H : Mat float) :
  wf_Mat 1 H -> rows H = 3 -> cols H = 3 ->
  (exists H',
     estimateHomography R g [] k1 k2 H = Some (0, H', srand R 0 g) /\
     ptr_get H' 0 2 = Some 0%float /\ ptr_get H' 1 2 = Some 0%float) /\
  (forall ms status H' g',
     estimateHomography R g ms k1 k2 H = Some (status, H', g') -> status = 0).
Proof.
  intros Hwf Hr Hc. split.
  - destruct (write_translation H (i2d 0) (i2d 0) Hwf Hr Hc)
      as (h1 & h2 & Hh1 & Hh2 & Hg1 & Hg2 & _).
    exists h2. split; [|split; assumption].
    unfold estimateHomography.
    change (estimateTranslation R g [] k1 k2) with (Some (0, 0, srand R 0 g)).
    cbn [bind fst snd]. rewrite Hh1. cbn [bind]. rewrite Hh2. reflexivity.
  - intros ms status H' g'. unfold estimateHomography.
    destruct (estimateTranslation R g ms k1 k2) as [t|]; [|discriminate]. cbn [bind].
    destruct (ptr_set H 0 2 (i2d (fst (fst t)))) as [h1|]; [|discriminate]. cbn [bind].
    destruct (ptr_set h1 1 2 (i2d (snd (fst t)))) as [h2|]; [|discriminate]. cbn [bind].
    intros E. injection E as <- _ _. reflexivity.
Qed.

(** C10.  A call wipes the generator it finds: whatever state [srand(0)]
    overwrites, two calls on the same matches and keypoints draw the same
    sequence of reference pairs, their trials are the search over that
    sequence, and they end with the same [(bestX, bestY)], written into
    the same matrix, and the same generator. *)
Theorem estimateHomography_deterministic
  (R : Rng) (g1 g2 : rng_state R) (ms : list DMatch) (k1 k2 : list KeyPoint)
  (H : Mat float) :
  hypothesisSequence R g1 (Z.of_nat (length ms)) =
    hypothesisSequence R g2 (Z.of_nat (length ms)) /\
  option_map fst (search R g1 ms k1 k2) =
    searchOver ms k1 k2 (hypothesisSequence R g1 (Z.of_nat (length ms))) search0 /\
  estimateTranslation R g1 ms k1 k2 = estimateTranslation R g2 ms k1 k2 /\
  estimateHomography R g1 ms k1 k2 H = estimateHomography R g2 ms k1 k2 H.
Proof.
  split; [|split; [|split]].
  - unfold hypothesisSequence. rewrite (srand_reseeds R 0 g1 g2). reflexivity.
  - rewrite search_over_sequence.
    destruct (searchOver ms k1 k2 (hypothesisSequence R g1 (Z.of_nat (length ms))) search0);
      reflexivity.
  - apply estimateTranslation_reseeded.
  - unfold estimateHomography. rewrite (estimateTranslation_reseeded R ms k1 k2 g1 g2).
    reflexivity.
Qed.

End EstimatorClaims.

(** *** The chain of transforms *)

Section AssemblerFacts.
Import Num Estimator Assembler.
Variable R : Rng.


Lemma estimateHomography_Id3 (g g' : rng_state R) (ms : list DMatch)
  (k1 k2 : list KeyPoint) (bX bY : Z) :
  estimateTranslation R g ms k1 k2 = Some (bX, bY, g') ->
  estimateHomography R g ms k1 k2 Id3 = Some (0, translationMat (i2d bX) (i2d bY), g').
Proof. intros E. unfold estimateHomography. rewrite E. reflexivity. Qed.

(** One turn of the loop appends the translation by the sum of the
    previous translation and the pairwise one. *)
Lemma stitchStep_appends (detect : Z -> Detected) (i : Z) (Ts : list (Mat float))
  (g : rng_state R) (prev : Mat float) (tx ty : float) (b : Z * Z) :
  pairwiseTranslation R g (detect i) = Some b ->
  vec_at Ts (i - 1) = Some prev ->
  ptr_get prev 0 2 = Some tx ->
  ptr_get prev 1 2 = Some ty ->
  exists g',
    stitchStep R detect i (Ts, g) =
    Some (Ts ++ [translationMat (PrimFloat.add tx (i2d (fst b)))
                                (PrimFloat.add ty (i2d (snd b)))], g').
Proof.
  unfold pairwiseTranslation, stitchStep. cbn [fst snd].
  destruct (getFeatures (detect i)) as [f|]; [|discriminate]. cbn [bind].
  destruct (estimateTranslation R g (matches (snd f)) (keypoints1 (snd f))
              (keypoints2 (snd f))) as [[[bX bY] g']|] eqn:E; [|discriminate].
  cbn [bind fst snd]. intros Hb Hprev Hx Hy. injection Hb as <-.
  rewrite (estimateHomography_Id3 _ _ _ _ _ _ _ E). cbn [bind fst snd].
  rewrite Hprev. cbn [bind]. rewrite Hx. cbn [bind].
  change (addAt Id3 0 2 tx)
    with (Some (translationMat (PrimFloat.add 0%float tx) 0%float)).
  cbn [bind]. rewrite Hy. cbn [bind].
  change (addAt (translationMat (PrimFloat.add 0%float tx) 0%float) 1 2 ty)
    with (Some (translationMat (PrimFloat.add 0%float tx) (PrimFloat.add 0%float ty))).
  cbn [bind].
  change (ptr_get (translationMat (i2d bX) (i2d bY)) 0 2) with (Some (i2d bX)).
  change (ptr_get (translationMat (i2d bX) (i2d bY)) 1 2) with (Some (i2d bY)).
  cbn [bind].
  exists g'. unfold addAt.
  change (ptr_get (translationMat (PrimFloat.add 0%float tx) (PrimFloat.add 0%float ty)) 0 2)
    with (Some (PrimFloat.add 0%float tx)).
  cbn [bind].
  change (ptr_set (translationMat (PrimFloat.add 0%float tx) (PrimFloat.add 0%float ty)) 0 2
            (PrimFloat.add (PrimFloat.add 0%float tx) (i2d bX)))
    with (Some (translationMat (PrimFloat.add (PrimFloat.add 0%float tx) (i2d bX))
                               (PrimFloat.add 0%float ty))).
  cbn [bind].
  change (ptr_get (translationMat (PrimFloat.add (PrimFloat.add 0%float tx) (i2d bX))
                                  (PrimFloat.add 0%float ty)) 1 2)
    with (Some (PrimFloat.add 0%float ty)).
  cbn [bind].
  change (ptr_set (translationMat (PrimFloat.add (PrimFloat.add 0%float tx) (i2d bX))
                                  (PrimFloat.add 0%float ty)) 1 2
            (PrimFloat.add (PrimFloat.add 0%float ty) (i2d bY)))
    with (Some (translationMat (PrimFloat.add (PrimFloat.add 0%float tx) (i2d bX))
                               (PrimFloat.add (PrimFloat.add 0%float ty) (i2d bY)))).
  cbn [bind].
  rewrite (add_zero_then tx (i2d bX) (i2d_not_negzero bX)).
  rewrite (add_zero_then ty (i2d bY) (i2d_not_negzero bY)).
  reflexivity.
Qed.





End AssemblerFacts.

Section AssemblerClaims.
Import Num Estimator Assembler.


End AssemblerClaims.

(** *** The claims on concrete inputs *)

Section ConcreteRuns.
Import Num BlendMask Features Estimator Compositor Assembler Examples.

(** The conversions on a few values: [(double) z] is exact, [(int) x]
    and [(uchar) x] truncate toward zero and are undefined outside the
    range of the type and on NaN. *)
Lemma conversions_on_values :
  i2d 7 = 7%float /\ i2d (-5) = (-5)%float /\ i2d 0 = 0%float /\
  d2i 2.5%float = Some 2 /\ d2i (-2.5)%float = Some (-2) /\
  d2i 4294967296%float = None /\ d2i nan = None /\ d2i infinity = None /\
  d2uc 255.5%float = Some 255 /\ d2uc 256%float = None /\ d2uc nan = None.
Proof. repeat split; vm_compute; reflexivity. Qed.

(** C5 fails as stated: at the pixel (x, y) = (3, 1) of a 4x4 mask the
    function writes 0, the distance to the right edge being
    [4 - 3 - 1 = 0], where the formula of the specification, with the
    distance [4 - 3 = 1], gives 0.5. *)
Lemma buildBlendMask_differs_from_spec_formula :
  (do r <- buildBlendMask img44 mask44; ptr_get (snd r) 1 3) = Some 0%float /\
  specMaskValue 4 4 3 1 = 0.5%float /\
  PrimFloat.eqb 0%float 0.5%float = false.
Proof. repeat split; vm_compute; reflexivity. Qed.

(** The amended C5 at the pixel (3, 1) of the 4x4 mask. *)
Lemma buildBlendMask_value_witness :
  exists mask',
    buildBlendMask img44 mask44 = Some (0, mask') /\
    ptr_get mask' 1 3 =
      Some (PrimFloat.div
              (i2d (Z.min (Z.min (3 + 1) (cols mask44 - 3 - 1))
                          (Z.min (1 + 1) (rows mask44 - 1 - 1))))
              (i2d (Z.quot (Z.min (cols mask44) (rows mask44)) 2))).
Proof.
  apply (buildBlendMask_value img44 mask44 3 1).
  - unfold wf_Mat, mask44, zeros. cbn.
    split; [lia|]. split; [lia|]. split; [reflexivity|]. repeat constructor.
  - reflexivity.
  - cbn. lia.
  - cbn. lia.
Defined.

(** C6 at the border of a 4x4 mask: the pixels of the left column and of
    the top row hold [1 / maxDist = 0.5], not 0; those of the right column
    and of the bottom row hold 0. *)
Lemma buildBlendMask_left_top_border_not_zero :
  (do r <- buildBlendMask img44 mask44; ptr_get (snd r) 1 0) = Some 0.5%float /\
  (do r <- buildBlendMask img44 mask44; ptr_get (snd r) 0 1) = Some 0.5%float /\
  (do r <- buildBlendMask img44 mask44; ptr_get (snd r) 1 3) = Some 0%float /\
  (do r <- buildBlendMask img44 mask44; ptr_get (snd r) 3 1) = Some 0%float.
Proof. repeat split; vm_compute; reflexivity. Qed.

(** C1 on four matches no two of which agree on both axes: whichever
    of them is the reference pair, no other pair is within the tolerance
    on both axes, and the inner loop counts 2 or 1 of them, because
    [xQual] and [yQual] stay 1 once a pair has set them. *)
Lemma countConcensus_counts_one_axis_pairs :
  (translationOf axes_ms axes_k1 axes_k2 0 = Some (0, 0)%float /\
   countConcensus axes_ms axes_k1 axes_k2 0 0 0 = Some (mkQuality 1 1 2) /\
   specCount axes_ms axes_k1 axes_k2 0 0 0 = 0) /\
  (translationOf axes_ms axes_k1 axes_k2 1 = Some (0, 100)%float /\
   countConcensus axes_ms axes_k1 axes_k2 1 0 100 = Some (mkQuality 1 1 1) /\
   specCount axes_ms axes_k1 axes_k2 1 0 100 = 0) /\
  (translationOf axes_ms axes_k1 axes_k2 2 = Some (100, 0)%float /\
   countConcensus axes_ms axes_k1 axes_k2 2 100 0 = Some (mkQuality 1 1 1) /\
   specCount axes_ms axes_k1 axes_k2 2 100 0 = 0) /\
  (translationOf axes_ms axes_k1 axes_k2 3 = Some (100, 100)%float /\
   countConcensus axes_ms axes_k1 axes_k2 3 100 100 = Some (mkQuality 1 1 1) /\
   specCount axes_ms axes_k1 axes_k2 3 100 100 = 0).
Proof. repeat split; vm_compute; reflexivity. Qed.

(** C2 fails as stated: with no match, no keypoint and the identity
    matrix, the call returns the status 0 and the translation (0, 0). *)
Lemma estimateHomography_zero_matches_status_0 :
  estimateHomography isoRng 1 [] [] [] Id3 = Some (0, translationMat 0 0, 0).
Proof. vm_compute. reflexivity. Qed.

(** The amended C2 on the identity matrix. *)
Lemma estimateHomography_no_matches_witness :
  (exists H',
     estimateHomography isoRng 1 [] [] [] Id3 = Some (0, H', srand isoRng 0 1) /\
     ptr_get H' 0 2 = Some 0%float /\ ptr_get H' 1 2 = Some 0%float) /\
  (forall ms status H' g',
     estimateHomography isoRng 1 ms [] [] Id3 = Some (status, H', g') -> status = 0).
Proof.
  apply (estimateHomography_no_matches_succeeds isoRng 1 [] [] Id3).
  - unfold wf_Mat, Id3. cbn.
    split; [lia|]. split; [lia|]. split; [reflexivity|]. repeat constructor.
  - reflexivity.
  - reflexivity.
Defined.

(** C7 fails as stated: one match whose translation is (2.5, 0).  The
    only trial finds no other pair, the best x stays 0, and the x
    component that is returned is 2, not the 2.5 of the hypothesis. *)
Lemma estimateHomography_returns_truncated :
  translationOf half_ms half_k1 half_k2 0 = Some (2.5, 0)%float /\
  option_map fst (search isoRng 1 half_ms half_k1 half_k2)
    = Some (mkSearch 2.5 0 0 0 0) /\
  (do r <- estimateHomography isoRng 1 half_ms half_k1 half_k2 Id3;
   ptr_get (snd (fst r)) 0 2) = Some 2%float /\
  PrimFloat.eqb 2%float 2.5%float = false.
Proof. repeat split; vm_compute; reflexivity. Qed.
(** The amended C7 on the match whose translation is (2.5, 0). *)
Lemma estimateHomography_fallback_witness :
  exists s g' lastX lastY H',
    search isoRng 1 half_ms half_k1 half_k2 = Some (s, g') /\
    (half_ms = [] -> xTrans s = 0%float /\ yTrans s = 0%float) /\
    (half_ms <> [] ->
     translationOf half_ms half_k1 half_k2
       (last (hypothesisSequence isoRng 1 (Z.of_nat (length half_ms))) 0)
       = Some (xTrans s, yTrans s)) /\
    d2i (xTrans s) = Some lastX /\
    d2i (yTrans s) = Some lastY /\
    estimateHomography isoRng 1 half_ms half_k1 half_k2 Id3 = Some (0, H', g') /\
    ptr_get H' 0 2 = Some (i2d (if bestX s =? 0 then lastX else bestX s)) /\
    ptr_get H' 1 2 = Some (i2d (if bestY s =? 0 then lastY else bestY s)).
Proof.
  apply (estimateHomography_fallback_truncates isoRng 1 half_ms half_k1 half_k2 Id3).
  - intros m [<- | []]. cbn. lia.
  - intros j e. unfold translationOf, vec_at.
    destruct (j <? 0); [discriminate|].
    destruct (Z.to_nat j) as [|[|k]]; cbn; try discriminate.
    intros E. injection E as <-. split; [exists 2 | exists 0]; reflexivity.
  - unfold wf_Mat, Id3. cbn.
    split; [lia|]. split; [lia|]. split; [reflexivity|]. repeat constructor.
  - reflexivity.
  - reflexivity.
Defined.

(** [blend] where it is defined: equal alphas give the mean of the two
    pixels, and an empty canvas pixel takes the new pixel whatever the
    alphas. *)
Lemma blend_on_values :
  blend px_new px_canvas (mkMat 1 1 [[0.5%float]]) (mkMat 1 1 [[0.5%float]])
    = Some (0, mkMat 1 1 [[25; 35; 45]]) /\
  blend px_new (mkMat 1 1 [[0; 20; 30]]) px_alpha0 px_alpha0
    = Some (0, px_new) /\
  blend px_new (mkMat 2 1 [[10; 20; 30]; [1; 2; 3]]) px_alpha0 px_alpha0
    = Some (-1, mkMat 2 1 [[10; 20; 30]; [1; 2; 3]]).
Proof. repeat split; vm_compute; reflexivity. Qed.

(** C3 on one pixel that has content in the canvas and in the new image
    and a zero alpha on both sides: the divisor [aN + aC] is 0, the
    quotient is a NaN, and storing it into the [uchar] of the canvas is
    undefined; the canvas pixel is not retained. *)
Lemma blend_zero_alpha_sum_divides_by_zero :
  PrimFloat.add 0%float 0%float = 0%float /\
  PrimFloat.div
    (PrimFloat.add (PrimFloat.mul 0%float (i2d 40)) (PrimFloat.mul 0%float (i2d 10)))
    (PrimFloat.add 0%float 0%float) = nan /\
  feather 0%float 0%float 40 10 = None /\
  blendPixel px_new px_alpha0 px_alpha0 0 0 px_canvas = None /\
  blend px_new px_canvas px_alpha0 px_alpha0 = None.
Proof. repeat split; vm_compute; reflexivity. Qed.

(** C9 on candidates at the distances 150 and 400: the minimum over all
    candidates is 150 and both are below [3 * 150], yet only the first is
    retained: [minDist] starts at 100 (line 339) and stays there, and 400
    is not below 300. *)
Lemma trimMatches_drops_below_thrice_min :
  trimMatches 2 far_matches = Some [far_near] /\
  isMinDistance far_matches 150%float /\
  belowThrice 150%float far_matches = [far_near; far_far].
Proof.
  split; [vm_compute; reflexivity|]. split; [|vm_compute; reflexivity].
  split; [left; reflexivity|].
  intros m [<- | [<- | []]]; vm_compute; reflexivity.
Qed.


End ConcreteRuns.

(** *** Integers as [double]s *)

Section NumFacts.
Import Num.


Lemma digits2_pos_bounds (p : positive) :
  2 ^ (Z.pos (digits2_pos p) - 1) <= Z.pos p < 2 ^ Z.pos (digits2_pos p).
Proof.
  induction p as [p IH|p IH|]; cbn [digits2_pos].
  - rewrite Pos2Z.inj_succ.
    replace (Z.succ (Z.pos (digits2_pos p)) - 1) with (Z.succ (Z.pos (digits2_pos p) - 1)) by lia.
    rewrite !Z.pow_succ_r by lia. lia.
  - rewrite Pos2Z.inj_succ.
    replace (Z.succ (Z.pos (digits2_pos p)) - 1) with (Z.succ (Z.pos (digits2_pos p) - 1)) by lia.
    rewrite !Z.pow_succ_r by lia. lia.
  - cbn. lia.
Qed.

Lemma iter_xO_digits (p k : positive) :
  digits2_pos (Pos.iter xO p k) = (digits2_pos p + k)%positive.
Proof.
  revert p. induction k as [|k IH] using Pos.peano_ind; intros p.
  - cbn. rewrite Pos.add_1_r. reflexivity.
  - rewrite Pos.iter_succ. cbn [digits2_pos]. rewrite IH. lia.
Qed.

Lemma iter_xO_value (p k : positive) :
  Z.pos (Pos.iter xO p k) = Z.pos p * 2 ^ Z.pos k.
Proof.
  revert p. induction k as [|k IH] using Pos.peano_ind; intros p.
  - cbn. lia.
  - rewrite Pos.iter_succ, Pos2Z.inj_xO, IH, Pos2Z.inj_succ, Z.pow_succ_r by lia. lia.
Qed.

Lemma binary_round_aux_exact (s : bool) (m : positive) (e : Z) :
  Z.pos (digits2_pos m) = 53 -> -1074 <= e <= 971 ->
  binary_round_aux prec emax s (Z.pos m) e loc_Exact = S754_finite s m e.
Proof.
  intros Hd He.
  assert (Hfe : fexp prec emax (53 + e) - e = 0).
  { unfold fexp, emin, prec, emax. lia. }
  unfold binary_round_aux, shr_fexp, Zdigits2. rewrite Hd, Hfe.
  cbn [shr shr_record_of_loc shr_m loc_of_shr_record round_nearest_even].
  unfold Zdigits2. rewrite Hd, Hfe. cbn [shr shr_record_of_loc shr_m].
  assert (Hle : (e <=? emax - prec) = true).
  { apply Z.leb_le. unfold emax, prec. lia. }
  rewrite Hle. reflexivity.
Qed.

(** A positive integer below [2^53] as a binary64 float: the mantissa
    shifted to 53 bits. *)
Lemma binary_normalize_small (s : bool) (p : positive) :
  Z.pos p < 2 ^ 53 ->
  exists m e,
    binary_round prec emax s p 0 = S754_finite s m e /\
    -52 <= e <= 0 /\ Z.pos m = Z.pos p * 2 ^ (- e).
Proof.
  intros Hp.
  pose proof (digits2_pos_bounds p) as [Hlo Hhi].
  assert (Hd : Z.pos (digits2_pos p) <= 53).
  { destruct (Z.le_gt_cases (Z.pos (digits2_pos p)) 53) as [H|H]; [exact H|].
    assert (2 ^ 53 <= 2 ^ (Z.pos (digits2_pos p) - 1)) by (apply Z.pow_le_mono_r; lia).
    lia. }
  unfold binary_round.
  assert (Hf : fexp prec emax (Z.pos (digits2_pos p) + 0) = Z.pos (digits2_pos p) - 53).
  { unfold fexp, emin, prec, emax. lia. }
  rewrite Hf. unfold shl_align.
  destruct (Z.pos (digits2_pos p) - 53 - 0) as [|k|k] eqn:Ek; try lia.
  - exists p, 0. rewrite binary_round_aux_exact by lia.
    split; [reflexivity|]. split; [lia|]. cbn. lia.
  - exists (Pos.iter xO p k), (Z.pos (digits2_pos p) - 53).
    rewrite binary_round_aux_exact.
    + split; [reflexivity|]. split; [lia|].
      rewrite iter_xO_value. f_equal. f_equal. lia.
    + rewrite iter_xO_digits. lia.
    + lia.
Qed.

(** [(double) z] of an integer of magnitude below [2^53] is the finite
    float of value [z]. *)
Lemma i2d_exact (z : Z) :
  0 < Z.abs z < 2 ^ 53 ->
  exists m e,
    Prim2SF (i2d z) = S754_finite (z <? 0) m e /\
    -52 <= e <= 0 /\ Z.pos m = Z.abs z * 2 ^ (- e).
Proof.
  intros Hz. unfold i2d.
  assert (Hw : 2 ^ 53 < wB) by (unfold wB; cbn; lia).
  destruct (z <? 0) eqn:E.
  - apply Z.ltb_lt in E.
    rewrite FloatAxioms.sub_spec, FloatAxioms.of_uint63_spec, Uint63.of_Z_spec.
    rewrite Z.mod_small by lia.
    change (Prim2SF 0%float) with (S754_zero false).
    destruct (- z) as [|p|p] eqn:Ep; try lia.
    destruct (binary_normalize_small false p) as (m & e & Hb & He & Hm); [lia|].
    unfold binary_normalize. rewrite Hb. cbn.
    exists m, e. split; [reflexivity|]. split; [exact He|]. lia.
  - apply Z.ltb_ge in E.
    rewrite FloatAxioms.of_uint63_spec, Uint63.of_Z_spec.
    rewrite Z.mod_small by lia.
    destruct z as [|p|p] eqn:Ep; try lia.
    destruct (binary_normalize_small false p) as (m & e & Hb & He & Hm); [lia|].
    unfold binary_normalize. rewrite Hb.
    exists m, e. split; [reflexivity|]. split; [exact He|]. lia.
Qed.

(** [int -> double -> int] is the identity. *)
Lemma d2i_i2d (z : Z) : INT_MIN <= z <= INT_MAX -> d2i (i2d z) = Some z.
Proof.
  intros Hz. unfold INT_MIN, INT_MAX in Hz.
  destruct (Z.eq_dec z 0) as [->|Hne]; [reflexivity|].
  destruct (i2d_exact z) as (m & e & Hs & He & Hm); [lia|].
  unfold d2i, d2range. rewrite Hs. cbn [trunc_SF].
  assert (Hmag : (if 0 <=? e then Z.pos m * 2 ^ e else Z.pos m / 2 ^ (- e)) = Z.abs z).
  { destruct (0 <=? e) eqn:E0.
    - apply Z.leb_le in E0. assert (e = 0) by lia. subst e. cbn in Hm. cbn. lia.
    - rewrite Hm. apply Z.div_mul. apply Z.pow_nonzero; lia. }
  rewrite Hmag.
  assert (Hv : (if z <? 0 then - Z.abs z else Z.abs z) = z).
  { destruct (z <? 0) eqn:E; [apply Z.ltb_lt in E | apply Z.ltb_ge in E]; lia. }
  rewrite Hv.
  assert (Hr : (INT_MIN <=? z) && (z <=? INT_MAX) = true).
  { unfold INT_MIN, INT_MAX. apply andb_true_intro. split; apply Z.leb_le; lia. }
  rewrite Hr. reflexivity.
Qed.

End NumFacts.

(** *** Loops that may be undefined, and loops over the pixels *)

Section LoopsBoth.
Context {S : Type}.
Variable T : Prop.
Variable P : Z -> S -> Prop.
Variable body : Z -> S -> option S.

(** Under [T] every turn is defined, and a defined turn keeps the
    invariant: under [T] the loop is defined, and a defined loop ends in
    the invariant. *)
Lemma forM_both :
  forall (n : nat) (i : Z) (s : S),
    P i s ->
    (forall j t, i <= j < i + Z.of_nat n -> P j t ->
       (T -> exists t', body j t = Some t') /\
       (forall t', body j t = Some t' -> P (j + 1) t')) ->
    (T -> exists s', forM n i body s = Some s') /\
    (forall s', forM n i body s = Some s' -> P (i + Z.of_nat n) s').
Proof.
  induction n as [|n IH]; intros i s Hi Hstep.
  - split.
    + intros _. exists s. reflexivity.
    + intros s' E. cbn in E. injection E as <-.
      replace (i + Z.of_nat 0) with i by lia. exact Hi.
  - destruct (Hstep i s) as (Hdef & Hkeep); [lia | exact Hi |].
    cbn [forM]. split.
    + intros HT. destruct (Hdef HT) as (t & Ht). rewrite Ht.
      destruct (IH (i + 1) t (Hkeep t Ht)) as (Hd & _).
      * intros j u Hj. apply Hstep. lia.
      * apply Hd. exact HT.
    + intros s'. destruct (body i s) as [t|] eqn:Ht; [|discriminate].
      intros E. destruct (IH (i + 1) t (Hkeep t eq_refl)) as (_ & Hk).
      * intros j u Hj. apply Hstep. lia.
      * replace (i + Z.of_nat (Datatypes.S n)) with (i + 1 + Z.of_nat n) by lia.
        apply Hk. exact E.
Qed.

Lemma for_range_both :
  forall (lo hi : Z) (s : S),
    lo <= hi ->
    P lo s ->
    (forall j t, lo <= j < hi -> P j t ->
       (T -> exists t', body j t = Some t') /\
       (forall t', body j t = Some t' -> P (j + 1) t')) ->
    (T -> exists s', for_range lo hi body s = Some s') /\
    (forall s', for_range lo hi body s = Some s' -> P hi s').
Proof.
  intros lo hi s Hle Hlo Hstep. unfold for_range.
  destruct (forM_both (Z.to_nat (hi - lo)) lo s Hlo) as (Hd & Hk).
  - intros j t Hj. apply Hstep. lia.
  - split; [exact Hd|]. intros s' E.
    replace hi with (lo + Z.of_nat (Z.to_nat (hi - lo))) by lia.
    apply Hk. exact E.
Qed.

End LoopsBoth.

Section PixelLoops.
Context {A : Type}.
Variable chan : Z.
Variable step : Z -> Z -> Mat A -> option (Mat A).
Variable c0 : Mat A.
Variable T : Prop.
Variable Q : Z -> Z -> Mat A -> Prop.

(** [Q y x] looks at the channels of the pixel [(x, y)] only. *)
Hypothesis Q_local :
  forall y x c1 c2,
    (forall k, 0 <= k < chan ->
       ptr_get c2 y (chan * x + k) = ptr_get c1 y (chan * x + k)) ->
    Q y x c1 -> Q y x c2.

(** The turn at [(x, y)], on a matrix whose pixel [(x, y)] is still the
    one of [c0]: defined under [T]; when defined it keeps the shape,
    touches the channels of that pixel only and establishes [Q y x]. *)
Hypothesis step_spec :
  forall y x c,
    0 <= y < rows c0 -> 0 <= x < cols c0 ->
    wf_Mat chan c -> rows c = rows c0 -> cols c = cols c0 ->
    (forall k, 0 <= k < chan ->
       ptr_get c y (chan * x + k) = ptr_get c0 y (chan * x + k)) ->
    (T -> exists c', step y x c = Some c') /\
    (forall c', step y x c = Some c' ->
       wf_Mat chan c' /\ rows c' = rows c0 /\ cols c' = cols c0 /\
       (forall y' j, ~ (y' = y /\ chan * x <= j < chan * x + chan) ->
          ptr_get c' y' j = ptr_get c y' j) /\
       Q y x c').

Lemma pixel_loops :
  wf_Mat chan c0 ->
  (T -> exists cF,
     for_range 0 (rows c0) (fun y c =>
       for_range 0 (cols c0) (fun x c' => step y x c') c) c0 = Some cF) /\
  (forall cF,
     for_range 0 (rows c0) (fun y c =>
       for_range 0 (cols c0) (fun x c' => step y x c') c) c0 = Some cF ->
     wf_Mat chan cF /\ rows cF = rows c0 /\ cols cF = cols c0 /\
     forall y x, 0 <= y < rows c0 -> 0 <= x < cols c0 -> Q y x cF).
Proof.
  intros Hwf.
  assert (HR : 0 <= rows c0) by (destruct Hwf as (H & _); exact H).
  assert (HC : 0 <= cols c0) by (destruct Hwf as (_ & H & _); exact H).
  pose (Inv := fun (y : Z) (c : Mat A) =>
    wf_Mat chan c /\ rows c = rows c0 /\ cols c = cols c0 /\
    (forall y' x, 0 <= y' < y -> 0 <= x < cols c0 -> Q y' x c) /\
    (forall y' x k, y <= y' < rows c0 -> 0 <= x < cols c0 -> 0 <= k < chan ->
       ptr_get c y' (chan * x + k) = ptr_get c0 y' (chan * x + k))).
  destruct (for_range_both T Inv
              (fun y c => for_range 0 (cols c0) (fun x c' => step y x c') c)
              0 (rows c0) c0 HR) as (Hdef & Hend).
  - unfold Inv. split; [exact Hwf|]. split; [reflexivity|]. split; [reflexivity|].
    split; [intros; lia | intros; reflexivity].
  - intros y c Hy (Hwc & Hrc & Hcc & Hdone & Hrest).
    pose (Row := fun (x : Z) (c' : Mat A) =>
      wf_Mat chan c' /\ rows c' = rows c0 /\ cols c' = cols c0 /\
      (forall y' x', 0 <= y' < y -> 0 <= x' < cols c0 -> Q y' x' c') /\
      (forall x', 0 <= x' < x -> Q y x' c') /\
      (forall x' k, x <= x' < cols c0 -> 0 <= k < chan ->
         ptr_get c' y (chan * x' + k) = ptr_get c0 y (chan * x' + k)) /\
      (forall y' x' k, y < y' < rows c0 -> 0 <= x' < cols c0 -> 0 <= k < chan ->
         ptr_get c' y' (chan * x' + k) = ptr_get c0 y' (chan * x' + k))).
    destruct (for_range_both T Row (fun x c' => step y x c') 0 (cols c0) c HC)
      as (Hd1 & He1).
    + unfold Row. split; [exact Hwc|]. split; [exact Hrc|]. split; [exact Hcc|].
      split; [exact Hdone|]. split; [intros; lia|]. split.
      * intros x' k Hx' Hk. apply Hrest; [lia | lia | exact Hk].
      * intros y' x' k Hy' Hx' Hk. apply Hrest; [lia | exact Hx' | exact Hk].
    + intros x c' Hx (Hw2 & Hr2 & Hc2 & Hdone2 & Hrow2 & Hright2 & Hbelow2).
      destruct (step_spec y x c' Hy Hx Hw2 Hr2 Hc2) as (Hsd & Hsk).
      { intros k Hk. apply Hright2; [lia | exact Hk]. }
      split; [exact Hsd|].
      intros c2 Hc2'. destruct (Hsk c2 Hc2') as (Hw3 & Hr3 & Hc3 & Hframe & HQ).
      unfold Row. split; [exact Hw3|]. split; [exact Hr3|]. split; [exact Hc3|].
      split; [|split; [|split]].
      * intros y' x' Hy' Hx'. apply (Q_local y' x' c'); [|apply Hdone2; assumption].
        intros k Hk. apply Hframe. intros (E & _). lia.
      * intros x' Hx'. destruct (Z.eq_dec x' x) as [->|Hne]; [exact HQ|].
        apply (Q_local y x' c'); [|apply Hrow2; lia].
        intros k Hk. apply Hframe. intros (_ & E). nia.
      * intros x' k Hx' Hk. rewrite Hframe; [apply Hright2; [lia | exact Hk]|].
        intros (_ & E). nia.
      * intros y' x' k Hy' Hx' Hk. rewrite Hframe; [apply Hbelow2; assumption|].
        intros (E & _). lia.
    + split; [exact Hd1|].
      intros c1 Hc1. destruct (He1 c1 Hc1)
        as (Hw1 & Hr1 & Hcol1 & Hdone1 & Hrow1 & _ & Hbelow1).
      unfold Inv. split; [exact Hw1|]. split; [exact Hr1|]. split; [exact Hcol1|]. split.
      * intros y' x Hy' Hx. destruct (Z.eq_dec y' y) as [->|Hne].
        -- apply Hrow1. exact Hx.
        -- apply Hdone1; [lia | exact Hx].
      * intros y' x k Hy' Hx Hk. apply Hbelow1; [lia | exact Hx | exact Hk].
  - split; [exact Hdef|].
    intros cF HcF. destruct (Hend cF HcF) as (HwF & HrF & HcFc & HdoneF & _).
    split; [exact HwF|]. split; [exact HrF|]. split; [exact HcFc|].
    intros y x Hy Hx. apply HdoneF; assumption.
Qed.

End PixelLoops.

(** *** Indices computed in [int] *)

Section IndexFacts.
Import Num.

Lemma int_range_value (z i : Z) :
  int_range z = Some i -> i = z /\ INT_MIN <= z <= INT_MAX.
Proof.
  unfold int_range. destruct ((INT_MIN <=? z) && (z <=? INT_MAX)) eqn:E; [|discriminate].
  intros H. injection H as <-.
  apply andb_prop in E. destruct E as (E1 & E2). apply Z.leb_le in E1, E2. lia.
Qed.

Lemma int_range_defined (z : Z) :
  INT_MIN <= z <= INT_MAX -> int_range z = Some z.
Proof.
  intros Hz. unfold int_range.
  replace ((INT_MIN <=? z) && (z <=? INT_MAX)) with true; [reflexivity|].
  symmetry. apply andb_true_intro. split; apply Z.leb_le; lia.
Qed.

Lemma int_range_overflow (z : Z) : INT_MAX < z -> int_range z = None.
Proof.
  intros Hz. unfold int_range.
  replace (z <=? INT_MAX) with false; [rewrite andb_false_r; reflexivity|].
  symmetry. apply Z.leb_gt. exact Hz.
Qed.

(** An index that is defined is the index in the row. *)
Lemma elemIndex_value (chan x k i : Z) :
  0 <= k < chan -> elemIndex chan x k = Some i -> i = chan * x + k.
Proof.
  intros Hk. unfold elemIndex, int_mul, int_add.
  destruct (chan =? 1) eqn:E1.
  - apply Z.eqb_eq in E1. intros H. injection H as <-. lia.
  - destruct (int_range (chan * x)) as [p|] eqn:Ep; [|discriminate]. cbn [bind].
    apply int_range_value in Ep. destruct Ep as (-> & _).
    destruct (k =? 0) eqn:E0.
    + apply Z.eqb_eq in E0. intros H. injection H as <-. lia.
    + intros H. apply int_range_value in H. lia.
Qed.

(** The indices of an indexable row are defined. *)
Lemma elemIndex_defined (chan x k : Z) :
  0 <= x -> 0 <= k < chan -> chan = 1 \/ chan * x + k <= INT_MAX ->
  elemIndex chan x k = Some (chan * x + k).
Proof.
  intros Hx Hk Hb. unfold elemIndex, int_mul, int_add.
  destruct (chan =? 1) eqn:E1.
  - apply Z.eqb_eq in E1. f_equal. lia.
  - apply Z.eqb_neq in E1. destruct Hb as [Hb|Hb]; [contradiction|].
    assert (Hp : 0 <= chan * x) by nia.
    rewrite int_range_defined by (unfold INT_MIN; lia). cbn [bind].
    destruct (k =? 0) eqn:E0.
    + apply Z.eqb_eq in E0. f_equal. lia.
    + apply int_range_defined. unfold INT_MIN. lia.
Qed.

(** An index beyond [INT_MAX] overflows. *)
Lemma elemIndex_overflow (x k : Z) :
  0 <= x -> 0 <= k < 3 -> INT_MAX < 3 * x + k -> elemIndex 3 x k = None.
Proof.
  intros Hx Hk Hb. unfold elemIndex, int_mul, int_add. cbn [Z.eqb Pos.eqb].
  destruct (int_range (3 * x)) as [p|] eqn:Ep; [|reflexivity]. cbn [bind].
  apply int_range_value in Ep. destruct Ep as (-> & Hr).
  destruct (k =? 0) eqn:E0.
  - apply Z.eqb_eq in E0. lia.
  - apply int_range_overflow. exact Hb.
Qed.

End IndexFacts.

(** *** The projections *)

Section ProjectorFacts.
Import Num Projector.
Context {A : Type}.
Variable chan : Z.
Variable I : Mat A.
Hypothesis Hchan : 0 < chan.
Hypothesis HwfI : wf_Mat chan I.

(** Copying the channels [k .. k+count-1] of an input pixel in bounds
    into an output pixel in bounds: defined when the rows are indexable,
    and when defined it writes these channels and nothing else. *)
Lemma copyChannels_spec (yIn xIn y x : Z) :
  0 <= yIn < rows I -> 0 <= xIn < cols I ->
  forall (count : nat) (k : Z) (O : Mat A),
    0 <= k -> k + Z.of_nat count <= chan ->
    wf_Mat chan O -> 0 <= y < rows O -> 0 <= x < cols O ->
    (indexable chan (cols I) -> indexable chan (cols O) ->
     exists O', copyChannels I chan yIn xIn y x count k O = Some O') /\
    (forall O',
       copyChannels I chan yIn xIn y x count k O = Some O' ->
       wf_Mat chan O' /\ rows O' = rows O /\ cols O' = cols O /\
       (forall y' j, ~ (y' = y /\ chan * x + k <= j < chan * x + k + Z.of_nat count) ->
          ptr_get O' y' j = ptr_get O y' j) /\
       (forall j, k <= j < k + Z.of_nat count ->
          ptr_get O' y (chan * x + j) = ptr_get I yIn (chan * xIn + j))).
Proof.
  intros HyIn HxIn. induction count as [|count IH]; intros k O Hk Hkc HwfO Hy Hx.
  - cbn [copyChannels]. split.
    + intros _ _. exists O. reflexivity.
    + intros O' E. injection E as <-. split; [exact HwfO|].
      split; [reflexivity|]. split; [reflexivity|]. split; [reflexivity | intros; lia].
  - cbn [copyChannels].
    destruct (elemIndex chan xIn k) as [src|] eqn:Es.
    2:{ split; [|cbn [bind]; discriminate].
        intros HiI _. exfalso.
        rewrite elemIndex_defined in Es; [discriminate | lia | lia |].
        destruct HiI as [E|E]; [left; exact E | right; nia]. }
    destruct (elemIndex chan x k) as [dst|] eqn:Ed.
    2:{ split; [|cbn [bind]; discriminate].
        intros _ HiO. exfalso.
        rewrite elemIndex_defined in Ed; [discriminate | lia | lia |].
        destruct HiO as [E|E]; [left; exact E | right; nia]. }
    apply elemIndex_value in Es; [|lia]. apply elemIndex_value in Ed; [|lia].
    subst src dst. cbn [bind].
    destruct HwfI as (HrI & HcI & HlenI & HallI).
    destruct (vec_at_defined (data I) yIn) as (row & Hrow); [lia|].
    assert (Hlrow : length row = Z.to_nat (chan * cols I)).
    { apply vec_at_In in Hrow. rewrite Forall_forall in HallI. auto. }
    destruct (vec_at_defined row (chan * xIn + k)) as (v & Hv); [nia|].
    assert (Hget : ptr_get I yIn (chan * xIn + k) = Some v).
    { unfold ptr_get. rewrite Hrow. cbn [bind]. exact Hv. }
    rewrite Hget. cbn [bind].
    destruct (ptr_set_defined chan O y (chan * x + k) v HwfO Hy) as (O1 & HO1); [nia|].
    rewrite HO1. cbn [bind].
    destruct (ptr_set_wf chan O O1 y (chan * x + k) v HwfO HO1) as (Hw1 & Hr1 & Hc1).
    destruct (IH (k + 1) O1) as (Hdef & Hend); try lia; try assumption.
    split.
    + intros HiI HiO. apply Hdef; [exact HiI | rewrite Hc1; exact HiO].
    + intros O' HO'.
      destruct (Hend O' HO') as (Hw' & Hr' & Hc' & Hframe & Hcopy).
      split; [exact Hw'|]. split; [congruence|]. split; [congruence|]. split.
      * intros y' j Hn. rewrite Hframe by (intros (E1 & E2); apply Hn; lia).
        apply (ptr_get_set_other _ _ _ _ y' j _ HO1).
        intros E. injection E as E1 E2. apply Hn. lia.
      * intros j Hj. destruct (Z.eq_dec j k) as [->|Hne].
        -- rewrite Hframe by (intros (_ & E); lia).
           rewrite (ptr_get_set_same _ _ _ _ _ HO1). symmetry. exact Hget.
        -- apply Hcopy. lia.
Qed.

Variable sample : Z -> Z -> option (Z * Z).
Variable O : Mat A.
Hypothesis HwfO : wf_Mat chan O.
Hypothesis Hrows : rows O = rows I.
Hypothesis Hcols : cols O = cols I.

(** The loops of a projection: defined when the rows are indexable and
    every sample is defined, and when defined every channel of every
    pixel is what [projectedAt] says. *)
Lemma projectLoops_spec :
  (indexable chan (cols I) ->
   (forall y x, 0 <= y < rows I -> 0 <= x < cols I -> exists s, sample y x = Some s) ->
   exists O', projectLoops sample chan I O = Some (0, O')) /\
  (forall status O',
     projectLoops sample chan I O = Some (status, O') ->
     status = 0 /\ wf_Mat chan O' /\ rows O' = rows I /\ cols O' = cols I /\
     forall y x k, 0 <= y < rows I -> 0 <= x < cols I -> 0 <= k < chan ->
       ptr_get O' y (chan * x + k) = projectedAt sample chan I O y x k).
Proof.
  destruct (pixel_loops chan (fun y x o => projectPixel sample chan I y x o) O
              (indexable chan (cols I) /\
               forall y x, 0 <= y < rows I -> 0 <= x < cols I ->
                 exists s, sample y x = Some s)
              (fun y x o => forall k, 0 <= k < chan ->
                 ptr_get o y (chan * x + k) = projectedAt sample chan I O y x k))
    as (Hdef & Hend).
  - intros y x c1 c2 Hsame HQ k Hk. rewrite Hsame by exact Hk. apply HQ. exact Hk.
  - intros y x c Hy Hx Hwc Hrc Hcc Hagree.
    rewrite Hrows in Hy. rewrite Hcols in Hx.
    assert (Hstep : forall s, sample y x = Some s ->
              (indexable chan (cols I) ->
               exists c', projectPixel sample chan I y x c = Some c') /\
              (forall c', projectPixel sample chan I y x c = Some c' ->
                wf_Mat chan c' /\ rows c' = rows O /\ cols c' = cols O /\
                (forall y' j, ~ (y' = y /\ chan * x <= j < chan * x + chan) ->
                   ptr_get c' y' j = ptr_get c y' j) /\
                (forall k, 0 <= k < chan ->
                   ptr_get c' y (chan * x + k) = projectedAt sample chan I O y x k))).
    { intros s Hs. unfold projectPixel, projectedAt. rewrite Hs. cbn [bind].
      destruct (inBounds (rows I) (cols I) (fst s) (snd s)) eqn:Hb.
      - unfold inBounds in Hb.
        apply andb_prop in Hb. destruct Hb as (Hb & Hb4).
        apply andb_prop in Hb. destruct Hb as (Hb & Hb3).
        apply andb_prop in Hb. destruct Hb as (Hb1 & Hb2).
        rewrite Z.gtb_ltb in Hb1, Hb3.
        apply Z.ltb_lt in Hb1, Hb2, Hb3, Hb4.
        destruct (copyChannels_spec (snd s) (fst s) y x ltac:(lia) ltac:(lia)
                    (Z.to_nat chan) 0 c ltac:(lia) ltac:(lia) Hwc ltac:(lia) ltac:(lia))
          as (Hcd & Hce).
        split.
        + intros Hi. apply Hcd; [exact Hi | rewrite Hcc, Hcols; exact Hi].
        + intros c' Hc'.
          destruct (Hce c' Hc') as (Hw' & Hr' & Hcl' & Hframe & Hcopy).
          split; [exact Hw'|]. split; [congruence|]. split; [congruence|]. split.
          * intros y' j Hn. apply Hframe. intros (E1 & E2). apply Hn. lia.
          * intros k Hk. apply Hcopy. lia.
      - split; [intros _; exists c; reflexivity|].
        intros c' E. injection E as <-. split; [exact Hwc|].
        split; [exact Hrc|]. split; [exact Hcc|]. split; [reflexivity|].
        intros k Hk. apply Hagree. exact Hk. }
    split.
    + intros (Hi & HT). destruct (HT y x Hy Hx) as (s & Hs).
      destruct (Hstep s Hs) as (Hd & _). apply Hd. exact Hi.
    + intros c' Hc'.
      destruct (sample y x) as [s|] eqn:Hs.
      * destruct (Hstep s eq_refl) as (_ & He). apply He. exact Hc'.
      * unfold projectPixel in Hc'. rewrite Hs in Hc'. discriminate.
  - exact HwfO.
  - rewrite Hrows, Hcols in Hdef, Hend. unfold projectLoops. split.
    + intros Hi HT. destruct (Hdef (conj Hi HT)) as (cF & HcF). rewrite HcF.
      exists cF. reflexivity.
    + intros status O'.
      destruct (for_range 0 (rows I)
                  (fun y o => for_range 0 (cols I)
                     (fun x o' => projectPixel sample chan I y x o') o) O)
        as [cF|] eqn:E; [|discriminate].
      cbn [bind]. intros Hs. injection Hs as <- <-.
      destruct (Hend cF eq_refl) as (Hw & Hr & Hc & HQ).
      split; [reflexivity|]. split; [exact Hw|].
      split; [exact Hr|]. split; [exact Hc|].
      intros y x k Hy Hx Hk. apply HQ; assumption.
Qed.

End ProjectorFacts.


Section ProjectorProperties.
Import Num Projector.

(** X3.  The two projections of an image.  A call that returns has left
    in each pixel of the output the pixel of the input at the sampled
    coordinates when these are inside the image, and the pixel as it was
    otherwise; it has read and written nothing outside the two images.
    The call returns when the indices [3*x + k] of a row are values of
    [int] ([3 * cols <= INT_MAX], see [indexable]) and every sample
    converts to [int]. *)
Theorem projections_copy_or_skip (L : Libm) (f : float) (I O : Mat Z) :
  wf_Mat 3 I -> wf_Mat 3 O -> rows O = rows I -> cols O = cols I ->
  projects (sampleSpherical L f (rows I) (cols I)) 3 I O (projectSpherical L I O f) /\
  projects (sampleCylindrical L f (rows I) (cols I)) 3 I O (projectCylindrical L I O f).
Proof.
  intros HwI HwO Hr Hc. split.
  - exact (projectLoops_spec 3 I ltac:(lia) HwI
             (sampleSpherical L f (rows I) (cols I)) O HwO Hr Hc).
  - exact (projectLoops_spec 3 I ltac:(lia) HwI
             (sampleCylindrical L f (rows I) (cols I)) O HwO Hr Hc).
Qed.

(** X4.  The mask of an image is projected with the sampling of the image:
    its value at [(x, y)] is the value of the mask at the very coordinates
    the pixel [(x, y)] of the projected image was copied from, and it is
    left as it was exactly where that pixel was.  The projection of the
    mask indexes with [x] and [xIn] themselves and returns whenever every
    sample converts to [int]; that of the image needs the indices
    [3*x + k] to be values of [int] as well. *)
Theorem projectMaskSpherical_follows_image (L : Libm) (f : float)
  (I O : Mat Z) (M MO : Mat float) :
  wf_Mat 3 I -> wf_Mat 3 O -> rows O = rows I -> cols O = cols I ->
  wf_Mat 1 M -> wf_Mat 1 MO ->
  rows M = rows I -> cols M = cols I -> rows MO = rows I -> cols MO = cols I ->
  projects (sampleSpherical L f (rows I) (cols I)) 3 I O (projectSpherical L I O f) /\
  projects (sampleSpherical L f (rows I) (cols I)) 1 M MO (projectMaskSpherical L M MO f) /\
  ((forall y x, 0 <= y < rows I -> 0 <= x < cols I ->
      exists s, sampleSpherical L f (rows I) (cols I) y x = Some s) ->
   exists MO', projectMaskSpherical L M MO f = Some (0, MO')).
Proof.
  intros HwI HwO Hr Hc HwM HwMO HrM HcM HrMO HcMO. split.
  - exact (projectLoops_spec 3 I ltac:(lia) HwI
             (sampleSpherical L f (rows I) (cols I)) O HwO Hr Hc).
  - assert (HM : projects (sampleSpherical L f (rows M) (cols M)) 1 M MO
                   (projectMaskSpherical L M MO f)).
    { apply (projectLoops_spec 1 M ltac:(lia) HwM
               (sampleSpherical L f (rows M) (cols M)) MO HwMO); congruence. }
    rewrite HrM, HcM in HM. split; [exact HM|].
    intros HT. destruct HM as (Hdef & _).
    apply Hdef; [left; reflexivity|].
    rewrite HrM, HcM. exact HT.
Qed.

End ProjectorProperties.


Section ConversionFacts.
Import Num Projector.

(** [round] of an integer is the integer. *)
Lemma round_to_int_i2d (z : Z) :
  INT_MIN <= z <= INT_MAX -> round_to_int (i2d z) = Some z.
Proof.
  intros Hz. unfold INT_MIN, INT_MAX in Hz.
  destruct (Z.eq_dec z 0) as [->|Hne]; [reflexivity|].
  destruct (i2d_exact z) as (m & e & Hs & He & Hm); [lia|].
  unfold round_to_int. rewrite Hs. cbn [round_SF].
  assert (Hmag : (if 0 <=? e then Z.pos m * 2 ^ e
                  else (Z.pos m / 2 ^ (- e - 1) + 1) / 2) = Z.abs z).
  { destruct (0 <=? e) eqn:E0.
    - apply Z.leb_le in E0. assert (e = 0) by lia. subst e. cbn in Hm. cbn. lia.
    - apply Z.leb_gt in E0. rewrite Hm.
      replace (- e) with (Z.succ (- e - 1)) at 1 by lia.
      rewrite Z.pow_succ_r by lia.
      replace (Z.abs z * (2 * 2 ^ (- e - 1))) with (Z.abs z * 2 * 2 ^ (- e - 1)) by lia.
      rewrite Z.div_mul by (apply Z.pow_nonzero; lia).
      replace (Z.abs z * 2 + 1) with (1 + Z.abs z * 2) by lia.
      rewrite Z.div_add by lia. cbn. lia. }
  rewrite Hmag.
  assert (Hv : (if z <? 0 then - Z.abs z else Z.abs z) = z).
  { destruct (z <? 0) eqn:E; [apply Z.ltb_lt in E | apply Z.ltb_ge in E]; lia. }
  rewrite Hv.
  assert (Hr : (INT_MIN <=? z) && (z <=? INT_MAX) = true).
  { unfold INT_MIN, INT_MAX. apply andb_true_intro. split; apply Z.leb_le; lia. }
  rewrite Hr. reflexivity.
Qed.

(** What a conversion returns is a value of the type. *)
Lemma d2range_bounds (lo hi : Z) (x : float) (z : Z) :
  d2range lo hi x = Some z -> lo <= z <= hi.
Proof.
  unfold d2range. destruct (trunc_SF (Prim2SF x)) as [v|]; [|discriminate].
  destruct ((lo <=? v) && (v <=? hi)) eqn:E; [|discriminate].
  intros H. injection H as <-.
  apply andb_prop in E. destruct E as (E1 & E2).
  apply Z.leb_le in E1, E2. lia.
Qed.

(** [0 / f], [f * 0] and [0 + (double) z] for a positive finite [f]. *)
Lemma div_zero_by_positive (f : float) (m : positive) (e : Z) :
  Prim2SF f = S754_finite false m e -> PrimFloat.div 0%float f = 0%float.
Proof.
  intros Hf. apply Prim2SF_eq. rewrite FloatAxioms.div_spec, Hf. reflexivity.
Qed.

Lemma mul_positive_by_zero (f : float) (m : positive) (e : Z) :
  Prim2SF f = S754_finite false m e -> PrimFloat.mul f 0%float = 0%float.
Proof.
  intros Hf. apply Prim2SF_eq. rewrite FloatAxioms.mul_spec, Hf. reflexivity.
Qed.

Lemma add_zero_i2d (z : Z) : PrimFloat.add 0%float (i2d z) = i2d z.
Proof.
  apply Prim2SF_eq. rewrite FloatAxioms.add_spec.
  change (Prim2SF 0%float) with (S754_zero false).
  pose proof (i2d_not_negzero z) as H.
  destruct (Prim2SF (i2d z)) as [s|s| |s m e]; try reflexivity.
  destruct s; [congruence | reflexivity].
Qed.

(** The pixel at the center [(cols / 2, rows / 2)] samples itself, in
    both projections, for a library with [sin 0 = 0] and [cos 0 = 1]. *)
Lemma samples_at_center (L : Libm) (f : float) (m : positive) (e : Z)
  (nRows nCols : Z) :
  c_sin L 0%float = 0%float -> c_cos L 0%float = 1%float ->
  Prim2SF f = S754_finite false m e ->
  0 <= nRows <= INT_MAX -> 0 <= nCols <= INT_MAX ->
  sampleSpherical L f nRows nCols (Z.quot nRows 2) (Z.quot nCols 2)
    = Some (Z.quot nCols 2, Z.quot nRows 2) /\
  sampleCylindrical L f nRows nCols (Z.quot nRows 2) (Z.quot nCols 2)
    = Some (Z.quot nCols 2, Z.quot nRows 2).
Proof.
  intros Hsin Hcos Hf HR HC.
  unfold INT_MAX in HR, HC.
  assert (Hx : round_to_int (i2d (Z.quot nCols 2)) = Some (Z.quot nCols 2)).
  { apply round_to_int_i2d. unfold INT_MIN, INT_MAX.
    pose proof (Z.quot_pos nCols 2 ltac:(lia) ltac:(lia)).
    pose proof (Z.quot_le_upper_bound nCols 2 nCols ltac:(lia) ltac:(lia)). lia. }
  assert (Hy : round_to_int (i2d (Z.quot nRows 2)) = Some (Z.quot nRows 2)).
  { apply round_to_int_i2d. unfold INT_MIN, INT_MAX.
    pose proof (Z.quot_pos nRows 2 ltac:(lia) ltac:(lia)).
    pose proof (Z.quot_le_upper_bound nRows 2 nRows ltac:(lia) ltac:(lia)). lia. }
  unfold sampleSpherical, sampleCylindrical. cbn zeta.
  rewrite !Z.sub_diag. change (i2d 0) with 0%float.
  rewrite (div_zero_by_positive f m e Hf), Hsin, Hcos.
  change (PrimFloat.mul 0%float 1%float) with 0%float.
  change (PrimFloat.mul 1%float 1%float) with 1%float.
  rewrite (mul_positive_by_zero f m e Hf).
  change (PrimFloat.div 0%float 1%float) with 0%float.
  rewrite !add_zero_i2d, Hx, Hy. split; reflexivity.
Qed.

End ConversionFacts.

Section CenterProperty.
Import Num Projector.

(** X5.  A projection that returns leaves at the center [(cols / 2, rows / 2)]
    of the output the pixel at the center of the input, for every
    positive finite focal length: in both projections the center is a
    fixed point of the sampling. *)
Theorem projections_fix_center (L : Libm) (f : float) (m : positive) (e : Z)
  (I O O' : Mat Z) (status k : Z) :
  c_sin L 0%float = 0%float -> c_cos L 0%float = 1%float ->
  Prim2SF f = S754_finite false m e ->
  wf_Mat 3 I -> wf_Mat 3 O -> rows O = rows I -> cols O = cols I ->
  1 <= rows I <= INT_MAX -> 1 <= cols I <= INT_MAX ->
  0 <= k < 3 ->
  projectSpherical L I O f = Some (status, O') \/
  projectCylindrical L I O f = Some (status, O') ->
  ptr_get O' (Z.quot (rows I) 2) (3 * Z.quot (cols I) 2 + k) =
  ptr_get I (Z.quot (rows I) 2) (3 * Z.quot (cols I) 2 + k).
Proof.
  intros Hsin Hcos Hf HwI HwO Hr Hc HR HC Hk Hp.
  destruct (samples_at_center L f m e (rows I) (cols I) Hsin Hcos Hf
              ltac:(lia) ltac:(lia)) as (Hs & Hcy).
  unfold INT_MAX in HR, HC.
  assert (Hyc : 0 <= Z.quot (rows I) 2 < rows I).
  { pose proof (Z.quot_pos (rows I) 2 ltac:(lia) ltac:(lia)).
    pose proof (Z.quot_lt (rows I) 2 ltac:(lia) ltac:(lia)). lia. }
  assert (Hxc : 0 <= Z.quot (cols I) 2 < cols I).
  { pose proof (Z.quot_pos (cols I) 2 ltac:(lia) ltac:(lia)).
    pose proof (Z.quot_lt (cols I) 2 ltac:(lia) ltac:(lia)). lia. }
  assert (Hin : inBounds (rows I) (cols I) (Z.quot (cols I) 2) (Z.quot (rows I) 2) = true).
  { unfold inBounds. rewrite !Z.gtb_ltb.
    repeat (apply andb_true_intro; split); apply Z.ltb_lt; lia. }
  destruct Hp as [Hp|Hp].
  - destruct (projectLoops_spec 3 I ltac:(lia) HwI
                (sampleSpherical L f (rows I) (cols I)) O HwO Hr Hc) as (_ & Hend).
    destruct (Hend status O' Hp) as (_ & _ & _ & _ & Hget).
    rewrite (Hget _ _ k Hyc Hxc Hk). unfold projectedAt.
    rewrite Hs. cbn [bind fst snd]. rewrite Hin. reflexivity.
  - destruct (projectLoops_spec 3 I ltac:(lia) HwI
                (sampleCylindrical L f (rows I) (cols I)) O HwO Hr Hc) as (_ & Hend).
    destruct (Hend status O' Hp) as (_ & _ & _ & _ & Hget).
    rewrite (Hget _ _ k Hyc Hxc Hk). unfold projectedAt.
    rewrite Hcy. cbn [bind fst snd]. rewrite Hin. reflexivity.
Qed.

End CenterProperty.

(** *** The compositor, pixel by pixel *)

Lemma ptr_get_defined {A : Type} (chan : Z) (m : Mat A) (y j : Z) :
  wf_Mat chan m -> 0 <= y < rows m -> 0 <= j < chan * cols m ->
  exists v, ptr_get m y j = Some v.
Proof.
  intros (Hr & Hc & Hlen & Hall) Hy Hj. unfold ptr_get.
  destruct (vec_at_defined (data m) y) as (row & Hrow); [lia|].
  rewrite Hrow. cbn [bind]. apply vec_at_defined.
  apply vec_at_In in Hrow. rewrite Forall_forall in Hall.
  rewrite (Hall row Hrow). lia.
Qed.

(** Three writes into the channels of one pixel. *)
Lemma write_pixel3 {A : Type} (c : Mat A) (y x : Z) (v0 v1 v2 : A) :
  wf_Mat 3 c -> 0 <= y < rows c -> 0 <= x < cols c ->
  exists c1 c2 c3,
    ptr_set c y (3 * x) v0 = Some c1 /\
    ptr_set c1 y (3 * x + 1) v1 = Some c2 /\
    ptr_set c2 y (3 * x + 2) v2 = Some c3 /\
    ptr_get c1 y (3 * x + 1) = ptr_get c y (3 * x + 1) /\
    ptr_get c2 y (3 * x + 2) = ptr_get c y (3 * x + 2) /\
    wf_Mat 3 c3 /\ rows c3 = rows c /\ cols c3 = cols c /\
    (forall y' j, ~ (y' = y /\ 3 * x <= j < 3 * x + 3) ->
       ptr_get c3 y' j = ptr_get c y' j) /\
    ptr_get c3 y (3 * x) = Some v0 /\
    ptr_get c3 y (3 * x + 1) = Some v1 /\
    ptr_get c3 y (3 * x + 2) = Some v2.
Proof.
  intros Hw Hy Hx.
  destruct (ptr_set_defined 3 c y (3 * x) v0 Hw Hy) as (c1 & H1); [lia|].
  destruct (ptr_set_wf 3 c c1 y (3 * x) v0 Hw H1) as (Hw1 & Hr1 & Hc1).
  destruct (ptr_set_defined 3 c1 y (3 * x + 1) v1 Hw1) as (c2 & H2); [lia | lia |].
  destruct (ptr_set_wf 3 c1 c2 y (3 * x + 1) v1 Hw1 H2) as (Hw2 & Hr2 & Hc2).
  destruct (ptr_set_defined 3 c2 y (3 * x + 2) v2 Hw2) as (c3 & H3); [lia | lia |].
  destruct (ptr_set_wf 3 c2 c3 y (3 * x + 2) v2 Hw2 H3) as (Hw3 & Hr3 & Hc3).
  assert (Hother : forall (a b : Mat A) (j : Z) (v : A) (y' j' : Z),
            ptr_set a y j v = Some b -> ~ (y' = y /\ j' = j) ->
            ptr_get b y' j' = ptr_get a y' j').
  { intros a b j v y' j' Hs Hn. apply (ptr_get_set_other _ _ _ _ y' j' _ Hs).
    intros E. injection E as E1 E2. apply Hn. split; assumption. }
  exists c1, c2, c3.
  split; [exact H1|]. split; [exact H2|]. split; [exact H3|].
  split; [apply (Hother _ _ _ _ _ _ H1); lia|].
  split; [rewrite (Hother _ _ _ _ _ _ H2) by lia; apply (Hother _ _ _ _ _ _ H1); lia|].
  split; [exact Hw3|]. split; [congruence|]. split; [congruence|].
  split; [|split; [|split]].
  - intros y' j Hn.
    rewrite (Hother _ _ _ _ _ _ H3) by lia.
    rewrite (Hother _ _ _ _ _ _ H2) by lia.
    apply (Hother _ _ _ _ _ _ H1). lia.
  - rewrite (Hother _ _ _ _ _ _ H3) by lia.
    rewrite (Hother _ _ _ _ _ _ H2) by lia.
    apply (ptr_get_set_same _ _ _ _ _ H1).
  - rewrite (Hother _ _ _ _ _ _ H3) by lia.
    apply (ptr_get_set_same _ _ _ _ _ H2).
  - apply (ptr_get_set_same _ _ _ _ _ H3).
Qed.

Section ChannelFacts.
Import Num Compositor.

(** The three statements of a branch on a pixel whose indices are
    values of [int], and on one whose last index overflows. *)
Lemma onChannels_indexed (update : Z -> Mat Z -> option (Mat Z)) (x : Z) (c : Mat Z) :
  0 <= x -> 3 * x + 2 <= INT_MAX ->
  onChannels update x c =
  (do c1 <- update (3 * x) c; do c2 <- update (3 * x + 1) c1; update (3 * x + 2) c2).
Proof.
  intros Hx Hb. unfold onChannels.
  rewrite (elemIndex_defined 3 x 0), (elemIndex_defined 3 x 1), (elemIndex_defined 3 x 2)
    by (try right; lia).
  cbn [bind]. replace (3 * x + 0) with (3 * x) by lia. reflexivity.
Qed.

Lemma onChannels_overflow (update : Z -> Mat Z -> option (Mat Z)) (x : Z) (c : Mat Z) :
  0 <= x -> INT_MAX < 3 * x + 2 -> onChannels update x c = None.
Proof.
  intros Hx Hb. unfold onChannels.
  destruct (elemIndex 3 x 0) as [i0|]; [|reflexivity]. cbn [bind].
  destruct (update i0 c) as [c1|]; [|reflexivity]. cbn [bind].
  destruct (elemIndex 3 x 1) as [i1|]; [|reflexivity]. cbn [bind].
  destruct (update i1 c1) as [c2|]; [|reflexivity]. cbn [bind].
  rewrite (elemIndex_overflow x 2) by lia. reflexivity.
Qed.

End ChannelFacts.

Section CompositorFacts.
Import Num Compositor Outcome.
Variables newImage canvas : Mat Z.
Variables newMask canvasMask : Mat float.
Hypothesis HwfN : wf_Mat 3 newImage.
Hypothesis HwfC : wf_Mat 3 canvas.
Hypothesis HwfMN : wf_Mat 1 newMask.
Hypothesis HwfMC : wf_Mat 1 canvasMask.
Hypothesis HrN : rows newImage = rows canvas.
Hypothesis HcN : cols newImage = cols canvas.
Hypothesis HrMN : rows newMask = rows canvas.
Hypothesis HcMN : cols newMask = cols canvas.
Hypothesis HrMC : rows canvasMask = rows canvas.
Hypothesis HcMC : cols canvasMask = cols canvas.

(** The body of the loops on a canvas whose pixel [(x, y)] is still the
    one the call received: on an indexable row it is undefined exactly
    when a channel of [blendedAt] is, and whenever it is defined it
    writes the three channels of [blendedAt] and nothing else. *)
Lemma blendPixel_spec (y x : Z) (c : Mat Z) :
  0 <= y < rows canvas -> 0 <= x < cols canvas ->
  wf_Mat 3 c -> rows c = rows canvas -> cols c = cols canvas ->
  (forall k, 0 <= k < 3 -> ptr_get c y (3 * x + k) = ptr_get canvas y (3 * x + k)) ->
  (3 * cols canvas <= INT_MAX ->
   (forall k, 0 <= k < 3 ->
      exists v, blendedAt newImage canvas newMask canvasMask y x k = Some v) ->
   exists c', blendPixel newImage newMask canvasMask y x c = Some c') /\
  (forall c', blendPixel newImage newMask canvasMask y x c = Some c' ->
     wf_Mat 3 c' /\ rows c' = rows canvas /\ cols c' = cols canvas /\
     (forall y' j, ~ (y' = y /\ 3 * x <= j < 3 * x + 3) ->
        ptr_get c' y' j = ptr_get c y' j) /\
     forall k, 0 <= k < 3 ->
       ptr_get c' y (3 * x + k) = blendedAt newImage canvas newMask canvasMask y x k).
Proof.
  intros Hy Hx Hwc Hrc Hcc Hagree.
  pose proof (Hagree 0 ltac:(lia)) as A0.
  replace (3 * x + 0) with (3 * x) in A0 by lia.
  pose proof (Hagree 1 ltac:(lia)) as A1.
  pose proof (Hagree 2 ltac:(lia)) as A2.
  destruct (ptr_get_defined 3 canvas y (3 * x) HwfC) as (c0 & Hc0); [lia | lia |].
  destruct (ptr_get_defined 3 canvas y (3 * x + 1) HwfC) as (c1 & Hc1); [lia | lia |].
  destruct (ptr_get_defined 3 canvas y (3 * x + 2) HwfC) as (c2 & Hc2); [lia | lia |].
  destruct (ptr_get_defined 3 newImage y (3 * x) HwfN) as (n0 & Hn0); [lia | lia |].
  destruct (ptr_get_defined 3 newImage y (3 * x + 1) HwfN) as (n1 & Hn1); [lia | lia |].
  destruct (ptr_get_defined 3 newImage y (3 * x + 2) HwfN) as (n2 & Hn2); [lia | lia |].
  destruct (ptr_get_defined 1 newMask y x HwfMN) as (aN & HaN); [lia | lia |].
  destruct (ptr_get_defined 1 canvasMask y x HwfMC) as (aC & HaC); [lia | lia |].
  rewrite Hc0 in A0. rewrite Hc1 in A1. rewrite Hc2 in A2.
  (* the three channels of [blendedAt] *)
  assert (B : forall k ck nk,
            ptr_get canvas y (3 * x + k) = Some ck ->
            ptr_get newImage y (3 * x + k) = Some nk ->
            blendedAt newImage canvas newMask canvasMask y x k =
            if negb (c0 =? 0) && negb (n0 =? 0) then feather aN aC nk ck
            else if negb (c0 >? 0) then Some nk else Some ck).
  { intros k ck nk Hck Hnk. unfold blendedAt.
    rewrite Hc0, Hn0, Hck, Hnk. cbn [bind].
    destruct (negb (c0 =? 0) && negb (n0 =? 0)); [|reflexivity].
    rewrite HaN, HaC. reflexivity. }
  assert (B0 := B 0 c0 n0). assert (B1 := B 1 c1 n1 Hc1 Hn1).
  assert (B2 := B 2 c2 n2 Hc2 Hn2).
  replace (3 * x + 0) with (3 * x) in B0 by lia. specialize (B0 Hc0 Hn0).
  assert (Hk : forall (P : Z -> Prop), P 0 -> P 1 -> P 2 -> forall k, 0 <= k < 3 -> P k).
  { intros P P0 P1 P2 k Hk.
    assert (E : k = 0 \/ k = 1 \/ k = 2) by lia.
    destruct E as [-> | [-> | ->]]; assumption. }
  (* the pixel whose last index overflows: nothing can be written *)
  destruct (Z_le_gt_dec (3 * x + 2) INT_MAX) as [Hfit|Hover].
  2:{ split; [intros Hb; exfalso; lia|].
      unfold blendPixel.
      destruct (elemIndex 3 x 0) as [i0|] eqn:E0; [|discriminate].
      apply elemIndex_value in E0; [|lia].
      replace (3 * x + 0) with (3 * x) in E0 by lia. subst i0.
      cbn [bind]. rewrite A0. cbn [bind].
      destruct (negb (c0 =? 0)) eqn:Ec0; cbn [andb] in B0, B1, B2.
      - rewrite Hn0. cbn [bind].
        destruct (negb (n0 =? 0)) eqn:En0.
        + rewrite HaN, HaC. cbn [bind].
          rewrite onChannels_overflow by lia. discriminate.
        + destruct (negb (c0 >? 0)) eqn:Eg.
          * rewrite onChannels_overflow by lia. discriminate.
          * intros c' E. injection E as <-.
            split; [exact Hwc|]. split; [exact Hrc|]. split; [exact Hcc|].
            split; [reflexivity|].
            apply Hk.
            -- replace (3 * x + 0) with (3 * x) by lia. rewrite A0.
               transitivity (blendedAt newImage canvas newMask canvasMask y x 0);
                 [rewrite B0; reflexivity | reflexivity].
            -- rewrite A1, B1. reflexivity.
            -- rewrite A2, B2. reflexivity.
      - cbn [bind].
        assert (Eg : negb (c0 >? 0) = true).
        { apply negb_false_iff in Ec0. apply Z.eqb_eq in Ec0. subst c0. reflexivity. }
        rewrite Eg. rewrite onChannels_overflow by lia. discriminate. }
  (* the body, with the indices and the reads resolved *)
  assert (E0 : elemIndex 3 x 0 = Some (3 * x)).
  { rewrite (elemIndex_defined 3 x 0) by (try right; lia). f_equal. lia. }
  unfold blendPixel. rewrite E0. cbn [bind]. rewrite A0. cbn [bind].
  destruct (negb (c0 =? 0)) eqn:Ec0; cbn [andb] in B0, B1, B2.
  - rewrite Hn0. cbn [bind].
    destruct (negb (n0 =? 0)) eqn:En0.
    + (* the feather region *)
      rewrite HaN, HaC. cbn [bind].
      rewrite onChannels_indexed by lia.
      unfold featherChannel.
      rewrite Hn0, A0. cbn [bind].
      destruct (feather aN aC n0 c0) as [v0|] eqn:F0.
      2:{ split.
          - intros _ HT. destruct (HT 0 ltac:(lia)) as (v & Hv).
            rewrite B0 in Hv. discriminate.
          - cbn [bind]. discriminate. }
      cbn [bind].
      destruct (feather aN aC n1 c1) as [v1|] eqn:F1.
      2:{ destruct (write_pixel3 c y x v0 v0 v0 Hwc ltac:(lia) ltac:(lia))
            as (d1 & _ & _ & H1 & _ & _ & G1 & _).
          rewrite H1. cbn [bind]. rewrite Hn1, G1, A1. cbn [bind]. rewrite F1.
          split.
          - intros _ HT. destruct (HT 1 ltac:(lia)) as (v & Hv).
            rewrite B1 in Hv. discriminate.
          - cbn [bind]. discriminate. }
      destruct (feather aN aC n2 c2) as [v2|] eqn:F2.
      2:{ destruct (write_pixel3 c y x v0 v1 v1 Hwc ltac:(lia) ltac:(lia))
            as (d1 & d2 & _ & H1 & H2 & _ & G1 & G2 & _).
          rewrite H1. cbn [bind]. rewrite Hn1, G1, A1. cbn [bind]. rewrite F1.
          cbn [bind]. rewrite H2. cbn [bind]. rewrite Hn2, G2, A2. cbn [bind].
          rewrite F2.
          split.
          - intros _ HT. destruct (HT 2 ltac:(lia)) as (v & Hv).
            rewrite B2 in Hv. discriminate.
          - cbn [bind]. discriminate. }
      destruct (write_pixel3 c y x v0 v1 v2 Hwc ltac:(lia) ltac:(lia))
        as (d1 & d2 & d3 & H1 & H2 & H3 & G1 & G2 & Hw3 & Hr3 & Hcl3 & Hfr & S0 & S1 & S2).
      rewrite H1. cbn [bind]. rewrite Hn1, G1, A1. cbn [bind]. rewrite F1.
      cbn [bind]. rewrite H2. cbn [bind]. rewrite Hn2, G2, A2. cbn [bind].
      rewrite F2. cbn [bind]. rewrite H3.
      split; [intros _ _; exists d3; reflexivity|].
      intros c' E. injection E as <-.
      split; [exact Hw3|]. split; [congruence|]. split; [congruence|].
      split; [exact Hfr|].
      apply Hk.
      * replace (3 * x + 0) with (3 * x) by lia.
        rewrite S0.
        transitivity (blendedAt newImage canvas newMask canvasMask y x 0);
          [rewrite B0; reflexivity | reflexivity].
      * rewrite S1, B1. reflexivity.
      * rewrite S2, B2. reflexivity.
    + (* content in the canvas only: nothing is written *)
      assert (Epos : negb (c0 >? 0) = negb (c0 >? 0)) by reflexivity.
      destruct (negb (c0 >? 0)) eqn:Eg.
      * (* a negative channel: not a value of [uchar], copied as line 519 says *)
        rewrite onChannels_indexed by lia.
        unfold copyChannel. rewrite Hn0. cbn [bind].
        destruct (write_pixel3 c y x n0 n1 n2 Hwc ltac:(lia) ltac:(lia))
          as (d1 & d2 & d3 & H1 & H2 & H3 & G1 & G2 & Hw3 & Hr3 & Hcl3 & Hfr & S0 & S1 & S2).
        rewrite H1. cbn [bind]. rewrite Hn1. cbn [bind]. rewrite H2. cbn [bind].
        rewrite Hn2. cbn [bind]. rewrite H3.
        split; [intros _ _; exists d3; reflexivity|].
        intros c' E. injection E as <-.
        split; [exact Hw3|]. split; [congruence|]. split; [congruence|].
        split; [exact Hfr|].
        apply Hk.
        -- replace (3 * x + 0) with (3 * x) by lia.
           rewrite S0.
           transitivity (blendedAt newImage canvas newMask canvasMask y x 0);
             [rewrite B0; reflexivity | reflexivity].
        -- rewrite S1, B1. reflexivity.
        -- rewrite S2, B2. reflexivity.
      * split; [intros _ _; exists c; reflexivity|].
        intros c' E. injection E as <-.
        split; [exact Hwc|]. split; [exact Hrc|]. split; [exact Hcc|].
        split; [reflexivity|].
        apply Hk.
        -- replace (3 * x + 0) with (3 * x) by lia. rewrite A0.
           transitivity (blendedAt newImage canvas newMask canvasMask y x 0);
             [rewrite B0; reflexivity | reflexivity].
        -- rewrite A1, B1. reflexivity.
        -- rewrite A2, B2. reflexivity.
  - (* an empty canvas pixel: the new pixel is copied *)
    cbn [bind].
    assert (Eg : negb (c0 >? 0) = true).
    { apply negb_false_iff in Ec0. apply Z.eqb_eq in Ec0. subst c0. reflexivity. }
    rewrite Eg in *.
    rewrite onChannels_indexed by lia.
        unfold copyChannel. rewrite Hn0. cbn [bind].
    destruct (write_pixel3 c y x n0 n1 n2 Hwc ltac:(lia) ltac:(lia))
      as (d1 & d2 & d3 & H1 & H2 & H3 & G1 & G2 & Hw3 & Hr3 & Hcl3 & Hfr & S0 & S1 & S2).
    rewrite H1. cbn [bind]. rewrite Hn1. cbn [bind]. rewrite H2. cbn [bind].
    rewrite Hn2. cbn [bind]. rewrite H3.
    split; [intros _ _; exists d3; reflexivity|].
    intros c' E. injection E as <-.
    split; [exact Hw3|]. split; [congruence|]. split; [congruence|].
    split; [exact Hfr|].
    apply Hk.
    + replace (3 * x + 0) with (3 * x) by lia.
      rewrite S0.
      transitivity (blendedAt newImage canvas newMask canvasMask y x 0);
        [rewrite B0; reflexivity | reflexivity].
    + rewrite S1, B1. reflexivity.
    + rewrite S2, B2. reflexivity.
Qed.

(** The loops of [blend], from the body. *)
Lemma blend_spec :
  (3 * cols canvas <= INT_MAX ->
   (forall y x k, 0 <= y < rows canvas -> 0 <= x < cols canvas -> 0 <= k < 3 ->
      exists v, blendedAt newImage canvas newMask canvasMask y x k = Some v) ->
   exists canvas', blend newImage canvas newMask canvasMask = Some (0, canvas')) /\
  (forall status canvas',
     blend newImage canvas newMask canvasMask = Some (status, canvas') ->
     status = 0 /\ wf_Mat 3 canvas' /\
     rows canvas' = rows canvas /\ cols canvas' = cols canvas /\
     forall y x k, 0 <= y < rows canvas -> 0 <= x < cols canvas -> 0 <= k < 3 ->
       ptr_get canvas' y (3 * x + k) =
       blendedAt newImage canvas newMask canvasMask y x k).
Proof.
  assert (Hsize : same_size newImage canvas = true).
  { unfold same_size. rewrite HrN, HcN, !Z.eqb_refl. reflexivity. }
  destruct (pixel_loops 3 (fun y x c => blendPixel newImage newMask canvasMask y x c)
              canvas
              (3 * cols canvas <= INT_MAX /\
               forall y x k, 0 <= y < rows canvas -> 0 <= x < cols canvas -> 0 <= k < 3 ->
                 exists v, blendedAt newImage canvas newMask canvasMask y x k = Some v)
              (fun y x c => forall k, 0 <= k < 3 ->
                 ptr_get c y (3 * x + k) =
                 blendedAt newImage canvas newMask canvasMask y x k))
    as (Hdef & Hend).
  - intros y x c1 c2 Hsame HQ k Hk. rewrite Hsame by exact Hk. apply HQ. exact Hk.
  - intros y x c Hy Hx Hwc Hrc Hcc Hagree.
    destruct (blendPixel_spec y x c Hy Hx Hwc Hrc Hcc Hagree) as (Hd & Hk).
    split; [|exact Hk].
    intros (Hb & HT). apply Hd; [exact Hb|]. intros k Hk'. apply HT; assumption.
  - exact HwfC.
  - unfold blend. rewrite Hsize. cbn [negb]. split.
    + intros Hb HT. destruct (Hdef (conj Hb HT)) as (cF & HcF). rewrite HcF.
      exists cF. reflexivity.
    + intros status canvas'.
      destruct (for_range 0 (rows canvas)
                  (fun y c => for_range 0 (cols canvas)
                     (fun x c' => blendPixel newImage newMask canvasMask y x c') c)
                  canvas) as [cF|] eqn:E; [|discriminate].
      cbn [bind]. intros Hs. injection Hs as <- <-.
      destruct (Hend cF eq_refl) as (Hw & Hr & Hc & HQ).
      split; [reflexivity|]. split; [exact Hw|].
      split; [exact Hr|]. split; [exact Hc|].
      intros y x k Hy Hx Hk. apply HQ; assumption.
Qed.

End CompositorFacts.

Section CompositorProperties.
Import Num Compositor Outcome.

(** X15.  When [blend] returns on images and masks of one size, it returns 0,
    the canvas keeps its size, and the channel [k] of every pixel
    [(x, y)] is the value [blendedAt] computes from the pixel [(x, y)] of
    the four inputs alone: no pixel depends on another one. *)
Theorem blend_is_pixelwise
  (newImage canvas : Mat Z) (newMask canvasMask : Mat float)
  (status : Z) (canvas' : Mat Z) :
  wf_Mat 3 newImage -> wf_Mat 3 canvas -> wf_Mat 1 newMask -> wf_Mat 1 canvasMask ->
  rows newImage = rows canvas -> cols newImage = cols canvas ->
  rows newMask = rows canvas -> cols newMask = cols canvas ->
  rows canvasMask = rows canvas -> cols canvasMask = cols canvas ->
  blend newImage canvas newMask canvasMask = Some (status, canvas') ->
  status = 0 /\ wf_Mat 3 canvas' /\
  rows canvas' = rows canvas /\ cols canvas' = cols canvas /\
  forall y x k, 0 <= y < rows canvas -> 0 <= x < cols canvas -> 0 <= k < 3 ->
    ptr_get canvas' y (3 * x + k) = blendedAt newImage canvas newMask canvasMask y x k.
Proof.
  intros HwN HwC HwMN HwMC HrN HcN HrMN HcMN HrMC HcMC Hb.
  destruct (blend_spec newImage canvas newMask canvasMask
              HwN HwC HwMN HwMC HrN HcN HrMN HcMN HrMC HcMC) as (_ & H).
  apply H. exact Hb.
Qed.

(** X16.  Where no pixel has content on both sides and every index
    [3*x + k] of a row is a value of [int], [blend] is defined whatever
    the masks hold: a canvas pixel whose channel 0 is positive is kept,
    any other canvas pixel takes the three channels of the new pixel,
    also when its other channels held content. *)
Theorem blend_without_overlap
  (newImage canvas : Mat Z) (newMask canvasMask : Mat float) :
  wf_Mat 3 newImage -> wf_Mat 3 canvas -> wf_Mat 1 newMask -> wf_Mat 1 canvasMask ->
  rows newImage = rows canvas -> cols newImage = cols canvas ->
  rows newMask = rows canvas -> cols newMask = cols canvas ->
  rows canvasMask = rows canvas -> cols canvasMask = cols canvas ->
  3 * cols canvas <= INT_MAX ->
  noOverlap newImage canvas ->
  exists canvas',
    blend newImage canvas newMask canvasMask = Some (0, canvas') /\
    forall y x k, 0 <= y < rows canvas -> 0 <= x < cols canvas -> 0 <= k < 3 ->
      exists c0 ck nk,
        ptr_get canvas y (3 * x) = Some c0 /\
        ptr_get canvas y (3 * x + k) = Some ck /\
        ptr_get newImage y (3 * x + k) = Some nk /\
        ptr_get canvas' y (3 * x + k) = Some (if c0 >? 0 then ck else nk).
Proof.
  intros HwN HwC HwMN HwMC HrN HcN HrMN HcMN HrMC HcMC Hfit Hno.
  assert (Hval : forall y x k,
            0 <= y < rows canvas -> 0 <= x < cols canvas -> 0 <= k < 3 ->
            exists c0 ck nk,
              ptr_get canvas y (3 * x) = Some c0 /\
              ptr_get canvas y (3 * x + k) = Some ck /\
              ptr_get newImage y (3 * x + k) = Some nk /\
              blendedAt newImage canvas newMask canvasMask y x k =
                Some (if c0 >? 0 then ck else nk)).
  { intros y x k Hy Hx Hk.
    destruct (ptr_get_defined 3 canvas y (3 * x) HwC) as (c0 & Hc0); [lia | lia |].
    destruct (ptr_get_defined 3 newImage y (3 * x) HwN) as (n0 & Hn0); [lia | lia |].
    destruct (ptr_get_defined 3 canvas y (3 * x + k) HwC) as (ck & Hck); [lia | lia |].
    destruct (ptr_get_defined 3 newImage y (3 * x + k) HwN) as (nk & Hnk); [lia | lia |].
    exists c0, ck, nk. split; [exact Hc0|]. split; [exact Hck|]. split; [exact Hnk|].
    unfold blendedAt. rewrite Hc0, Hn0, Hck, Hnk. cbn [bind].
    assert (Hflag : negb (c0 =? 0) && negb (n0 =? 0) = false).
    { destruct (Hno y x c0 n0 Hc0 Hn0) as [-> | ->]; cbn.
      - reflexivity.
      - apply andb_false_r. }
    rewrite Hflag. destruct (c0 >? 0); reflexivity. }
  destruct (blend_spec newImage canvas newMask canvasMask
              HwN HwC HwMN HwMC HrN HcN HrMN HcMN HrMC HcMC) as (Hdef & Hend).
  destruct (Hdef Hfit) as (canvas' & Hb).
  { intros y x k Hy Hx Hk.
    destruct (Hval y x k Hy Hx Hk) as (c0 & ck & nk & _ & _ & _ & Hv).
    eexists. exact Hv. }
  exists canvas'. split; [exact Hb|].
  intros y x k Hy Hx Hk.
  destruct (Hend 0 canvas' Hb) as (_ & _ & _ & _ & Hget).
  destruct (Hval y x k Hy Hx Hk) as (c0 & ck & nk & H0 & H1 & H2 & Hv).
  exists c0, ck, nk. split; [exact H0|]. split; [exact H1|]. split; [exact H2|].
  rewrite (Hget y x k Hy Hx Hk). exact Hv.
Qed.

End CompositorProperties.

(** *** More on the consensus search *)

Section VoteFacts.
Import Num Estimator Outcome.
Variable ms : list DMatch.
Variables k1 k2 : list KeyPoint.

(** The inner loop from the pair [i] on: the flags stay 0 or 1, every
    pair other than the reference adds at most 1 to [concensus], and a
    pair within the tolerance on both axes adds 1. *)
Lemma countLoop_bounds (f : Z) (xT yT : float) :
  forall (n : nat) (i : Z) (q q' : Quality),
    forM n i (checkFeature ms k1 k2 f xT yT) q = Some q' ->
    ((xQual q = 0 \/ xQual q = 1) -> (xQual q' = 0 \/ xQual q' = 1)) /\
    ((yQual q = 0 \/ yQual q = 1) -> (yQual q' = 0 \/ yQual q' = 1)) /\
    concensus q + specCountFrom ms k1 k2 f xT yT n i <= concensus q' /\
    concensus q' <= concensus q + Z.of_nat n
                    - (if (i <=? f) && (f <? i + Z.of_nat n) then 1 else 0).
Proof.
  induction n as [|n IH]; intros i q q' H.
  - cbn in H. injection H as <-. cbn [specCountFrom].
    split; [auto|]. split; [auto|].
    destruct ((i <=? f) && (f <? i + Z.of_nat 0)) eqn:E.
    + apply andb_prop in E. destruct E as (E1 & E2).
      apply Z.leb_le in E1. apply Z.ltb_lt in E2. lia.
    + lia.
  - cbn [forM] in H.
    destruct (checkFeature ms k1 k2 f xT yT i q) as [q1|] eqn:Hq1; [|discriminate].
    destruct (IH (i + 1) q1 q' H) as (Hx & Hy & Hlo & Hhi).
    cbn [specCountFrom].
    assert (Hstep :
      ((xQual q = 0 \/ xQual q = 1) -> (xQual q1 = 0 \/ xQual q1 = 1)) /\
      ((yQual q = 0 \/ yQual q = 1) -> (yQual q1 = 0 \/ yQual q1 = 1)) /\
      concensus q
        + (if i =? f then 0
           else match translationOf ms k1 k2 i with
                | Some e => if consistentWith xT yT e then 1 else 0
                | None => 0
                end) <= concensus q1 /\
      concensus q1 <= concensus q + (if i =? f then 0 else 1)).
    { unfold checkFeature in Hq1. destruct (i =? f) eqn:Eif.
      - injection Hq1 as <-. split; [auto|]. split; [auto|]. lia.
      - destruct (translationOf ms k1 k2 i) as [e|]; [|discriminate].
        cbn [bind] in Hq1. injection Hq1 as <-. cbn [xQual yQual concensus].
        unfold consistentWith.
        destruct (PrimFloat.ltb (PrimFloat.abs (PrimFloat.sub xT (fst e))) tolerance);
          destruct (PrimFloat.ltb (PrimFloat.abs (PrimFloat.sub yT (snd e))) tolerance);
          cbn [andb negb Z.eqb];
          (split; [auto|]); (split; [auto|]);
          destruct (negb (xQual q =? 0)); destruct (negb (yQual q =? 0));
          cbn [andb]; lia. }
    destruct Hstep as (Sx & Sy & Slo & Shi).
    split; [auto|]. split; [auto|]. split; [lia|].
    assert (Hind :
      (if (i <=? f) && (f <? i + Z.of_nat (S n)) then 1 else 0) =
      (if i =? f then 1 else 0)
      + (if (i + 1 <=? f) && (f <? i + 1 + Z.of_nat n) then 1 else 0)).
    { destruct (i =? f) eqn:E1; [apply Z.eqb_eq in E1 | apply Z.eqb_neq in E1];
      destruct ((i <=? f) && (f <? i + Z.of_nat (S n))) eqn:E2;
      destruct ((i + 1 <=? f) && (f <? i + 1 + Z.of_nat n)) eqn:E3;
      try reflexivity; exfalso;
      repeat match goal with
             | H : _ && _ = true |- _ =>
                 apply andb_prop in H; destruct H as (?H & ?H)
             | H : _ && _ = false |- _ =>
                 apply andb_false_iff in H; destruct H as [?H | ?H]
             | H : (_ <=? _) = true |- _ => apply Z.leb_le in H
             | H : (_ <=? _) = false |- _ => apply Z.leb_gt in H
             | H : (_ <? _) = true |- _ => apply Z.ltb_lt in H
             | H : (_ <? _) = false |- _ => apply Z.ltb_ge in H
             end; lia. }
    rewrite Hind. destruct (i =? f); lia.
Qed.

(** When every pair other than the reference is within the tolerance on
    both axes, the count of the specification is the number of pairs
    from [i] on other than the reference. *)
Lemma specCountFrom_all (f : Z) (xT yT : float) :
  (forall j, 0 <= j < Z.of_nat (length ms) -> j <> f ->
     exists e, translationOf ms k1 k2 j = Some e /\ consistentWith xT yT e = true) ->
  forall (n : nat) (i : Z),
    0 <= i -> i + Z.of_nat n <= Z.of_nat (length ms) ->
    specCountFrom ms k1 k2 f xT yT n i =
    Z.of_nat n - (if (i <=? f) && (f <? i + Z.of_nat n) then 1 else 0).
Proof.
  intros Hall. induction n as [|n IH]; intros i Hi Hn.
  - cbn [specCountFrom].
    destruct ((i <=? f) && (f <? i + Z.of_nat 0)) eqn:E; [|reflexivity].
    apply andb_prop in E. destruct E as (E1 & E2).
    apply Z.leb_le in E1. apply Z.ltb_lt in E2. lia.
  - cbn [specCountFrom]. rewrite IH by lia.
    assert (Hind :
      (if (i <=? f) && (f <? i + Z.of_nat (S n)) then 1 else 0) =
      (if i =? f then 1 else 0)
      + (if (i + 1 <=? f) && (f <? i + 1 + Z.of_nat n) then 1 else 0)).
    { destruct (i =? f) eqn:E1; [apply Z.eqb_eq in E1 | apply Z.eqb_neq in E1];
      destruct ((i <=? f) && (f <? i + Z.of_nat (S n))) eqn:E2;
      destruct ((i + 1 <=? f) && (f <? i + 1 + Z.of_nat n)) eqn:E3;
      try reflexivity; exfalso;
      repeat match goal with
             | H : _ && _ = true |- _ =>
                 apply andb_prop in H; destruct H as (?H & ?H)
             | H : _ && _ = false |- _ =>
                 apply andb_false_iff in H; destruct H as [?H | ?H]
             | H : (_ <=? _) = true |- _ => apply Z.leb_le in H
             | H : (_ <=? _) = false |- _ => apply Z.leb_gt in H
             | H : (_ <? _) = true |- _ => apply Z.ltb_lt in H
             | H : (_ <? _) = false |- _ => apply Z.ltb_ge in H
             end; lia. }
    rewrite Hind.
    destruct (i =? f) eqn:E; [lia|]. apply Z.eqb_neq in E.
    destruct (Hall i ltac:(lia) E) as (e & He & Hc). rewrite He, Hc. lia.
Qed.

End VoteFacts.

Section SearchFacts.
Import Num Estimator Outcome.
Variable ms : list DMatch.
Variables k1 k2 : list KeyPoint.

(** A trial either raises the maximum to its own votes and records its
    truncated translation, or leaves the maximum and the best values. *)
Lemma trialWith_votes (f : Z) (s s1 : Search) :
  trialWith ms k1 k2 f s = Some s1 ->
  exists v, votes ms k1 k2 f = Some v /\
    translationOf ms k1 k2 f = Some (xTrans s1, yTrans s1) /\
    ((maxConcensus s < v /\ maxConcensus s1 = v /\
      truncatedTranslation ms k1 k2 f = Some (bestX s1, bestY s1)) \/
     (v <= maxConcensus s /\ maxConcensus s1 = maxConcensus s /\
      bestX s1 = bestX s /\ bestY s1 = bestY s)).
Proof.
  unfold trialWith, votes, truncatedTranslation.
  destruct (translationOf ms k1 k2 f) as [[xT yT]|]; [|discriminate].
  cbn [bind fst snd].
  destruct (countConcensus ms k1 k2 f xT yT) as [q|]; [|discriminate].
  cbn [bind].
  destruct (concensus q >? maxConcensus s) eqn:E.
  - apply Z.gtb_lt in E.
    destruct (d2i xT) as [bX|]; [|discriminate]. cbn [bind].
    destruct (d2i yT) as [bY|]; [|discriminate]. cbn [bind].
    intros H. injection H as <-. cbn [xTrans yTrans maxConcensus bestX bestY].
    exists (concensus q). split; [reflexivity|]. split; [reflexivity|].
    left. split; [lia|]. split; reflexivity.
  - assert (concensus q <= maxConcensus s).
    { destruct (Z.gtb_spec (concensus q) (maxConcensus s)); [discriminate | lia]. }
    intros H'. injection H' as <-. cbn [xTrans yTrans maxConcensus bestX bestY].
    exists (concensus q). split; [reflexivity|]. split; [reflexivity|].
    right. split; [lia|]. split; [reflexivity|]. split; reflexivity.
Qed.

(** The search over a sequence of reference pairs keeps the first pair
    of the sequence whose votes exceed the maximum so far and are not
    exceeded later. *)
Lemma searchOver_first_best (fs : list Z) :
  forall s s',
    searchOver ms k1 k2 fs s = Some s' ->
    maxConcensus s <= maxConcensus s' /\
    Forall (fun f => exists v, votes ms k1 k2 f = Some v /\ v <= maxConcensus s') fs /\
    ((maxConcensus s' = maxConcensus s /\ bestX s' = bestX s /\ bestY s' = bestY s) \/
     (exists pre f post,
        fs = pre ++ f :: post /\
        maxConcensus s < maxConcensus s' /\
        votes ms k1 k2 f = Some (maxConcensus s') /\
        Forall (fun f' => exists v, votes ms k1 k2 f' = Some v /\ v < maxConcensus s') pre /\
        truncatedTranslation ms k1 k2 f = Some (bestX s', bestY s'))).
Proof.
  induction fs as [|f rest IH]; intros s s' H.
  - cbn in H. injection H as <-.
    split; [lia|]. split; [constructor|]. left. repeat split.
  - cbn [searchOver] in H.
    destruct (trialWith ms k1 k2 f s) as [s1|] eqn:Hs1; [|discriminate].
    destruct (trialWith_votes f s s1 Hs1) as (v & Hv & _ & Hcase).
    destruct (IH s1 s' H) as (Hle & Hall & Hrest).
    assert (Hv1 : v <= maxConcensus s1 /\ maxConcensus s <= maxConcensus s1).
    { destruct Hcase as [(? & ? & _) | (? & ? & _)]; lia. }
    split; [lia|]. split.
    { constructor; [|exact Hall]. exists v. split; [exact Hv | lia]. }
    destruct Hrest as [(E1 & E2 & E3) | (pre & f' & post & Efs & Hlt & Hvf & Hpre & Htr)].
    + destruct Hcase as [(Hlt & Hmax & Htr) | (Hge & Hmax & Hbx & Hby)].
      * right. exists [], f, rest.
        split; [reflexivity|]. split; [lia|].
        split; [rewrite Hv; f_equal; lia|].
        split; [constructor|]. rewrite E2, E3. exact Htr.
      * left. split; [lia|]. split; congruence.
    + right. exists (f :: pre), f', post.
      split; [rewrite Efs; reflexivity|]. split; [lia|]. split; [exact Hvf|].
      split; [|exact Htr].
      constructor; [|exact Hpre]. exists v. split; [exact Hv | lia].
Qed.

End SearchFacts.

Section FloatDifferences.
Import Num.

(** A [double] that converts to an integer type is a zero or a finite
    number. *)
Lemma d2range_finite (lo hi : Z) (x : float) (z : Z) :
  d2range lo hi x = Some z ->
  (exists s, Prim2SF x = S754_zero s) \/ (exists s m e, Prim2SF x = S754_finite s m e).
Proof.
  unfold d2range. destruct (Prim2SF x) as [s|s| |s m e]; cbn [trunc_SF]; try discriminate.
  - intros _. left. exists s. reflexivity.
  - intros _. right. exists s, m, e. reflexivity.
Qed.

(** [x - x] is [+0] for a zero or a finite number. *)
Lemma sub_self (x : float) :
  (exists s, Prim2SF x = S754_zero s) \/ (exists s m e, Prim2SF x = S754_finite s m e) ->
  PrimFloat.sub x x = 0%float.
Proof.
  intros Hx. apply Prim2SF_eq. rewrite FloatAxioms.sub_spec.
  destruct Hx as [(s & ->) | (s & m & e & ->)].
  - destruct s; reflexivity.
  - unfold SF64sub, SFsub. rewrite Z.sub_diag. reflexivity.
Qed.

Lemma self_within_tolerance (x : float) (z : Z) :
  d2i x = Some z ->
  PrimFloat.ltb (PrimFloat.abs (PrimFloat.sub x x)) Estimator.tolerance = true.
Proof.
  intros H. rewrite (sub_self x (d2range_finite _ _ _ _ H)). reflexivity.
Qed.

End FloatDifferences.

Section SearchProperties.
Import Num Estimator Outcome.

(** X10.  The inner loop of a trial (lines 415-438) on valid matches: it ends
    with flags that are 0 or 1 and with a count that is at least the
    number of pairs within the tolerance of the hypothesis on both axes
    and at most the number of pairs other than the reference one. *)
Theorem countConcensus_between (ms : list DMatch) (k1 k2 : list KeyPoint)
  (featureNumber : Z) (xT yT : float) :
  validMatches ms k1 k2 ->
  0 <= featureNumber < Z.of_nat (length ms) ->
  exists q,
    countConcensus ms k1 k2 featureNumber xT yT = Some q /\
    (xQual q = 0 \/ xQual q = 1) /\ (yQual q = 0 \/ yQual q = 1) /\
    specCount ms k1 k2 featureNumber xT yT <= concensus q <= Z.of_nat (length ms) - 1.
Proof.
  intros Hvalid Hf.
  destruct (countConcensus_defined ms k1 k2 Hvalid featureNumber xT yT) as (q & Hq).
  exists q. split; [exact Hq|].
  unfold countConcensus, for_range in Hq. rewrite Z.sub_0_r, Nat2Z.id in Hq.
  destruct (countLoop_bounds ms k1 k2 featureNumber xT yT _ _ _ _ Hq)
    as (Hx & Hy & Hlo & Hhi).
  cbn [xQual yQual concensus] in Hx, Hy, Hlo, Hhi.
  split; [apply Hx; left; reflexivity|]. split; [apply Hy; left; reflexivity|].
  unfold specCount.
  assert (E : (0 <=? featureNumber) && (featureNumber <? 0 + Z.of_nat (length ms)) = true).
  { apply andb_true_intro. split; [apply Z.leb_le | apply Z.ltb_lt]; lia. }
  rewrite E in Hhi. lia.
Qed.

(** X11.  The loop of trials (lines 392-447) on valid matches keeps the first
    best hypothesis.  The maximum it ends with is the greatest number of
    votes of the reference pairs it drew; if that is 0 the best values are
    still 0; otherwise they are the truncated translation of the first
    pair drawn that has that many votes. *)
Theorem search_keeps_first_best (R : Rng) (g : rng_state R) (ms : list DMatch)
  (k1 k2 : list KeyPoint) :
  validMatches ms k1 k2 ->
  convertible ms k1 k2 ->
  exists s g',
    search R g ms k1 k2 = Some (s, g') /\
    Forall (fun f => exists v, votes ms k1 k2 f = Some v /\ v <= maxConcensus s)
           (hypothesisSequence R g (Z.of_nat (length ms))) /\
    ((maxConcensus s = 0 /\ bestX s = 0 /\ bestY s = 0) \/
     (exists pre f post,
        hypothesisSequence R g (Z.of_nat (length ms)) = pre ++ f :: post /\
        0 < maxConcensus s /\
        votes ms k1 k2 f = Some (maxConcensus s) /\
        Forall (fun f' => exists v, votes ms k1 k2 f' = Some v /\ v < maxConcensus s) pre /\
        truncatedTranslation ms k1 k2 f = Some (bestX s, bestY s))).
Proof.
  intros Hvalid Hconv.
  destruct (search_defined R ms k1 k2 Hvalid Hconv g) as (s & g' & Hs & Hover & _).
  exists s, g'. split; [exact Hs|].
  destruct (searchOver_first_best ms k1 k2 _ _ _ Hover) as (_ & Hall & Hcase).
  split; [exact Hall|]. exact Hcase.
Qed.

(** X12.  With a single match the only trial has no other pair to count: the
    maximum stays 0 and the translation that is returned is that of the
    match, truncated, through the fallback of lines 465-469. *)
Theorem estimateTranslation_single_match (R : Rng) (g : rng_state R) (m : DMatch)
  (k1 k2 : list KeyPoint) (x y : float) (bX bY : Z) :
  translationOf [m] k1 k2 0 = Some (x, y) ->
  d2i x = Some bX -> d2i y = Some bY ->
  option_map fst (search R g [m] k1 k2) = Some (mkSearch x y 0 0 0) /\
  estimateTranslation R g [m] k1 k2 = Some (bX, bY, snd (rand R (srand R 0 g))).
Proof.
  intros Ht Hx Hy.
  assert (Hs : search R g [m] k1 k2 =
               Some (mkSearch x y 0 0 0, snd (rand R (srand R 0 g)))).
  { unfold search. change (Z.of_nat (length [m])) with 1.
    unfold for_range. change (Z.to_nat (1 - 0)) with 1%nat. cbn [forM].
    unfold trial. cbn [fst snd]. change (Z.of_nat (length [m])) with 1.
    rewrite Z.rem_1_r. unfold trialWith. rewrite Ht. cbn [bind fst snd].
    unfold countConcensus. change (Z.of_nat (length [m])) with 1.
    unfold for_range. change (Z.to_nat (1 - 0)) with 1%nat. cbn [forM].
    unfold checkFeature. change (0 =? 0) with true. cbn [bind concensus maxConcensus].
    change (0 >? 0) with false. cbn [bestX bestY]. reflexivity. }
  split; [rewrite Hs; reflexivity|].
  unfold estimateTranslation. rewrite Hs. cbn [bind fst snd].
  unfold fallback. cbn [bestX bestY xTrans yTrans Z.eqb]. rewrite Hx, Hy. reflexivity.
Qed.

(** X13.  When all the matches give one translation, every trial counts all
    the other matches and the function returns that translation,
    truncated. *)
Theorem estimateTranslation_unanimous (R : Rng) (g : rng_state R) (ms : list DMatch)
  (k1 k2 : list KeyPoint) (x y : float) (bX bY : Z) :
  validMatches ms k1 k2 ->
  ms <> [] ->
  (forall j, 0 <= j < Z.of_nat (length ms) -> translationOf ms k1 k2 j = Some (x, y)) ->
  d2i x = Some bX -> d2i y = Some bY ->
  exists s g',
    search R g ms k1 k2 = Some (s, g') /\
    maxConcensus s = Z.of_nat (length ms) - 1 /\
    estimateTranslation R g ms k1 k2 = Some (bX, bY, g').
Proof.
  intros Hvalid Hne Hall Hx Hy.
  assert (Hn : 0 < Z.of_nat (length ms)).
  { destruct ms; [congruence | cbn [length]; lia]. }
  assert (Hconv : convertible ms k1 k2).
  { intros j e He.
    assert (Hj : 0 <= j < Z.of_nat (length ms)).
    { unfold translationOf in He.
      destruct (vec_at ms j) as [m|] eqn:Em; [|discriminate].
      eapply vec_at_range; exact Em. }
    rewrite (Hall j Hj) in He. injection He as <-. cbn [fst snd].
    split; eexists; eassumption. }
  assert (Hvotes : forall f, 0 <= f < Z.of_nat (length ms) ->
                     votes ms k1 k2 f = Some (Z.of_nat (length ms) - 1)).
  { intros f Hf. unfold votes. rewrite (Hall f Hf). cbn [bind fst snd].
    destruct (countConcensus_defined ms k1 k2 Hvalid f x y) as (q & Hq).
    rewrite Hq. cbn [bind]. f_equal.
    unfold countConcensus, for_range in Hq. rewrite Z.sub_0_r, Nat2Z.id in Hq.
    destruct (countLoop_bounds ms k1 k2 f x y _ _ _ _ Hq) as (_ & _ & Hlo & Hhi).
    rewrite (specCountFrom_all ms k1 k2 f x y) in Hlo; [| |lia|lia].
    - assert (E : (0 <=? f) && (f <? 0 + Z.of_nat (length ms)) = true).
      { apply andb_true_intro. split; [apply Z.leb_le | apply Z.ltb_lt]; lia. }
      rewrite E in Hlo, Hhi. cbn [concensus] in Hlo, Hhi. lia.
    - intros j Hj _. exists (x, y). split; [apply Hall; exact Hj|].
      unfold consistentWith. cbn [fst snd].
      rewrite (self_within_tolerance x bX Hx), (self_within_tolerance y bY Hy).
      reflexivity. }
  destruct (search_defined R ms k1 k2 Hvalid Hconv g) as (s & g' & Hs & Hover & _ & Hlast).
  specialize (Hlast Hne).
  pose proof (draws_in_range R (Z.to_nat (Z.of_nat (length ms))) _ Hn (srand R 0 g))
    as Hrange.
  fold (hypothesisSequence R g (Z.of_nat (length ms))) in Hrange.
  assert (Hnonempty : hypothesisSequence R g (Z.of_nat (length ms)) <> []).
  { unfold hypothesisSequence. rewrite Nat2Z.id.
    destruct (length ms) eqn:E; [lia | cbn [draws]; discriminate]. }
  assert (HlastIn : In (last (hypothesisSequence R g (Z.of_nat (length ms))) 0)
                       (hypothesisSequence R g (Z.of_nat (length ms)))).
  { destruct (exists_last Hnonempty) as (l' & a & ->).
    rewrite last_last. apply in_or_app. right. left. reflexivity. }
  pose proof (proj1 (Forall_forall _ _) Hrange _ HlastIn) as HlastRange.
  rewrite (Hall _ HlastRange) in Hlast. injection Hlast as Hxs Hys.
  destruct (searchOver_first_best ms k1 k2 _ _ _ Hover) as (_ & Hvs & Hcase).
  assert (Hmax : maxConcensus s = Z.of_nat (length ms) - 1).
  { destruct Hcase as [(E0 & _ & _) | (pre & f & post & Efs & _ & Hvf & _ & _)].
    - pose proof (proj1 (Forall_forall _ _) Hvs _ HlastIn) as (v & Hv & Hle).
      rewrite (Hvotes _ HlastRange) in Hv. injection Hv as <-.
      change (maxConcensus search0) with 0 in E0. lia.
    - assert (Hin : In f (hypothesisSequence R g (Z.of_nat (length ms)))).
      { rewrite Efs. apply in_or_app. right. left. reflexivity. }
      pose proof (proj1 (Forall_forall _ _) Hrange _ Hin) as Hfr.
      rewrite (Hvotes f Hfr) in Hvf. injection Hvf as <-. reflexivity. }
  exists s, g'. split; [exact Hs|]. split; [exact Hmax|].
  unfold estimateTranslation. rewrite Hs. cbn [bind fst snd]. unfold fallback.
  rewrite <- Hxs, <- Hys, Hx, Hy.
  assert (Hbest : (bestX s = 0 /\ bestY s = 0) \/ (bestX s = bX /\ bestY s = bY)).
  { destruct Hcase as [(_ & E2 & E3) | (pre & f & post & Efs & _ & _ & _ & Htr)].
    - left. split; assumption.
    - right.
      assert (Hin : In f (hypothesisSequence R g (Z.of_nat (length ms)))).
      { rewrite Efs. apply in_or_app. right. left. reflexivity. }
      pose proof (proj1 (Forall_forall _ _) Hrange _ Hin) as Hfr.
      unfold truncatedTranslation in Htr. rewrite (Hall f Hfr) in Htr.
      cbn [bind fst snd] in Htr. rewrite Hx, Hy in Htr. cbn [bind] in Htr.
      injection Htr as <- <-. split; reflexivity. }
  destruct Hbest as [(-> & ->) | (-> & ->)].
  - reflexivity.
  - destruct (bX =? 0) eqn:EX; destruct (bY =? 0) eqn:EY; cbn [bind fst snd];
      try (apply Z.eqb_eq in EX); try (apply Z.eqb_eq in EY); subst; reflexivity.
Qed.

End SearchProperties.

(** *** What [estimateHomography] writes, and [Stitch] run again *)

Section WrittenTranslation.
Import Num Estimator Outcome.

(** X14.  What [estimateHomography] writes (lines 471-472): two whole numbers
    of pixels, each an [int] stored as a [double] that converts back to
    it, at (0, 2) and (1, 2); every other entry of the matrix, and its
    shape, are left as they were. *)
Theorem estimateHomography_writes_whole_pixels (R : Rng) (g g' : rng_state R)
  (ms : list DMatch) (k1 k2 : list KeyPoint) (H H' : Mat float) (status : Z) :
  estimateHomography R g ms k1 k2 H = Some (status, H', g') ->
  exists bX bY,
    estimateTranslation R g ms k1 k2 = Some (bX, bY, g') /\
    INT_MIN <= bX <= INT_MAX /\ INT_MIN <= bY <= INT_MAX /\
    ptr_get H' 0 2 = Some (i2d bX) /\ ptr_get H' 1 2 = Some (i2d bY) /\
    d2i (i2d bX) = Some bX /\ d2i (i2d bY) = Some bY /\
    (forall r c, (r, c) <> (0, 2) -> (r, c) <> (1, 2) -> ptr_get H' r c = ptr_get H r c).
Proof.
  unfold estimateHomography.
  destruct (estimateTranslation R g ms k1 k2) as [[[bX bY] g1]|] eqn:Et; [|discriminate].
  cbn [bind fst snd].
  destruct (ptr_set H 0 2 (i2d bX)) as [h1|] eqn:Hh1; [|discriminate]. cbn [bind].
  destruct (ptr_set h1 1 2 (i2d bY)) as [h2|] eqn:Hh2; [|discriminate]. cbn [bind].
  intros E. injection E as <- <- <-.
  assert (Hrange : INT_MIN <= bX <= INT_MAX /\ INT_MIN <= bY <= INT_MAX).
  { unfold estimateTranslation in Et.
    destruct (search R g ms k1 k2) as [[s gs]|] eqn:Hs; [|discriminate].
    cbn [bind fst snd] in Et.
    rewrite search_over_sequence in Hs.
    destruct (searchOver ms k1 k2 (hypothesisSequence R g (Z.of_nat (length ms))) search0)
      as [s0|] eqn:Hover; [|discriminate].
    injection Hs as -> _.
    destruct (searchOver_first_best ms k1 k2 _ _ _ Hover) as (_ & _ & Hcase).
    assert (Hbest : INT_MIN <= bestX s <= INT_MAX /\ INT_MIN <= bestY s <= INT_MAX).
    { destruct Hcase as [(_ & -> & ->) | (pre & f & post & _ & _ & _ & _ & Htr)].
      - cbn [bestX bestY search0]. unfold INT_MIN, INT_MAX. lia.
      - unfold truncatedTranslation in Htr.
        destruct (translationOf ms k1 k2 f) as [e|]; [|discriminate].
        cbn [bind] in Htr.
        destruct (d2i (fst e)) as [a|] eqn:Ea; [|discriminate]. cbn [bind] in Htr.
        destruct (d2i (snd e)) as [b|] eqn:Eb; [|discriminate]. cbn [bind] in Htr.
        injection Htr as <- <-.
        split; eapply d2range_bounds; eassumption. }
    unfold fallback in Et.
    destruct (bestX s =? 0).
    - destruct (d2i (xTrans s)) as [a|] eqn:Ea; [|discriminate]. cbn [bind] in Et.
      destruct (bestY s =? 0).
      + destruct (d2i (yTrans s)) as [b|] eqn:Eb; [|discriminate]. cbn [bind fst snd] in Et.
        injection Et as <- <- _.
        split; eapply d2range_bounds; eassumption.
      + cbn [bind fst snd] in Et. injection Et as <- <- _.
        split; [eapply d2range_bounds; eassumption | apply Hbest].
    - cbn [bind] in Et. destruct (bestY s =? 0).
      + destruct (d2i (yTrans s)) as [b|] eqn:Eb; [|discriminate]. cbn [bind fst snd] in Et.
        injection Et as <- <- _.
        split; [apply Hbest | eapply d2range_bounds; eassumption].
      + cbn [bind fst snd] in Et. injection Et as <- <- _. exact Hbest. }
  exists bX, bY. split; [reflexivity|].
  split; [apply Hrange|]. split; [apply Hrange|]. split; [|split; [|split; [|split]]].
  - rewrite (ptr_get_set_other _ _ _ _ 0 2 _ Hh2) by congruence.
    eapply ptr_get_set_same; exact Hh1.
  - eapply ptr_get_set_same; exact Hh2.
  - apply d2i_i2d. apply Hrange.
  - apply d2i_i2d. apply Hrange.
  - intros r c H1 H2.
    rewrite (ptr_get_set_other _ _ _ _ r c _ Hh2) by exact H2.
    apply (ptr_get_set_other _ _ _ _ r c _ Hh1). exact H1.
Qed.

End WrittenTranslation.

Section ChainFacts.
Import Num Estimator Assembler Chain.
Variable R : Rng.



(** A turn of the loop that is defined appends a translation. *)
Lemma stitchStep_translation (detect : Z -> Detected) (i : Z)
  (Ts Ts' : list (Mat float)) (g g' : rng_state R) :
  stitchStep R detect i (Ts, g) = Some (Ts', g') ->
  exists tx ty, Ts' = Ts ++ [translationMat tx ty].
Proof.
  intros Hstep.
  destruct (pairwiseTranslation R g (detect i)) as [b|] eqn:Hb.
  - destruct (vec_at Ts (i - 1)) as [prev|] eqn:Hprev.
    + destruct (ptr_get prev 0 2) as [tx|] eqn:Hx.
      * destruct (ptr_get prev 1 2) as [ty|] eqn:Hy.
        -- destruct (stitchStep_appends R detect i Ts g prev tx ty b Hb Hprev Hx Hy)
             as (g1 & E).
           rewrite E in Hstep. injection Hstep as <- _.
           eexists _, _. reflexivity.
        -- exfalso. revert Hstep. unfold stitchStep. cbn [fst snd].
           destruct (getFeatures (detect i)) as [f|]; [|discriminate]. cbn [bind].
           destruct (estimateHomography R g (matches (snd f)) (keypoints1 (snd f))
                       (keypoints2 (snd f)) Id3) as [e|]; [|discriminate].
           cbn [bind]. rewrite Hprev. cbn [bind]. rewrite Hx. cbn [bind].
           destruct (addAt Id3 0 2 tx); [|discriminate]. cbn [bind].
           rewrite Hy. discriminate.
      * exfalso. revert Hstep. unfold stitchStep. cbn [fst snd].
        destruct (getFeatures (detect i)) as [f|]; [|discriminate]. cbn [bind].
        destruct (estimateHomography R g (matches (snd f)) (keypoints1 (snd f))
                    (keypoints2 (snd f)) Id3) as [e|]; [|discriminate].
        cbn [bind]. rewrite Hprev. cbn [bind]. rewrite Hx. discriminate.
    + exfalso. revert Hstep. unfold stitchStep. cbn [fst snd].
      destruct (getFeatures (detect i)) as [f|]; [|discriminate]. cbn [bind].
      destruct (estimateHomography R g (matches (snd f)) (keypoints1 (snd f))
                  (keypoints2 (snd f)) Id3) as [e|]; [|discriminate].
      cbn [bind]. rewrite Hprev. discriminate.
  - exfalso. revert Hstep Hb. unfold stitchStep, pairwiseTranslation. cbn [fst snd].
    destruct (getFeatures (detect i)) as [f|]; [|discriminate]. cbn [bind].
    unfold estimateHomography.
    destruct (estimateTranslation R g (matches (snd f)) (keypoints1 (snd f))
                (keypoints2 (snd f))) as [t|]; discriminate.
Qed.



End ChainFacts.

Section ChainProperties.
Import Num Estimator Assembler Chain.

(** X17.  Whatever the images, every transform [Stitch] leaves in [transforms]
    is a pure translation: the identity apart from the entries (0, 2) and
    (1, 2). *)
Theorem Stitch_transforms_are_translations
  (R : Rng) (g g' : rng_state R) (first_rows first_cols numImages : Z)
  (detect : Z -> Detected) (status : Z) (Ts : list (Mat float)) :
  Stitch R g first_rows first_cols numImages detect [] = Some (status, Ts, g') ->
  status = 0 /\
  Ts <> [] /\
  Forall (fun T => exists tx ty, T = translationMat tx ty) Ts.
Proof.
  unfold Stitch.
  destruct (canvasSize first_rows first_cols numImages) as [size|]; [|discriminate].
  cbn [bind app].
  destruct (for_range 1 numImages (stitchStep R detect)
              ([firstTransform first_rows (fst size)], g)) as [st|] eqn:Hloop;
    [|discriminate].
  cbn [bind]. intros E. injection E as <- <- <-.
  split; [reflexivity|].
  unfold for_range in Hloop.
  destruct (forM_both False
              (fun _ (st : list (Mat float) * rng_state R) =>
                 fst st <> [] /\
                 Forall (fun T => exists tx ty, T = translationMat tx ty) (fst st))
              (stitchStep R detect) (Z.to_nat (numImages - 1)) 1
              ([firstTransform first_rows (fst size)], g)) as (_ & Hkeep).
  - cbn [fst]. split; [discriminate|]. constructor; [|constructor].
    eexists _, _. reflexivity.
  - intros j (Us, gu) _ (Hne & Hall). cbn [fst] in Hne, Hall.
    split; [intros []|]. intros (Us', gu') Hstep. cbn [fst].
    destruct (stitchStep_translation R detect j Us Us' gu gu' Hstep) as (tx & ty & ->).
    split; [destruct Us; discriminate|].
    apply Forall_app. split; [exact Hall|]. constructor; [|constructor].
    exists tx, ty. reflexivity.
  - exact (Hkeep st Hloop).
Qed.


End ChainProperties.

(** *** More on the trimming of matches and on the feathering mask *)

Section LoopsMore.
Context {S : Type}.

(** Two bodies that agree on the range give the same loop. *)
Lemma forM_ext (body1 body2 : Z -> S -> option S) :
  forall (n : nat) (i : Z) (s : S),
    (forall j t, i <= j < i + Z.of_nat n -> body1 j t = body2 j t) ->
    forM n i body1 s = forM n i body2 s.
Proof.
  induction n as [|n IH]; intros i s H; [reflexivity|].
  cbn [forM]. rewrite (H i s) by lia.
  destruct (body2 i s) as [t|]; [|reflexivity].
  apply IH. intros j u Hj. apply H. lia.
Qed.

(** A loop one turn of which is undefined is undefined. *)
Lemma forM_undefined (body : Z -> S -> option S) (j : Z) :
  (forall t, body j t = None) ->
  forall (n : nat) (i : Z) (s : S),
    i <= j < i + Z.of_nat n -> forM n i body s = None.
Proof.
  intros Hj. induction n as [|n IH]; intros i s Hi; [lia|].
  cbn [forM]. destruct (Z.eq_dec i j) as [->|Hne].
  - rewrite Hj. reflexivity.
  - destruct (body i s) as [t|]; [|reflexivity]. apply IH. lia.
Qed.

End LoopsMore.

Lemma vec_at_firstn {A : Type} (l : list A) (n : nat) (i : Z) :
  i < Z.of_nat n -> vec_at (firstn n l) i = vec_at l i.
Proof.
  intros Hi. unfold vec_at. destruct (i <? 0) eqn:E; [reflexivity|].
  apply Z.ltb_ge in E.
  assert (H : (Z.to_nat i < n)%nat) by lia.
  generalize dependent (Z.to_nat i). clear.
  revert l. induction n as [|n IH]; intros l k Hk; [lia|].
  destruct l as [|a l]; [destruct k; reflexivity|].
  destruct k as [|k]; [reflexivity|]. cbn [firstn nth_error]. apply IH. lia.
Qed.

Lemma vec_at_beyond {A : Type} (l : list A) (i : Z) :
  Z.of_nat (length l) <= i -> vec_at l i = None.
Proof.
  intros Hi. unfold vec_at. destruct (i <? 0); [reflexivity|].
  apply nth_error_None. lia.
Qed.

Lemma filter_none {A : Type} (p : A -> bool) (l : list A) :
  (forall a, In a l -> p a = false) -> filter p l = [].
Proof.
  induction l as [|a l IH]; intros H; [reflexivity|].
  cbn [filter]. rewrite (H a (or_introl eq_refl)). apply IH.
  intros b Hb. apply H. right. exact Hb.
Qed.

Section ZeroFacts.

(** The sign of a zero does not matter on the right of [<]. *)
Lemma SFltb_zero_sign (a : spec_float) (s : bool) :
  SFltb a (S754_zero s) = SFltb a (S754_zero false).
Proof. destruct a as [sa|sa| |sa m e]; reflexivity. Qed.

(** A number that is neither below nor above 0 is a zero. *)
Lemma between_zero (r : float) :
  Prim2SF r <> S754_nan ->
  PrimFloat.ltb 0%float r = false -> PrimFloat.ltb r 0%float = false ->
  exists s, Prim2SF r = S754_zero s.
Proof.
  rewrite !FloatAxioms.ltb_spec. change (Prim2SF 0%float) with (S754_zero false).
  destruct (Prim2SF r) as [s|s| |s m e]; intros Hn H1 H2.
  - exists s. reflexivity.
  - destruct s; cbn in H1, H2; discriminate.
  - congruence.
  - destruct s; cbn in H1, H2; discriminate.
Qed.

Lemma thrice_zero (r : float) (s : bool) :
  Prim2SF r = S754_zero s -> Prim2SF (PrimFloat.mul 3%float r) = S754_zero s.
Proof.
  intros Hr. rewrite FloatAxioms.mul_spec, Hr. destruct s; reflexivity.
Qed.

End ZeroFacts.

Section TrimProperties.
Import Features.

(** X8.  The two loops of lines 340-348 run over [descriptors1.rows], not
    over the candidates: with more rows than candidates they index
    [approxMatches] out of bounds; otherwise they read the first [rows]
    candidates only and keep, in order, those below three times the least
    of 100 and the distances of these candidates. *)
Theorem trimMatches_reads_rows_candidates (descriptors1_rows : Z)
  (approxMatches : list DMatch) :
  (Z.of_nat (length approxMatches) < descriptors1_rows ->
   trimMatches descriptors1_rows approxMatches = None) /\
  (descriptors1_rows <= Z.of_nat (length approxMatches) ->
   exists minDist,
     isCappedMinDistance (firstn (Z.to_nat descriptors1_rows) approxMatches) minDist /\
     trimMatches descriptors1_rows approxMatches =
       Some (belowThrice minDist (firstn (Z.to_nat descriptors1_rows) approxMatches))).
Proof.
  split.
  - intros Hlt. unfold trimMatches, findMinDist, for_range.
    rewrite (forM_undefined _ (Z.of_nat (length approxMatches))); [reflexivity | | lia].
    intros t. rewrite vec_at_beyond by lia. reflexivity.
  - intros Hle.
    set (n := Z.to_nat descriptors1_rows).
    set (l := firstn n approxMatches).
    assert (Hlen : length l = n).
    { unfold l. apply firstn_length_le. lia. }
    assert (Hmin : findMinDist descriptors1_rows approxMatches =
                   findMinDist (Z.of_nat (length l)) l).
    { unfold findMinDist, for_range. rewrite Hlen, !Z.sub_0_r, Nat2Z.id. fold n.
      apply forM_ext. intros j t Hj. unfold l. rewrite vec_at_firstn by lia.
      reflexivity. }
    assert (Hkeep : forall d,
              keepGood descriptors1_rows approxMatches d [] =
              keepGood (Z.of_nat (length l)) l d []).
    { intros d. unfold keepGood, for_range. rewrite Hlen, !Z.sub_0_r, Nat2Z.id. fold n.
      apply forM_ext. intros j t Hj. unfold l. rewrite vec_at_firstn by lia.
      reflexivity. }
    exists (fold_left (fun acc m => minStep m acc) l 100%float). split.
    + assert (H100 : Prim2SF 100%float <> S754_nan) by (vm_compute; discriminate).
      destruct (runningMin_least l 100%float H100) as (_ & Hin & Hcap & Hall).
      unfold isCappedMinDistance. auto.
    + unfold trimMatches. rewrite Hmin, findMinDist_fold. cbn [bind].
      rewrite Hkeep. apply keepGood_filter.
Qed.

(** X9.  A candidate at the distance 0 empties the matches: with no negative
    distance (a distance is a norm) the minimum is 0, and no distance is
    below [3 * 0]. *)
Theorem trimMatches_exact_match_keeps_none (approxMatches : list DMatch) :
  (forall m, In m approxMatches -> PrimFloat.ltb (distance m) 0%float = false) ->
  (exists m, In m approxMatches /\ distance m = 0%float) ->
  trimMatches (Z.of_nat (length approxMatches)) approxMatches = Some [].
Proof.
  intros Hpos (m0 & Hm0 & Hd0).
  assert (H100 : Prim2SF 100%float <> S754_nan) by (vm_compute; discriminate).
  destruct (runningMin_least approxMatches 100%float H100) as (Hnan & Hin & _ & Hall).
  set (r := fold_left (fun acc m => minStep m acc) approxMatches 100%float) in *.
  assert (Hzero : exists s, Prim2SF r = S754_zero s).
  { pose proof (Hall m0 Hm0) as H0. rewrite Hd0 in H0.
    apply between_zero; [exact Hnan | exact H0 |].
    destruct Hin as [E|Hin].
    - rewrite E in H0. vm_compute in H0. discriminate.
    - apply in_map_iff in Hin. destruct Hin as (m1 & E & Hm1).
      rewrite <- E. apply Hpos. exact Hm1. }
  destruct Hzero as (s & Hs).
  unfold trimMatches. rewrite findMinDist_fold. cbn [bind]. fold r.
  rewrite keepGood_filter. f_equal. unfold belowThrice. apply filter_none.
  intros m Hm. rewrite FloatAxioms.ltb_spec, (thrice_zero r s Hs), SFltb_zero_sign.
  pose proof (Hpos m Hm) as H. rewrite FloatAxioms.ltb_spec in H. exact H.
Qed.

End TrimProperties.

Section MaskProperties.
Import Num BlendMask.

(** X6.  The mask of an image one pixel wide or high: [maxDist] is
    [1 / 2 = 0], every pixel is at the distance 0 of the right or bottom
    edge, and every alpha is [0 / 0], a NaN. *)
Theorem buildBlendMask_thin_image_is_nan {A : Type} (img : Mat A) (mask : Mat float) :
  wf_Mat 1 mask ->
  same_size img mask = true ->
  Z.min (cols mask) (rows mask) = 1 ->
  exists mask',
    buildBlendMask img mask = Some (0, mask') /\
    forall y x, 0 <= y < rows mask -> 0 <= x < cols mask ->
      ptr_get mask' y x = Some nan.
Proof.
  intros Hwf Hsize Hmin. unfold buildBlendMask. rewrite Hsize. cbn [negb].
  pose (maxDist := if rows mask >? cols mask
                   then Z.quot (cols mask) 2 else Z.quot (rows mask) 2).
  destruct (fill_loops (alpha (rows mask) (cols mask) maxDist) (setTo mask 0%float)
              (setTo_wf 1 mask 0%float Hwf)) as (m' & Hm' & _ & _ & _ & Hget).
  cbn [setTo rows cols] in Hm', Hget. fold (setTo mask 0%float) in Hm'.
  fold maxDist. rewrite Hm'. cbn [bind].
  exists m'. split; [reflexivity|]. intros y x Hy Hx.
  rewrite (Hget y x Hy Hx). unfold maxDist.
  rewrite (alpha_in_bounds _ _ _ _ Hy Hx), Hmin.
  replace (Z.min (Z.min (x + 1) (cols mask - x - 1)) (Z.min (y + 1) (rows mask - y - 1)))
    with 0 by lia.
  reflexivity.
Qed.

(** X7.  On a mask at least two pixels wide and high, the right column and
    the bottom row hold exactly 0. *)
Theorem buildBlendMask_right_bottom_border_zero {A : Type} (img : Mat A)
  (mask : Mat float) (x y : Z) :
  wf_Mat 1 mask ->
  same_size img mask = true ->
  2 <= Z.min (cols mask) (rows mask) <= INT_MAX ->
  0 <= y < rows mask -> 0 <= x < cols mask ->
  x = cols mask - 1 \/ y = rows mask - 1 ->
  exists mask',
    buildBlendMask img mask = Some (0, mask') /\
    ptr_get mask' y x = Some 0%float.
Proof.
  intros Hwf Hsize Hmin Hy Hx Hedge. unfold buildBlendMask. rewrite Hsize. cbn [negb].
  pose (maxDist := if rows mask >? cols mask
                   then Z.quot (cols mask) 2 else Z.quot (rows mask) 2).
  destruct (fill_loops (alpha (rows mask) (cols mask) maxDist) (setTo mask 0%float)
              (setTo_wf 1 mask 0%float Hwf)) as (m' & Hm' & _ & _ & _ & Hget).
  cbn [setTo rows cols] in Hm', Hget. fold (setTo mask 0%float) in Hm'.
  fold maxDist. rewrite Hm'. cbn [bind].
  exists m'. split; [reflexivity|].
  rewrite (Hget y x Hy Hx). unfold maxDist.
  rewrite (alpha_in_bounds _ _ _ _ Hy Hx).
  replace (Z.min (Z.min (x + 1) (cols mask - x - 1)) (Z.min (y + 1) (rows mask - y - 1)))
    with 0 by lia.
  f_equal.
  set (d := Z.quot (Z.min (cols mask) (rows mask)) 2).
  assert (Hd : 1 <= d <= INT_MAX).
  { unfold d, INT_MAX in *.
    pose proof (Z.quot_le_lower_bound (Z.min (cols mask) (rows mask)) 2 1 ltac:(lia)
                  ltac:(lia)).
    pose proof (Z.quot_lt (Z.min (cols mask) (rows mask)) 2 ltac:(lia) ltac:(lia)).
    lia. }
  destruct (i2d_exact d) as (m & e & Hs & _); [unfold INT_MAX in Hd; lia|].
  replace (d <? 0) with false in Hs by (symmetry; apply Z.ltb_ge; lia).
  exact (div_zero_by_positive (i2d d) m e Hs).
Qed.

End MaskProperties.

(** *** The constructor *)

Lemma zeros_wf {A : Type} (zero : A) (chan r c : Z) :
  0 <= r -> 0 <= c -> wf_Mat chan (zeros zero chan r c).
Proof.
  intros Hr Hc. unfold wf_Mat, zeros. cbn [rows cols data].
  split; [exact Hr|]. split; [exact Hc|]. split; [apply repeat_length|].
  apply Forall_forall. intros row Hrow.
  apply repeat_spec in Hrow. subst row. apply repeat_length.
Qed.

Lemma ptr_get_zeros {A : Type} (zero : A) (chan r c y j : Z) :
  0 <= y < r -> 0 <= j < chan * c -> ptr_get (zeros zero chan r c) y j = Some zero.
Proof.
  intros Hy Hj. unfold ptr_get, zeros, vec_at. cbn [data].
  destruct (y <? 0) eqn:Ey; [apply Z.ltb_lt in Ey; lia|].
  rewrite nth_error_repeat by lia. cbn [bind].
  destruct (j <? 0) eqn:Ej; [apply Z.ltb_lt in Ej; lia|].
  apply nth_error_repeat. lia.
Qed.

Lemma list_set_app_last {A : Type} (v : list A) (a b : A) :
  list_set (v ++ [a]) (length v) b = Some (v ++ [b]).
Proof.
  induction v as [|h t IH]; [reflexivity|].
  cbn [app length list_set]. rewrite IH. reflexivity.
Qed.

Lemma vec_set_app_last {A : Type} (v : list A) (a b : A) :
  vec_set (v ++ [a]) (Z.of_nat (length v)) b = Some (v ++ [b]).
Proof.
  unfold vec_set.
  destruct (Z.of_nat (length v) <? 0) eqn:E; [apply Z.ltb_lt in E; lia|].
  rewrite Nat2Z.id. apply list_set_app_last.
Qed.

Section MaskFacts.
Import Num BlendMask Prewarp.

(** The mask [buildBlendMask] leaves, at every pixel. *)
Lemma buildBlendMask_spec {A : Type} (img : Mat A) (mask : Mat float) :
  wf_Mat 1 mask ->
  same_size img mask = true ->
  exists mask',
    buildBlendMask img mask = Some (0, mask') /\
    wf_Mat 1 mask' /\ rows mask' = rows mask /\ cols mask' = cols mask /\
    forall y x, 0 <= y < rows mask -> 0 <= x < cols mask ->
      ptr_get mask' y x =
      Some (alpha (rows mask) (cols mask) (maxDistOf (rows mask) (cols mask)) y x).
Proof.
  intros Hwf Hsize. unfold buildBlendMask. rewrite Hsize. cbn [negb].
  fold (maxDistOf (rows mask) (cols mask)).
  destruct (fill_loops (alpha (rows mask) (cols mask) (maxDistOf (rows mask) (cols mask)))
              (setTo mask 0%float) (setTo_wf 1 mask 0%float Hwf))
    as (m' & Hm' & Hw & Hr & Hc & Hget).
  cbn [setTo rows cols] in Hm', Hr, Hc, Hget. fold (setTo mask 0%float) in Hm'.
  rewrite Hm'. cbn [bind].
  exists m'. split; [reflexivity|]. split; [exact Hw|].
  split; [exact Hr|]. split; [exact Hc|]. exact Hget.
Qed.

End MaskFacts.

Section ConstructorFacts.
Import Num BlendMask Projector Prewarp.
Variable L : Libm.
Variable imread : Z -> Mat Z.

(** A turn on an image that was read and whose rows are indexable: it
    appends the projected image and the projected mask. *)
Lemma prewarpStep_built (i : Z) (src : list (Mat Z)) (blendMasks : list (Mat float)) :
  Z.of_nat (length src) = i -> Z.of_nat (length blendMasks) = i ->
  wf_Mat 3 (imread (i + 1)) ->
  1 <= rows (imread (i + 1)) -> 1 <= cols (imread (i + 1)) ->
  3 * cols (imread (i + 1)) <= INT_MAX ->
  (forall y x, 0 <= y < rows (imread (i + 1)) -> 0 <= x < cols (imread (i + 1)) ->
     exists s, sampleSpherical L focalLength (rows (imread (i + 1)))
                 (cols (imread (i + 1))) y x = Some s) ->
  exists img msk,
    prewarpStep L imread i (Built src blendMasks) =
      Some (Built (src ++ [img]) (blendMasks ++ [msk])) /\
    prewarped L (imread (i + 1)) img msk.
Proof.
  intros Hls Hlm Hwf Hr Hc Hfit Hsamples.
  set (temp := imread (i + 1)) in *.
  assert (Hw0 : wf_Mat 1 (zeros 0%float 1 (rows temp) (cols temp)))
    by (apply zeros_wf; lia).
  assert (Hsize : same_size temp (zeros 0%float 1 (rows temp) (cols temp)) = true).
  { unfold same_size, zeros. cbn [rows cols]. rewrite !Z.eqb_refl. reflexivity. }
  destruct (buildBlendMask_spec temp _ Hw0 Hsize)
    as (mask & Hmask & Hwm & Hrm & Hcm & Hvals).
  change (rows (zeros 0%float 1 (rows temp) (cols temp))) with (rows temp) in Hrm, Hvals.
  change (cols (zeros 0%float 1 (rows temp) (cols temp))) with (cols temp) in Hcm, Hvals.
  assert (HwO : wf_Mat 3 (zeros 0 3 (rows temp) (cols temp))) by (apply zeros_wf; lia).
  destruct (projectLoops_spec 3 temp ltac:(lia) Hwf
              (sampleSpherical L focalLength (rows temp) (cols temp))
              (zeros 0 3 (rows temp) (cols temp)) HwO eq_refl eq_refl)
    as (Hdef & Hval).
  destruct (Hdef (or_intror Hfit) Hsamples) as (O' & HO').
  destruct (Hval 0 O' HO') as (_ & _ & HrO & HcO & HgetO).
  assert (HwMO : wf_Mat 1 (zeros 0%float 1 (rows mask) (cols mask)))
    by (apply zeros_wf; lia).
  destruct (projectLoops_spec 1 mask ltac:(lia) Hwm
              (sampleSpherical L focalLength (rows mask) (cols mask))
              (zeros 0%float 1 (rows mask) (cols mask)) HwMO eq_refl eq_refl)
    as (HdefM & HvalM).
  rewrite Hrm, Hcm in HdefM, HvalM.
  destruct (HdefM (or_introl eq_refl) Hsamples) as (MO' & HMO').
  destruct (HvalM 0 MO' HMO') as (_ & _ & HrMO & HcMO & HgetMO).
  exists O', MO'. split.
  - unfold prewarpStep. fold temp. rewrite Hmask. cbn [bind snd].
    assert (Hnd : noData temp = false).
    { unfold noData. apply orb_false_intro; apply Z.eqb_neq; lia. }
    rewrite Hnd.
    rewrite <- Hls at 1. rewrite vec_at_app_last. cbn [bind].
    unfold projectSpherical. rewrite HO'. cbn [bind snd].
    rewrite <- Hls at 1. rewrite vec_set_app_last. cbn [bind].
    rewrite <- Hlm at 1. rewrite vec_at_app_last. cbn [bind].
    unfold projectMaskSpherical. rewrite Hrm, Hcm, HMO'. cbn [bind snd].
    rewrite <- Hlm at 1. rewrite vec_set_app_last. reflexivity.
  - unfold prewarped. fold temp.
    split; [exact HrO|]. split; [exact HcO|]. split; [exact HrMO|]. split; [exact HcMO|].
    intros y x Hy Hx.
    destruct (Hsamples y x Hy Hx) as ((xIn, yIn) & Hs).
    exists xIn, yIn. split; [exact Hs|].
    pose proof (HgetMO y x 0 Hy Hx ltac:(lia)) as HM.
    replace (1 * x + 0) with x in HM by lia.
    unfold projectedAt in HM. rewrite Hs in HM. cbn [bind fst snd] in HM.
    rewrite Hrm, Hcm in HM.
    destruct (inBounds (rows temp) (cols temp) xIn yIn) eqn:Hin.
    + split.
      * intros k Hk. rewrite (HgetO y x k Hy Hx Hk).
        unfold projectedAt. rewrite Hs. cbn [bind fst snd]. rewrite Hin. reflexivity.
      * rewrite HM. replace (1 * xIn + 0) with xIn by lia.
        unfold inBounds in Hin.
        apply andb_prop in Hin. destruct Hin as (Hin & H4).
        apply andb_prop in Hin. destruct Hin as (Hin & H3).
        apply andb_prop in Hin. destruct Hin as (H1 & H2).
        apply Z.gtb_lt in H1, H3. apply Z.ltb_lt in H2, H4.
        apply Hvals; lia.
    + split.
      * intros k Hk. rewrite (HgetO y x k Hy Hx Hk).
        unfold projectedAt. rewrite Hs. cbn [bind fst snd]. rewrite Hin.
        apply ptr_get_zeros; lia.
      * rewrite HM. replace (1 * x + 0) with x by lia.
        apply ptr_get_zeros; lia.
Qed.

(** A turn on an image that was not read: [exit(1)], after the blend
    mask of the empty image was built. *)
Lemma prewarpStep_exit (i : Z) (src : list (Mat Z)) (blendMasks : list (Mat float)) :
  0 <= rows (imread (i + 1)) -> 0 <= cols (imread (i + 1)) ->
  noData (imread (i + 1)) = true ->
  prewarpStep L imread i (Built src blendMasks) = Some Exited.
Proof.
  intros Hr Hc Hnd.
  set (temp := imread (i + 1)) in *.
  assert (Hw0 : wf_Mat 1 (zeros 0%float 1 (rows temp) (cols temp)))
    by (apply zeros_wf; lia).
  assert (Hsize : same_size temp (zeros 0%float 1 (rows temp) (cols temp)) = true).
  { unfold same_size, zeros. cbn [rows cols]. rewrite !Z.eqb_refl. reflexivity. }
  destruct (buildBlendMask_spec temp _ Hw0 Hsize) as (mask & Hmask & _).
  unfold prewarpStep. fold temp. rewrite Hmask. cbn [bind]. rewrite Hnd. reflexivity.
Qed.

End ConstructorFacts.

Section ConstructorProperties.
Import Num BlendMask Projector Prewarp.

(** X1.  The constructor on files that are all read, of at most
    [INT_MAX / 3] columns, with samples that all convert to [int]: it
    stores one image and one mask per file, and the
    mask stored for a file is the feathering mask of the file carried
    through the very sampling of its image: where a pixel of the stored
    image comes from a pixel of the file, its alpha is the alpha of that
    pixel, and where the image is left black the alpha is 0. *)
Theorem construct_prewarps (L : Libm) (numImages : Z) (imread : Z -> Mat Z) :
  0 <= numImages ->
  (forall i, 0 <= i < numImages ->
     wf_Mat 3 (imread (i + 1)) /\
     1 <= rows (imread (i + 1)) /\ 1 <= cols (imread (i + 1)) /\
     3 * cols (imread (i + 1)) <= INT_MAX) ->
  (forall i y x, 0 <= i < numImages ->
     0 <= y < rows (imread (i + 1)) -> 0 <= x < cols (imread (i + 1)) ->
     exists s, sampleSpherical L focalLength (rows (imread (i + 1)))
                 (cols (imread (i + 1))) y x = Some s) ->
  exists src blendMasks,
    construct L numImages imread = Some (Built src blendMasks) /\
    Z.of_nat (length src) = numImages /\
    Z.of_nat (length blendMasks) = numImages /\
    forall i, 0 <= i < numImages ->
      exists img msk,
        vec_at src i = Some img /\ vec_at blendMasks i = Some msk /\
        prewarped L (imread (i + 1)) img msk.
Proof.
  intros Hn Himgs Hsamples. unfold construct.
  destruct (for_range_invariant
              (fun i st =>
                 exists src blendMasks,
                   st = Built src blendMasks /\
                   Z.of_nat (length src) = i /\ Z.of_nat (length blendMasks) = i /\
                   forall j, 0 <= j < i ->
                     exists img msk,
                       vec_at src j = Some img /\ vec_at blendMasks j = Some msk /\
                       prewarped L (imread (j + 1)) img msk)
              (prewarpStep L imread) 0 numImages (Built [] []) Hn)
    as (st & Hloop & (src & masks & -> & Hls & Hlm & Hall)).
  - exists [], []. split; [reflexivity|]. split; [reflexivity|]. split; [reflexivity|].
    intros j Hj. lia.
  - intros i st Hi (src & masks & -> & Hls & Hlm & Hall).
    destruct (Himgs i Hi) as (Hwf & Hr & Hc & Hfit).
    destruct (prewarpStep_built L imread i src masks Hls Hlm Hwf Hr Hc Hfit
                (fun y x => Hsamples i y x Hi)) as (img & msk & Hstep & Hpre).
    eexists. split; [exact Hstep|].
    exists (src ++ [img]), (masks ++ [msk]). split; [reflexivity|].
    split; [rewrite length_app; cbn [length]; lia|].
    split; [rewrite length_app; cbn [length]; lia|].
    intros j Hj. destruct (Z.eq_dec j i) as [->|Hne].
    + exists img, msk.
      split; [rewrite <- Hls at 1; apply vec_at_app_last|].
      split; [rewrite <- Hlm at 1; apply vec_at_app_last|]. exact Hpre.
    + destruct (Hall j ltac:(lia)) as (a & b & Ha & Hb & Hab).
      exists a, b. rewrite !vec_at_app_old by lia.
      split; [exact Ha|]. split; [exact Hb | exact Hab].
  - exists src, masks. split; [exact Hloop|]. split; [exact Hls|]. split; [exact Hlm|].
    exact Hall.
Qed.

(** X2.  A file that cannot be read ends the constructor with [exit(1)],
    whatever the files after it, when the files before it were read, have
    at most [INT_MAX / 3] columns and samples that convert to [int]:
    these were projected, and the blend mask of the empty image was built
    before the test of line 95. *)
Theorem construct_exits_on_unreadable (L : Libm) (numImages : Z) (imread : Z -> Mat Z)
  (bad : Z) :
  0 <= bad < numImages ->
  (forall i, 0 <= i < bad ->
     wf_Mat 3 (imread (i + 1)) /\
     1 <= rows (imread (i + 1)) /\ 1 <= cols (imread (i + 1)) /\
     3 * cols (imread (i + 1)) <= INT_MAX) ->
  (forall i y x, 0 <= i < bad ->
     0 <= y < rows (imread (i + 1)) -> 0 <= x < cols (imread (i + 1)) ->
     exists s, sampleSpherical L focalLength (rows (imread (i + 1)))
                 (cols (imread (i + 1))) y x = Some s) ->
  0 <= rows (imread (bad + 1)) -> 0 <= cols (imread (bad + 1)) ->
  noData (imread (bad + 1)) = true ->
  construct L numImages imread = Some Exited.
Proof.
  intros Hbad Himgs Hsamples Hr Hc Hnd. unfold construct.
  destruct (for_range_invariant
              (fun i st =>
                 (i <= bad ->
                  exists src blendMasks,
                    st = Built src blendMasks /\
                    Z.of_nat (length src) = i /\ Z.of_nat (length blendMasks) = i) /\
                 (bad < i -> st = Exited))
              (prewarpStep L imread) 0 numImages (Built [] []) ltac:(lia))
    as (st & Hloop & (_ & Hexit)).
  - split; [|lia]. intros _. exists [], []. repeat split.
  - intros i st Hi (Hbuilt & Hexited).
    destruct (Z_lt_le_dec bad i) as [Hlt|Hle].
    + rewrite (Hexited Hlt). exists Exited. split; [reflexivity|].
      split; [lia | reflexivity].
    + destruct (Hbuilt Hle) as (src & masks & -> & Hls & Hlm).
      destruct (Z.eq_dec i bad) as [->|Hne].
      * exists Exited. split; [apply prewarpStep_exit; assumption|].
        split; [lia | reflexivity].
      * destruct (Himgs i ltac:(lia)) as (Hwf & Hri & Hci & Hfit).
        destruct (prewarpStep_built L imread i src masks Hls Hlm Hwf Hri Hci Hfit
                    (fun y x => Hsamples i y x ltac:(lia))) as (img & msk & Hstep & _).
        eexists. split; [exact Hstep|]. split; [|lia]. intros _.
        exists (src ++ [img]), (masks ++ [msk]). split; [reflexivity|].
        split; rewrite length_app; cbn [length]; lia.
  - rewrite Hloop. f_equal. apply Hexit. lia.
Qed.

End ConstructorProperties.

(** *** Samples of a depth that is zero or near zero *)

Section DegenerateFacts.
Import Num Projector.






End DegenerateFacts.

Section DegenerateClaim.
Import Num Projector RightAngle.


End DegenerateClaim.

(** *** The further properties on concrete inputs *)

Section FurtherRuns.
Import Num BlendMask Features Estimator Compositor Assembler Examples.
Import Projector Prewarp Outcome Chain Samples.

(** The trimming on two candidates the first of which is at the
    distance 0. *)
Lemma trimMatches_exact_match_witness :
  trimMatches (Z.of_nat (length exact_matches)) exact_matches = Some [].
Proof.
  apply (trimMatches_exact_match_keeps_none exact_matches).
  - intros m [<- | [<- | []]]; vm_compute; reflexivity.
  - exists (mkDMatch 0 0 0%float). split; [left; reflexivity | reflexivity].
Defined.

(** The inner loop on the four matches of [axes_ms], reference pair 0. *)
Lemma countConcensus_between_witness :
  exists q,
    countConcensus axes_ms axes_k1 axes_k2 0 0 0 = Some q /\
    (xQual q = 0 \/ xQual q = 1) /\ (yQual q = 0 \/ yQual q = 1) /\
    specCount axes_ms axes_k1 axes_k2 0 0 0 <= concensus q
      <= Z.of_nat (length axes_ms) - 1.
Proof.
  apply (countConcensus_between axes_ms axes_k1 axes_k2 0 0%float 0%float).
  - intros m [<- | [<- | [<- | [<- | []]]]]; cbn; lia.
  - cbn. lia.
Defined.

(** The loop of trials on the four matches of [axes_ms]. *)
Lemma search_keeps_first_best_witness :
  exists s g',
    search isoRng 1 axes_ms axes_k1 axes_k2 = Some (s, g') /\
    Forall (fun f => exists v, votes axes_ms axes_k1 axes_k2 f = Some v /\
                               v <= maxConcensus s)
           (hypothesisSequence isoRng 1 (Z.of_nat (length axes_ms))) /\
    ((maxConcensus s = 0 /\ bestX s = 0 /\ bestY s = 0) \/
     (exists pre f post,
        hypothesisSequence isoRng 1 (Z.of_nat (length axes_ms)) = pre ++ f :: post /\
        0 < maxConcensus s /\
        votes axes_ms axes_k1 axes_k2 f = Some (maxConcensus s) /\
        Forall (fun f' => exists v, votes axes_ms axes_k1 axes_k2 f' = Some v /\
                                    v < maxConcensus s) pre /\
        truncatedTranslation axes_ms axes_k1 axes_k2 f = Some (bestX s, bestY s))).
Proof.
  apply (search_keeps_first_best isoRng 1 axes_ms axes_k1 axes_k2).
  - intros m [<- | [<- | [<- | [<- | []]]]]; cbn; lia.
  - intros j e. unfold translationOf, vec_at.
    destruct (j <? 0); [discriminate|].
    destruct (Z.to_nat j) as [|[|[|[|k]]]]; cbn;
      try (destruct k; discriminate);
      intros E; injection E as <-; split; eexists; vm_compute; reflexivity.
Defined.

(** The single match whose translation is (2.5, 0). *)
Lemma estimateTranslation_single_match_witness :
  option_map fst (search isoRng 1 [mkDMatch 0 0 1%float] half_k1 half_k2) =
    Some (mkSearch 2.5 0 0 0 0) /\
  estimateTranslation isoRng 1 [mkDMatch 0 0 1%float] half_k1 half_k2 =
    Some (2, 0, snd (rand isoRng (srand isoRng 0 1))).
Proof.
  apply (estimateTranslation_single_match isoRng 1 (mkDMatch 0 0 1%float)
           half_k1 half_k2 2.5%float 0%float 2 0).
  - vm_compute. reflexivity.
  - vm_compute. reflexivity.
  - vm_compute. reflexivity.
Defined.

(** Three matches that agree on the translation (10.5, 1). *)
Lemma estimateTranslation_unanimous_witness :
  exists s g',
    search isoRng 1 agree_ms agree_k1 agree_k2 = Some (s, g') /\
    maxConcensus s = Z.of_nat (length agree_ms) - 1 /\
    estimateTranslation isoRng 1 agree_ms agree_k1 agree_k2 = Some (10, 1, g').
Proof.
  apply (estimateTranslation_unanimous isoRng 1 agree_ms agree_k1 agree_k2
           10.5%float 1%float 10 1).
  - intros m [<- | [<- | [<- | []]]]; cbn; lia.
  - discriminate.
  - intros j Hj. cbn in Hj.
    assert (E : j = 0 \/ j = 1 \/ j = 2) by lia.
    destruct E as [-> | [-> | ->]]; vm_compute; reflexivity.
  - vm_compute. reflexivity.
  - vm_compute. reflexivity.
Defined.

(** What the call on the match of translation (2.5, 0) writes into the
    identity. *)
Lemma estimateHomography_writes_witness :
  exists bX bY,
    estimateTranslation isoRng 1 half_ms half_k1 half_k2 = Some (bX, bY, 12345) /\
    INT_MIN <= bX <= INT_MAX /\ INT_MIN <= bY <= INT_MAX /\
    ptr_get (translationMat 2 0) 0 2 = Some (i2d bX) /\
    ptr_get (translationMat 2 0) 1 2 = Some (i2d bY) /\
    d2i (i2d bX) = Some bX /\ d2i (i2d bY) = Some bY /\
    (forall r c, (r, c) <> (0, 2) -> (r, c) <> (1, 2) ->
       ptr_get (translationMat 2 0) r c = ptr_get Id3 r c).
Proof.
  apply (estimateHomography_writes_whole_pixels isoRng 1 12345 half_ms half_k1 half_k2
           Id3 (translationMat 2 0) 0).
  vm_compute. reflexivity.
Defined.

(** [blend] on one pixel with content on both sides and equal alphas. *)
Lemma blend_is_pixelwise_witness :
  0 = 0 /\ wf_Mat 3 (mkMat 1 1 [[25; 35; 45]]) /\
  rows (mkMat 1 1 [[25; 35; 45]]) = rows px_canvas /\
  cols (mkMat 1 1 [[25; 35; 45]]) = cols px_canvas /\
  forall y x k, 0 <= y < rows px_canvas -> 0 <= x < cols px_canvas -> 0 <= k < 3 ->
    ptr_get (mkMat 1 1 [[25; 35; 45]]) y (3 * x + k) =
    blendedAt px_new px_canvas px_half px_half y x k.
Proof.
  apply (blend_is_pixelwise px_new px_canvas px_half px_half 0 (mkMat 1 1 [[25; 35; 45]])).
  - unfold wf_Mat. cbn. split; [lia|]. split; [lia|]. split; [reflexivity|].
    repeat constructor.
  - unfold wf_Mat. cbn. split; [lia|]. split; [lia|]. split; [reflexivity|].
    repeat constructor.
  - unfold wf_Mat. cbn. split; [lia|]. split; [lia|]. split; [reflexivity|].
    repeat constructor.
  - unfold wf_Mat. cbn. split; [lia|]. split; [lia|]. split; [reflexivity|].
    repeat constructor.
  - reflexivity.
  - reflexivity.
  - reflexivity.
  - reflexivity.
  - reflexivity.
  - reflexivity.
  - vm_compute. reflexivity.
Defined.

(** [blend] of a new pixel into a canvas pixel whose channel 0 is empty. *)
Lemma blend_without_overlap_witness :
  exists canvas',
    blend px_new px_empty0 px_alpha0 px_alpha0 = Some (0, canvas') /\
    forall y x k, 0 <= y < rows px_empty0 -> 0 <= x < cols px_empty0 -> 0 <= k < 3 ->
      exists c0 ck nk,
        ptr_get px_empty0 y (3 * x) = Some c0 /\
        ptr_get px_empty0 y (3 * x + k) = Some ck /\
        ptr_get px_new y (3 * x + k) = Some nk /\
        ptr_get canvas' y (3 * x + k) = Some (if c0 >? 0 then ck else nk).
Proof.
  apply (blend_without_overlap px_new px_empty0 px_alpha0 px_alpha0).
  - unfold wf_Mat. cbn. split; [lia|]. split; [lia|]. split; [reflexivity|].
    repeat constructor.
  - unfold wf_Mat. cbn. split; [lia|]. split; [lia|]. split; [reflexivity|].
    repeat constructor.
  - unfold wf_Mat. cbn. split; [lia|]. split; [lia|]. split; [reflexivity|].
    repeat constructor.
  - unfold wf_Mat. cbn. split; [lia|]. split; [lia|]. split; [reflexivity|].
    repeat constructor.
  - reflexivity.
  - reflexivity.
  - reflexivity.
  - reflexivity.
  - reflexivity.
  - reflexivity.
  - cbn. unfold INT_MAX. lia.
  - intros y x c0 n0 Hc _. left.
    unfold ptr_get, vec_at in Hc. cbn [px_empty0 data] in Hc.
    destruct (y <? 0); [discriminate|].
    destruct (Z.to_nat y) as [|ky]; [|destruct ky; discriminate].
    cbn [nth_error bind] in Hc.
    destruct (3 * x <? 0) eqn:E3; [discriminate|]. apply Z.ltb_ge in E3.
    destruct (Z.to_nat (3 * x)) as [|[|[|kx]]] eqn:E; cbn in Hc.
    + injection Hc as <-. reflexivity.
    + exfalso. lia.
    + exfalso. lia.
    + destruct kx; discriminate.
Defined.

(** The two projections of the 2x2 image. *)
Lemma projections_copy_or_skip_witness :
  projects (sampleSpherical paraxialLibm 2800 (rows img22) (cols img22)) 3 img22 out22
           (projectSpherical paraxialLibm img22 out22 2800) /\
  projects (sampleCylindrical paraxialLibm 2800 (rows img22) (cols img22)) 3 img22 out22
           (projectCylindrical paraxialLibm img22 out22 2800).
Proof.
  apply (projections_copy_or_skip paraxialLibm 2800%float img22 out22).
  - unfold wf_Mat. cbn. split; [lia|]. split; [lia|]. split; [reflexivity|].
    repeat constructor.
  - unfold wf_Mat. cbn. split; [lia|]. split; [lia|]. split; [reflexivity|].
    repeat constructor.
  - reflexivity.
  - reflexivity.
Defined.

(** The projection of the 2x2 image and of its mask. *)
Lemma projectMaskSpherical_follows_witness :
  projects (sampleSpherical paraxialLibm 2800 (rows img22) (cols img22)) 3 img22 out22
           (projectSpherical paraxialLibm img22 out22 2800) /\
  projects (sampleSpherical paraxialLibm 2800 (rows img22) (cols img22)) 1 mask22 maskOut22
           (projectMaskSpherical paraxialLibm mask22 maskOut22 2800) /\
  ((forall y x, 0 <= y < rows img22 -> 0 <= x < cols img22 ->
      exists s, sampleSpherical paraxialLibm 2800 (rows img22) (cols img22) y x = Some s) ->
   exists MO', projectMaskSpherical paraxialLibm mask22 maskOut22 2800 = Some (0, MO')).
Proof.
  apply (projectMaskSpherical_follows_image paraxialLibm 2800%float
           img22 out22 mask22 maskOut22).
  - unfold wf_Mat. cbn. split; [lia|]. split; [lia|]. split; [reflexivity|].
    repeat constructor.
  - unfold wf_Mat. cbn. split; [lia|]. split; [lia|]. split; [reflexivity|].
    repeat constructor.
  - reflexivity.
  - reflexivity.
  - unfold wf_Mat. cbn. split; [lia|]. split; [lia|]. split; [reflexivity|].
    repeat constructor.
  - unfold wf_Mat. cbn. split; [lia|]. split; [lia|]. split; [reflexivity|].
    repeat constructor.
  - reflexivity.
  - reflexivity.
  - reflexivity.
  - reflexivity.
Defined.

(** The center (1, 1) of the 2x2 image, channel 2. *)
Lemma projections_fix_center_witness :
  ptr_get warped22 (Z.quot (rows img22) 2) (3 * Z.quot (cols img22) 2 + 2) =
  ptr_get img22 (Z.quot (rows img22) 2) (3 * Z.quot (cols img22) 2 + 2).
Proof.
  apply (projections_fix_center paraxialLibm 2800%float 6157265115545600%positive (-41)
           img22 out22 warped22 0 2).
  - reflexivity.
  - reflexivity.
  - vm_compute. reflexivity.
  - unfold wf_Mat. cbn. split; [lia|]. split; [lia|]. split; [reflexivity|].
    repeat constructor.
  - unfold wf_Mat. cbn. split; [lia|]. split; [lia|]. split; [reflexivity|].
    repeat constructor.
  - reflexivity.
  - reflexivity.
  - cbn. unfold INT_MAX. lia.
  - cbn. unfold INT_MAX. lia.
  - lia.
  - left. vm_compute. reflexivity.
Defined.

(** The transforms of the four frames of [chain_detect]. *)
Lemma Stitch_transforms_witness :
  0 = 0 /\ chain_Ts <> [] /\
  Forall (fun T => exists tx ty, T = translationMat tx ty) chain_Ts.
Proof.
  apply (Stitch_transforms_are_translations isoRng 1 chain_g 100 200 4 chain_detect
           0 chain_Ts).
  vm_compute. reflexivity.
Defined.


(** The mask of an image one pixel high. *)
Lemma buildBlendMask_thin_witness :
  exists mask',
    buildBlendMask img13 mask13 = Some (0, mask') /\
    forall y x, 0 <= y < rows mask13 -> 0 <= x < cols mask13 ->
      ptr_get mask' y x = Some nan.
Proof.
  apply (buildBlendMask_thin_image_is_nan img13 mask13).
  - unfold wf_Mat. cbn. split; [lia|]. split; [lia|]. split; [reflexivity|].
    repeat constructor.
  - reflexivity.
  - reflexivity.
Defined.

(** The pixel (3, 1) of the right column of the 4x4 mask. *)
Lemma buildBlendMask_border_witness :
  exists mask',
    buildBlendMask img44 mask44 = Some (0, mask') /\
    ptr_get mask' 1 3 = Some 0%float.
Proof.
  apply (buildBlendMask_right_bottom_border_zero img44 mask44 3 1).
  - unfold wf_Mat, mask44, zeros. cbn.
    split; [lia|]. split; [lia|]. split; [reflexivity|]. repeat constructor.
  - reflexivity.
  - cbn. unfold INT_MAX. lia.
  - cbn. lia.
  - cbn. lia.
  - left. reflexivity.
Defined.

(** The constructor on two files that both decode to the 2x2 image. *)
Lemma construct_prewarps_witness :
  exists src blendMasks,
    construct paraxialLibm 2 read_all = Some (Built src blendMasks) /\
    Z.of_nat (length src) = 2 /\
    Z.of_nat (length blendMasks) = 2 /\
    forall i, 0 <= i < 2 ->
      exists img msk,
        vec_at src i = Some img /\ vec_at blendMasks i = Some msk /\
        prewarped paraxialLibm (read_all (i + 1)) img msk.
Proof.
  apply (construct_prewarps paraxialLibm 2 read_all).
  - lia.
  - intros i Hi. split; [|split; [|split]; cbn; unfold INT_MAX; lia].
    unfold wf_Mat. cbn. split; [lia|]. split; [lia|]. split; [reflexivity|].
    repeat constructor.
  - intros i y x Hi Hy Hx. cbn in Hy, Hx.
    assert (Ey : y = 0 \/ y = 1) by lia.
    assert (Ex : x = 0 \/ x = 1) by lia.
    destruct Ey as [-> | ->]; destruct Ex as [-> | ->];
      eexists; vm_compute; reflexivity.
Defined.

(** The constructor on two files the second of which cannot be read. *)
Lemma construct_exits_witness :
  construct paraxialLibm 2 read_first = Some Exited.
Proof.
  apply (construct_exits_on_unreadable paraxialLibm 2 read_first 1).
  - lia.
  - intros i Hi. assert (i = 0) by lia. subst i.
    split; [|split; [|split]; cbn; unfold INT_MAX; lia].
    unfold wf_Mat. cbn. split; [lia|]. split; [lia|]. split; [reflexivity|].
    repeat constructor.
  - intros i y x Hi Hy Hx. assert (i = 0) by lia. subst i. cbn in Hy, Hx.
    assert (Ey : y = 0 \/ y = 1) by lia.
    assert (Ex : x = 0 \/ x = 1) by lia.
    destruct Ey as [-> | ->]; destruct Ex as [-> | ->];
      eexists; vm_compute; reflexivity.
  - cbn. lia.
  - cbn. lia.
  - reflexivity.
Defined.

End FurtherRuns.
